(** * TrekTrack: the trek reconstruction engine

    A shallow embedding of the TypeScript sources

      - [types.ts]                 the data model
                                   (first part of [src/types.ts]),
      - [services/exifService.ts]  GPS / camera extraction and base64
                                   encoding (second part of [src/types.ts]),
      - [App.tsx]                  ingestion, ordering, statistics, export,
                                   removal and clearing (second part of
                                   [src/components/ElevationProfile.tsx]),
      - [components/Map.tsx]       the timed journey playback
                                   (first part of [src/components/Map.tsx]),
      - [components/Gallery.tsx]   the gallery's navigation
                                   (second part of [src/components/Map.tsx]),
      - [components/ElevationProfile.tsx]
                                   the elevation chart (first part of
                                   [src/components/ElevationProfile.tsx]),

    followed by the properties established about them.

    Conventions of the embedding.

    - A finite JavaScript number is an exact rational [Q]. A coordinate,
      which the reader describes by a number, is such a [Q]. An altitude,
      which the program obtains by [Number(...)] from a description that
      may be text, is a [number]: finite, an infinity or [NaN].
      The great-circle arithmetic, which goes through [Math.sin],
      [Math.cos], [Math.sqrt] and [Math.atan2], is carried out in the
      real numbers [R]. IEEE rounding is idealised away throughout: where
      a double would round, overflow or carry a signed zero, the
      embedding has the exact value. In particular the haversine term,
      which in exact arithmetic never leaves the interval from 0 to 1,
      can round above 1 in doubles for two nearly antipodal points, and
      [Math.sqrt] of the negative difference is then [NaN]; the embedding
      does not show that.
    - The time value of a [Date] is an integer number of milliseconds or
      [NaN]; see [jsint].
    - Code that can throw, or a promise that can reject, returns a
      [result]; [Throw] is the exception or the rejection reason.
    - What the browser and the imported libraries supply ([ExifReader],
      [heic2any], [FileReader], [URL], [Math.random], [Date] parsing and
      printing, number printing) is the interface [Host].
    - The program runs on one thread: an asynchronous function is a
      sequence of steps between its [await]s. Ingestion touches the state
      only in its last step and is embedded as one function; the
      callbacks of a batch draw their ids as they get past their last
      [await], in an order the host decides ([settledAt]). The playback,
      whose steps interleave with the user's clicks, is a transition
      system over timestamped events. *)

From Stdlib Require Import ZArith QArith Qround Qreals Reals Machin Lra Lia.
From Stdlib Require Import List Bool String Ascii Permutation Sorted.
From Stdlib Require Import DecimalString.
From Stdlib Require Lqa.
Import ListNotations.

Set Implicit Arguments.

(* ================================================================== *)
(** * ECMAScript values and built-ins used by the program *)
(* ================================================================== *)

Module JS.

(** An integer-valued number that may be [NaN]: the time value of a
    [Date], and what is computed from it. *)
Inductive jsint : Type :=
| NaN
| Int (z : Z).

(** A [Date] object; [new Date(s)] on an unparseable [s] is the
    Invalid Date, an object (hence truthy) whose time value is [NaN]. *)
Inductive Date : Type :=
| ValidDate (ms : Z)
| InvalidDate.

Definition getTime (d : Date) : jsint :=
  match d with
  | ValidDate ms => Int ms
  | InvalidDate => NaN
  end.

(** [v || 0] where [v] is [undefined] ([None]), [NaN] or a number:
    [undefined], [NaN] and [0] are the falsy ones. *)
Definition orZero (v : option jsint) : Z :=
  match v with
  | Some (Int z) => z
  | Some NaN => 0
  | None => 0
  end.

(** ToBoolean on a number: only zero is falsy ([NaN] is not a [Q]). *)
Definition truthy (x : Q) : bool := negb (Qeq_bool x 0).

(** ToBoolean on a string: only the empty string is falsy. *)
Definition truthyString (s : string) : bool :=
  match s with
  | EmptyString => false
  | String _ _ => true
  end.

(** Exceptions and promise rejections. *)
Inductive error : Type :=
| TypeError
| RangeError
| HostError (reason : string).

Inductive result (A : Type) : Type :=
| Ok (a : A)
| Throw (e : error).
Arguments Ok {A} a.
Arguments Throw {A} e.

Definition bind {A B : Type} (r : result A) (k : A -> result B) : result B :=
  match r with
  | Ok a => k a
  | Throw e => Throw e
  end.

(** [try { body } catch (err) { handler }]. *)
Definition tryCatch {A : Type} (body : result A) (handler : error -> result A)
  : result A :=
  match body with
  | Ok a => Ok a
  | Throw e => handler e
  end.

(** [Math.round]: the nearest integer, ties towards +infinity. *)
Definition Math_round (x : Q) : Z := Qfloor (x + (1 # 2)).

(** [Math.atan2(y, x)] on real numbers. *)
Definition Math_atan2 (y x : R) : R :=
  if Rlt_dec 0 x then atan (y / x)
  else if Rlt_dec x 0 then
         (if Rle_dec 0 y then atan (y / x) + PI else atan (y / x) - PI)
       else if Rlt_dec 0 y then PI / 2
            else if Rlt_dec y 0 then - PI / 2
                 else 0.

(** Decimal digits of a non-negative integer. *)
Definition digits (n : Z) : string :=
  NilZero.string_of_uint (N.to_uint (Z.to_N n)).

(** [x.toFixed(2)] (for [x] below [1e21]): with [n] the integer for
    which [n / 100 - x] is closest to zero, the larger one in a tie,
    the digits of [n] with a point before the last two; a negative [x]
    is printed as ["-"] followed by [(-x).toFixed(2)]. *)
Definition toFixed2_abs (x : R) : string :=
  let n := Zfloor (x * 100 + / 2) in
  let frac := (n mod 100)%Z in
  (digits (n / 100) ++ "." ++
   (if (frac <? 10)%Z then "0" else EmptyString) ++ digits frac)%string.

Definition toFixed2 (x : R) : string :=
  if Rlt_dec x 0 then ("-" ++ toFixed2_abs (- x))%string
  else toFixed2_abs x.

(** ** Strings *)

Definition lowerAscii (c : ascii) : ascii :=
  let n := nat_of_ascii c in
  if (65 <=? n)%nat && (n <=? 90)%nat then ascii_of_nat (n + 32) else c.

(** [s.toLowerCase()] on the ASCII letters. *)
Fixpoint toLowerCase (s : string) : string :=
  match s with
  | EmptyString => EmptyString
  | String c s' => String (lowerAscii c) (toLowerCase s')
  end.

(** [s.endsWith(suffix)]. *)
Definition endsWith (s suffix : string) : bool :=
  let n := String.length s in
  let m := String.length suffix in
  (m <=? n)%nat && String.eqb (substring (n - m) m s) suffix.

(** [s.replace(/&/g, '&amp;')]. *)
Fixpoint escapeAmp (s : string) : string :=
  match s with
  | EmptyString => EmptyString
  | String c s' =>
      if Ascii.eqb c "&"%char
      then ("&amp;" ++ escapeAmp s')%string
      else String c (escapeAmp s')
  end.

(** [s.split(sep)[0]], the part of [s] before the first [sep]. *)
Fixpoint beforeChar (sep : ascii) (s : string) : string :=
  match s with
  | EmptyString => EmptyString
  | String c s' =>
      if Ascii.eqb c sep then EmptyString else String c (beforeChar sep s')
  end.

(** The part of [s] after the first [sep], if there is one. *)
Fixpoint afterChar (sep : ascii) (s : string) : option string :=
  match s with
  | EmptyString => None
  | String c s' => if Ascii.eqb c sep then Some s' else afterChar sep s'
  end.

(** [s.split(',')[1]]: [undefined] when [s] holds no comma. *)
Definition splitComma1 (s : string) : option string :=
  option_map (beforeChar ","%char) (afterChar ","%char s).

Definition isDigit (c : ascii) : bool :=
  let n := nat_of_ascii c in (48 <=? n)%nat && (n <=? 57)%nat.

(** [f(c)] for every character of [s]. *)
Fixpoint allChars (f : ascii -> bool) (s : string) : bool :=
  match s with
  | EmptyString => true
  | String c s' => f c && allChars f s'
  end.

(** The longest prefix of [s] whose characters satisfy [f], and the
    rest of [s]. *)
Fixpoint takeWhile (f : ascii -> bool) (s : string) : string :=
  match s with
  | EmptyString => EmptyString
  | String c s' => if f c then String c (takeWhile f s') else EmptyString
  end.

Fixpoint dropWhile (f : ascii -> bool) (s : string) : string :=
  match s with
  | EmptyString => EmptyString
  | String c s' => if f c then dropWhile f s' else s
  end.

Fixpoint reverseOnto (s acc : string) : string :=
  match s with
  | EmptyString => acc
  | String c s' => reverseOnto s' (String c acc)
  end.

Definition reverse (s : string) : string := reverseOnto s EmptyString.

(** ** Numbers

    A number that need not be finite. The finite ones are exact
    rationals; [NotANumber] is [NaN] (the constructor [NaN] is the one
    of [jsint]). *)
Inductive number : Type :=
| Finite (q : Q)
| Infinity (negative : bool)
| NotANumber.

(** ToBoolean on a number: zero and [NaN] are the falsy ones. *)
Definition truthyNumber (x : number) : bool :=
  match x with
  | Finite q => truthy q
  | Infinity _ => true
  | NotANumber => false
  end.

(** [a === b] on numbers: [NaN] equals nothing. *)
Definition sameNumber (a b : number) : bool :=
  match a, b with
  | Finite x, Finite y => Qeq_bool x y
  | Infinity m, Infinity n => Bool.eqb m n
  | _, _ => false
  end.

(** [Math.max(a, b)] and [Math.min(a, b)]: [NaN] if either is. *)
Definition Math_max (a b : number) : number :=
  match a, b with
  | NotANumber, _ | _, NotANumber => NotANumber
  | Infinity false, _ | _, Infinity false => Infinity false
  | Infinity true, x | x, Infinity true => x
  | Finite x, Finite y => Finite (if Qle_bool x y then y else x)
  end.

Definition Math_min (a b : number) : number :=
  match a, b with
  | NotANumber, _ | _, NotANumber => NotANumber
  | Infinity true, _ | _, Infinity true => Infinity true
  | Infinity false, x | x, Infinity false => x
  | Finite x, Finite y => Finite (if Qle_bool x y then x else y)
  end.

(** [Math.max(...l)] and [Math.min(...l)]; of no argument they are
    [-Infinity] and [Infinity]. *)
Definition Math_maxAll (l : list number) : number :=
  fold_left Math_max l (Infinity true).

Definition Math_minAll (l : list number) : number :=
  fold_left Math_min l (Infinity false).

(** [Math.round] of a number. *)
Definition Math_roundNumber (x : number) : number :=
  match x with
  | Finite q => Finite (inject_Z (Math_round q))
  | _ => x
  end.

(** The sign of a finite number as a divisor or factor of an infinity;
    a zero counts as positive. *)
Definition isNegative (q : Q) : bool := negb (Qle_bool 0 q).

(** [a - b] *)
Definition subtract (a b : number) : number :=
  match a, b with
  | NotANumber, _ | _, NotANumber => NotANumber
  | Finite x, Finite y => Finite (x - y)
  | Infinity m, Infinity n => if Bool.eqb m n then NotANumber else Infinity m
  | Infinity m, Finite _ => Infinity m
  | Finite _, Infinity n => Infinity (negb n)
  end.

(** [a * b] *)
Definition multiply (a b : number) : number :=
  match a, b with
  | NotANumber, _ | _, NotANumber => NotANumber
  | Finite x, Finite y => Finite (x * y)
  | Infinity m, Infinity n => Infinity (xorb m n)
  | Infinity m, Finite y | Finite y, Infinity m =>
      if Qeq_bool y 0 then NotANumber else Infinity (xorb m (isNegative y))
  end.

(** [a / b] *)
Definition divide (a b : number) : number :=
  match a, b with
  | NotANumber, _ | _, NotANumber => NotANumber
  | Finite x, Finite y =>
      if Qeq_bool y 0
      then (if Qeq_bool x 0 then NotANumber else Infinity (isNegative x))
      else Finite (x / y)
  | Infinity _, Infinity _ => NotANumber
  | Infinity m, Finite y => Infinity (xorb m (isNegative y))
  | Finite _, Infinity _ => Finite 0
  end.

(** ** [Number(text)]

    The text is trimmed of white space; the empty text is 0; otherwise
    it must be, as a whole, a numeric literal: [Infinity] or a decimal
    literal, either with an optional sign, or an unsigned binary, octal
    or hexadecimal integer literal. Any other text is [NaN]. White
    space is the ASCII one (tab, line feed, vertical tab, form feed,
    carriage return, space). *)

Definition isWhiteSpace (c : ascii) : bool :=
  let n := nat_of_ascii c in
  ((9 <=? n)%nat && (n <=? 13)%nat) || (n =? 32)%nat.

Definition trim (s : string) : string :=
  reverse (dropWhile isWhiteSpace (reverse (dropWhile isWhiteSpace s))).

(** The value of a digit in a base up to 16, if it is one. *)
Definition digitValue (base : Z) (c : ascii) : option Z :=
  let n := Z.of_nat (nat_of_ascii c) in
  let v := if (48 <=? n)%Z && (n <=? 57)%Z then (n - 48)%Z
           else if (97 <=? n)%Z && (n <=? 102)%Z then (n - 87)%Z
           else if (65 <=? n)%Z && (n <=? 70)%Z then (n - 55)%Z
           else base in
  if (v <? base)%Z then Some v else None.

(** The integer that the digits [s] spell in [base], after the digits
    that spelt [acc]. *)
Fixpoint readDigits (base : Z) (s : string) (acc : Z) : option Z :=
  match s with
  | EmptyString => Some acc
  | String c s' =>
      match digitValue base c with
      | Some v => readDigits base s' (acc * base + v)%Z
      | None => None
      end
  end.

(** One or more digits in [base], and nothing else. *)
Definition readInteger (base : Z) (s : string) : option Z :=
  match s with
  | EmptyString => None
  | String _ _ => readDigits base s 0%Z
  end.

(** [0b...], [0o...] or [0x...]. *)
Definition readNonDecimal (s : string) : option Z :=
  match s with
  | String "0"%char (String c digits) =>
      if Ascii.eqb c "b"%char || Ascii.eqb c "B"%char then readInteger 2 digits
      else if Ascii.eqb c "o"%char || Ascii.eqb c "O"%char then readInteger 8 digits
      else if Ascii.eqb c "x"%char || Ascii.eqb c "X"%char then readInteger 16 digits
      else None
  | _ => None
  end.

(** The exponent part, if it is one; no exponent part is the
    exponent 0. *)
Definition readExponent (s : string) : option Z :=
  match s with
  | EmptyString => Some 0%Z
  | String c s' =>
      if Ascii.eqb c "e"%char || Ascii.eqb c "E"%char then
        match s' with
        | String "+"%char digits => readInteger 10 digits
        | String "-"%char digits => option_map Z.opp (readInteger 10 digits)
        | _ => readInteger 10 s'
        end
      else None
  end.

(** An unsigned decimal literal: digits, a point and more digits, with
    digits on at least one side of the point, and an exponent part. *)
Definition readUnsignedDecimal (s : string) : option Q :=
  let whole := takeWhile isDigit s in
  let afterWhole := dropWhile isDigit s in
  let fraction := match afterWhole with
                  | String "."%char s' => takeWhile isDigit s'
                  | _ => EmptyString
                  end in
  let afterFraction := match afterWhole with
                       | String "."%char s' => dropWhile isDigit s'
                       | _ => afterWhole
                       end in
  if truthyString whole || truthyString fraction then
    match readDigits 10 (whole ++ fraction)%string 0%Z,
          readExponent afterFraction with
    | Some m, Some e =>
        Some (inject_Z m
              * Qpower 10 (e - Z.of_nat (String.length fraction)))%Q
    | _, _ => None
    end
  else None.

Definition readUnsigned (s : string) : number :=
  if String.eqb s "Infinity"%string then Infinity false
  else match readUnsignedDecimal s with
       | Some q => Finite q
       | None => NotANumber
       end.

Definition negate (x : number) : number :=
  match x with
  | Finite q => Finite (- q)
  | Infinity n => Infinity (negb n)
  | NotANumber => NotANumber
  end.

Definition Number_ofString (s : string) : number :=
  let t := trim s in
  match t with
  | EmptyString => Finite 0
  | String c t' =>
      match readNonDecimal t with
      | Some n => Finite (inject_Z n)
      | None =>
          if Ascii.eqb c "+"%char then readUnsigned t'
          else if Ascii.eqb c "-"%char then negate (readUnsigned t')
          else readUnsigned t
      end
  end.

(** What a tag's [description] can be: a number or text. *)
Inductive Description : Type :=
| DNumber (x : Q)
| DText (s : string).

(** ToBoolean and [Number(...)] on a description. *)
Definition truthyDescription (d : Description) : bool :=
  match d with
  | DNumber x => truthy x
  | DText s => truthyString s
  end.

Definition Number (d : Description) : number :=
  match d with
  | DNumber x => Finite x
  | DText s => Number_ofString s
  end.

(** ** [Array.prototype.sort]

    The comparator's sign decides; the sort is stable (ECMAScript 2019).
    Insertion from the right, an element going in front of the first
    one it does not follow, is such a sort; [sort_unique] below shows
    that for a comparator that subtracts keys no other outcome is sorted
    and stable. *)
Section Sort.
Variable A : Type.
Variable cmp : A -> A -> Z.

Fixpoint insert (x : A) (l : list A) : list A :=
  match l with
  | [] => [x]
  | y :: l' => if (cmp x y <=? 0)%Z then x :: l else y :: insert x l'
  end.

Definition sort (l : list A) : list A := fold_right insert [] l.
End Sort.

End JS.

(* ================================================================== *)
(** * [types.ts]: the data model *)
(* ================================================================== *)

Module Types.

Record GPSLocation : Type := {
  lat : Q;
  lng : Q;
  alt : option JS.number;
  timestamp : option JS.Date
}.

Record CameraMetadata : Type := {
  make : option string;
  model : option string;
  exposureTime : option string;
  fNumber : option string;
  iso : option string;
  focalLength : option string;
  lens : option string
}.

Record TrekPhoto : Type := {
  id : string;
  name : string;
  url : string;
  base64 : string;
  location : option GPSLocation;
  camera : option CameraMetadata;
  mimeType : string
}.

End Types.

(* ================================================================== *)
(** * The host: browser objects and imported libraries *)
(* ================================================================== *)

(** A DOM [File] (which is also a [Blob]). *)
Module File.
Record t : Type := {
  name : string;
  type : string;
  content : string
}.
End File.

(** The EXIF tags the program reads, each absent or present with its
    [description]. The program casts the GPS descriptions to [number]:
    a coordinate is described by a number, its decimal degrees; an
    altitude is described, by the reader the program imports, by a text
    such as [150 m], and may be described by a number. An altitude tag
    without a description counts for an absent one. *)
Module Exif.
Record Tags : Type := {
  GPSLatitude : option Q;
  GPSLongitude : option Q;
  GPSAltitude : option JS.Description;
  DateTimeOriginal : option (option string);
  Make : option string;
  Model : option string;
  ExposureTime : option string;
  FNumber : option string;
  ISOSpeedRatings : option string;
  FocalLength : option string;
  LensModel : option string;
  Lens : option string
}.
End Exif.

(** What [heic2any] resolves to: one blob or an array of blobs. *)
Inductive BlobOrArray : Type :=
| OneBlob (b : File.t)
| ManyBlobs (bs : list File.t).

Class Host : Type := {
  (** [ExifReader.load(file)] *)
  ExifReader_load : File.t -> JS.result Exif.Tags;
  (** [heic2any({ blob, toType: 'image/jpeg', quality: 0.6 })] *)
  heic2any : File.t -> JS.result BlobOrArray;
  (** [FileReader.readAsDataURL]: [reader.result] on load, the error on
      [onerror] *)
  FileReader_readAsDataURL : File.t -> JS.result (option string);
  (** [URL.createObjectURL(blob)] *)
  URL_createObjectURL : File.t -> string;
  (** [Math.random().toString(36)] at the k-th draw of the session *)
  Math_random_toString36 : nat -> string;
  (** when, in the ingestion of a batch of files, the callback of the
      i-th file gets past its last [await]: a time on any clock *)
  settledAt : list File.t -> nat -> nat;
  (** the time value of [new Date(s)] *)
  Date_parse : string -> JS.jsint;
  (** [toISOString] of a valid time value *)
  Date_toISOString : Z -> string;
  (** [toLocaleDateString] of a valid time value *)
  Date_toLocaleDateString : Z -> string;
  (** a finite number inside a template literal *)
  Number_toString : Q -> string
}.

(* ================================================================== *)
(** * [services/exifService.ts] *)
(* ================================================================== *)

Module ExifService.
Import JS Types.

(** [s.replace(/^(\d{4}):(\d{2}):(\d{2})/, '$1-$2-$3')] *)
Definition normalizeExifDate (s : string) : string :=
  match s with
  | String y1 (String y2 (String y3 (String y4 (String c1
      (String m1 (String m2 (String c2 (String d1 (String d2 rest))))))))) =>
      if isDigit y1 && isDigit y2 && isDigit y3 && isDigit y4
         && Ascii.eqb c1 ":"%char
         && isDigit m1 && isDigit m2
         && Ascii.eqb c2 ":"%char
         && isDigit d1 && isDigit d2
      then String y1 (String y2 (String y3 (String y4 (String "-"%char
             (String m1 (String m2 (String "-"%char
               (String d1 (String d2 rest)))))))))
      else s
  | _ => s
  end.

Section WithHost.
Context {host : Host}.

(** [new Date(s)] *)
Definition newDate (s : string) : Date :=
  match Date_parse s with
  | Int ms => ValidDate ms
  | NaN => InvalidDate
  end.

(** The [date] variable of [extractGpsData]. *)
Definition originalDate (tag : option (option string)) : option Date :=
  match tag with
  | Some description =>
      match option_map normalizeExifDate description with
      | Some dateStr =>
          if truthyString dateStr then Some (newDate dateStr) else None
      | None => None
      end
  | None => None
  end.

Definition extractGpsData (file : File.t) : result (option GPSLocation) :=
  tryCatch
    (bind (ExifReader_load file) (fun tags =>
       match Exif.GPSLatitude tags, Exif.GPSLongitude tags with
       | Some lat, Some lng =>
           let alt := Exif.GPSAltitude tags in
           let date := originalDate (Exif.DateTimeOriginal tags) in
           Ok (Some {| lat := lat;
                       lng := lng;
                       alt := match alt with
                              | Some a =>
                                  if truthyDescription a
                                  then Some (Number a)
                                  else None
                              | None => None
                              end;
                       timestamp := date |})
       | _, _ => Ok None
       end))
    (fun _ => Ok None).

(** [a || b] on optional strings. *)
Definition orElse (a b : option string) : option string :=
  match a with
  | Some s => if truthyString s then a else b
  | None => b
  end.

Definition noCameraMetadata : CameraMetadata :=
  {| make := None; model := None; exposureTime := None; fNumber := None;
     iso := None; focalLength := None; lens := None |}.

Definition extractCameraMetadata (file : File.t) : result CameraMetadata :=
  tryCatch
    (bind (ExifReader_load file) (fun tags =>
       Ok {| make := Exif.Make tags;
             model := Exif.Model tags;
             exposureTime := Exif.ExposureTime tags;
             fNumber := Exif.FNumber tags;
             iso := Exif.ISOSpeedRatings tags;
             focalLength := Exif.FocalLength tags;
             lens := orElse (Exif.LensModel tags) (Exif.Lens tags) |}))
    (fun _ => Ok noCameraMetadata).

(** [reader.result?.toString().split(',')[1] || ''] *)
Definition base64Part (readerResult : option string) : string :=
  match readerResult with
  | Some dataUrl =>
      match splitComma1 dataUrl with
      | Some b => b
      | None => EmptyString
      end
  | None => EmptyString
  end.

Definition fileToBase64 (file : File.t) : result string :=
  bind (FileReader_readAsDataURL file) (fun r => Ok (base64Part r)).

End WithHost.
End ExifService.

(* ================================================================== *)
(** * [App.tsx] *)
(* ================================================================== *)

Module App.
Import JS Types.

(** ** Ordering *)

(** [p.location?.timestamp?.getTime()] *)
Definition timeOf (p : TrekPhoto) : option jsint :=
  match location p with
  | Some l => option_map getTime (timestamp l)
  | None => None
  end.

(** [(p.location?.timestamp?.getTime() || 0)] *)
Definition timeKey (p : TrekPhoto) : Z := orZero (timeOf p).

(** The comparator [(a, b) => (a... || 0) - (b... || 0)]. *)
Definition byTime (a b : TrekPhoto) : Z := (timeKey a - timeKey b)%Z.

(** [p => p.location] as a filter predicate. *)
Definition hasLocation (p : TrekPhoto) : bool :=
  match location p with
  | Some _ => true
  | None => false
  end.

(** [[...photos].sort(...)] *)
Definition sortedPhotos (photos : list TrekPhoto) : list TrekPhoto :=
  sort byTime photos.

(** [photos.filter(p => p.location).sort(...)], the [gpsPhotos] of
    [stats] (and the [validPhotos] of the map): the time-ordered trek. *)
Definition gpsPhotos (photos : list TrekPhoto) : list TrekPhoto :=
  sort byTime (filter hasLocation photos).

(** ** Statistics *)

Record Stats : Type := {
  distance : string;
  maxAlt : option number;
  duration : option jsint
}.

(** One pass of the loop body: the great-circle distance, in km,
    between [p1] and [p2] by the haversine formula. As in the source,
    the local [R] is the Earth's radius in km. *)
Definition segmentKm (p1 p2 : GPSLocation) : R :=
  let R := 6371%R in
  let dLat := ((Q2R (lat p2) - Q2R (lat p1)) * PI / 180)%R in
  let dLon := ((Q2R (lng p2) - Q2R (lng p1)) * PI / 180)%R in
  let a := ((sin (dLat / 2)) ^ 2
            + cos (Q2R (lat p1) * PI / 180) * cos (Q2R (lat p2) * PI / 180)
              * (sin (dLon / 2)) ^ 2)%R in
  (R * (2 * Math_atan2 (sqrt a) (sqrt (1 - a))))%R.

(** [gpsPhotos[i].location!]: reading through [undefined] is a
    [TypeError]. *)
Definition locationAt (gps : list TrekPhoto) (i : nat) : result GPSLocation :=
  match nth_error gps i with
  | Some p =>
      match location p with
      | Some l => Ok l
      | None => Throw TypeError
      end
  | None => Throw TypeError
  end.

(** [if (l.alt !== undefined) maxA = Math.max(maxA, l.alt)] *)
Definition bumpMax (maxA : number) (l : GPSLocation) : number :=
  match alt l with
  | Some a => Math_max maxA a
  | None => maxA
  end.

(** The [for (let i = ...; i < gpsPhotos.length - 1; i++)] loop, with
    [n] iterations left to run from index [i]. *)
Fixpoint statsLoop (gps : list TrekPhoto) (n i : nat)
         (dist : R) (maxA : number) : result (R * number) :=
  match n with
  | O => Ok (dist, maxA)
  | S n' =>
      bind (locationAt gps i) (fun p1 =>
      bind (locationAt gps (i + 1)) (fun p2 =>
        statsLoop gps n' (S i) (dist + segmentKm p1 p2)%R (bumpMax maxA p1)))
  end.

(** [Math.round((b - a) / 60000)] on time values. *)
Definition minutesBetween (a b : jsint) : jsint :=
  match a, b with
  | Int x, Int y => Int (Math_round (inject_Z (y - x) / 60000))
  | _, _ => NaN
  end.

(** [gpsPhotos[i].location?.timestamp] *)
Definition timestampAt (gps : list TrekPhoto) (i : nat)
  : result (option Date) :=
  match nth_error gps i with
  | Some p =>
      Ok (match location p with
          | Some l => timestamp l
          | None => None
          end)
  | None => Throw TypeError
  end.

Definition stats (photos : list TrekPhoto) : result (option Stats) :=
  let gps := gpsPhotos photos in
  if (List.length gps <? 2)%nat then Ok None
  else
    bind (statsLoop gps (List.length gps - 1) 0 0%R (Infinity true))
         (fun acc =>
    let '(dist, maxA) := acc in
    bind (locationAt gps (List.length gps - 1)) (fun last =>
    let maxA := bumpMax maxA last in
    bind (timestampAt gps 0) (fun first =>
    bind (timestampAt gps (List.length gps - 1)) (fun final =>
    Ok (Some {| distance := toFixed2 dist;
                maxAlt := if sameNumber maxA (Infinity true) then None
                          else Some (Math_roundNumber maxA);
                duration :=
                  match first, final with
                  | Some t0, Some t1 =>
                      Some (minutesBetween (getTime t0) (getTime t1))
                  | _, _ => None
                  end |}))))).

(** ** GPX export *)

Definition quote : string := String (ascii_of_nat 34) EmptyString.
Definition newline : string := String (ascii_of_nat 10) EmptyString.

(** What [a.click()] hands to the browser. *)
Record Download : Type := {
  filename : string;
  mime : string;
  content : string
}.

Section WithHost.
Context {host : Host}.

(** [d.toISOString()], a [RangeError] on the Invalid Date. *)
Definition toISOString (d : Date) : result string :=
  match d with
  | ValidDate ms => Ok (Date_toISOString ms)
  | InvalidDate => Throw RangeError
  end.

Definition gpxHeader (now : Z) : string :=
  ("<?xml version=" ++ quote ++ "1.0" ++ quote
    ++ " encoding=" ++ quote ++ "UTF-8" ++ quote ++ "?>" ++ newline
    ++ "<gpx version=" ++ quote ++ "1.1" ++ quote
    ++ " creator=" ++ quote ++ "TrekTrack" ++ quote
    ++ " xmlns=" ++ quote ++ "http://www.topografix.com/GPX/1/1" ++ quote
    ++ ">" ++ newline
    ++ "  <metadata><name>Expedition Export "
    ++ Date_toLocaleDateString now ++ "</name></metadata>" ++ newline
    ++ "  <trk><name>Digital Trail</name><trkseg>")%string.

Definition gpxFooter : string := "</trkseg></trk></gpx>"%string.

(** A number inside a template literal. *)
Definition numberText (x : number) : string :=
  match x with
  | Finite q => Number_toString q
  | Infinity false => "Infinity"%string
  | Infinity true => "-Infinity"%string
  | NotANumber => "NaN"%string
  end.

(** [p.location!.alt ? `<ele>${p.location!.alt}</ele>` : ''] *)
Definition eleText (l : GPSLocation) : string :=
  match alt l with
  | Some a =>
      if truthyNumber a then ("<ele>" ++ numberText a ++ "</ele>")%string
      else EmptyString
  | None => EmptyString
  end.

(** [p.location!.timestamp ? `<time>${...toISOString()}</time>` : ''] *)
Definition timeText (l : GPSLocation) : result string :=
  match timestamp l with
  | Some d =>
      bind (toISOString d) (fun iso =>
        Ok ("<time>" ++ iso ++ "</time>")%string)
  | None => Ok EmptyString
  end.

(** The text one pass of [validPhotos.forEach] appends to [gpx]. *)
Definition trkptText (p : TrekPhoto) : result string :=
  match location p with
  | None => Throw TypeError
  | Some l =>
      bind (timeText l) (fun time =>
        Ok (newline
            ++ "      <trkpt lat=" ++ quote ++ Number_toString (lat l) ++ quote
            ++ " lon=" ++ quote ++ Number_toString (lng l) ++ quote ++ ">"
            ++ newline ++ "        " ++ eleText l
            ++ newline ++ "        " ++ time
            ++ newline ++ "        <name>" ++ escapeAmp (name p) ++ "</name>"
            ++ newline ++ "      </trkpt>")%string)
  end.

(** [validPhotos.forEach(p => { gpx += ... })] *)
Fixpoint appendTrkpts (validPhotos : list TrekPhoto) (gpx : string)
  : result string :=
  match validPhotos with
  | [] => Ok gpx
  | p :: rest =>
      bind (trkptText p) (fun t => appendTrkpts rest (gpx ++ t)%string)
  end.

(** [exportGPX], run at clock reading [now]: [Ok None] is the early
    return, without any download. *)
Definition exportGPX (photos : list TrekPhoto) (now : Z)
  : result (option Download) :=
  let validPhotos := filter hasLocation (sortedPhotos photos) in
  if (List.length validPhotos =? 0)%nat then Ok None
  else
    bind (appendTrkpts validPhotos (gpxHeader now)) (fun gpx =>
    let gpx := (gpx ++ gpxFooter)%string in
    Ok (Some {| filename :=
                  ("trek_route_"
                   ++ beforeChar "T"%char (Date_toISOString now)
                   ++ ".gpx")%string;
                mime := "application/gpx+xml"%string;
                content := gpx |})).

End WithHost.

(** ** Ingestion *)

(** [Promise.all]: fulfilled with every value, or rejected with the
    first rejection. *)
Fixpoint Promise_all {A : Type} (ps : list (result A)) : result (list A) :=
  match ps with
  | [] => Ok []
  | p :: rest =>
      bind p (fun a => bind (Promise_all rest) (fun l => Ok (a :: l)))
  end.

(** [results.filter((p): p is TrekPhoto => p !== null)] *)
Fixpoint nonNull (results : list (option TrekPhoto)) : list TrekPhoto :=
  match results with
  | [] => []
  | Some p :: rest => p :: nonNull rest
  | None :: rest => nonNull rest
  end.

Definition isHeic (file : File.t) : bool :=
  endsWith (toLowerCase (File.name file)) ".heic"
  || endsWith (toLowerCase (File.name file)) ".heif".

(** A call of a state setter. [AppendPhotos l] is
    [setPhotos(prev => [...prev, ...l])]. *)
Inductive Update : Type :=
| SetIsConverting (b : bool)
| AppendPhotos (validNewPhotos : list TrekPhoto).

(** What one call of [processFiles] does: the setter calls it makes,
    in order, how its promise settles, and the number of
    [Math.random()] draws of the session afterwards. *)
Record Run : Type := {
  updates : list Update;
  outcome : result unit;
  drawsAfter : nat
}.

Section Ingestion.
Context {host : Host}.
Import ExifService.

(** [Array.isArray(displayBlob) ? displayBlob[0] : displayBlob] *)
Definition finalBlobOf (displayBlob : BlobOrArray) : option File.t :=
  match displayBlob with
  | ManyBlobs bs => hd_error bs
  | OneBlob b => Some b
  end.

(** The async callback of [files.map]; [draw] is the index of the
    [Math.random()] draw it would make. *)
Definition processFile (file : File.t) (draw : nat)
  : result (option TrekPhoto) :=
  tryCatch
    (bind (extractGpsData file) (fun location =>
     bind (extractCameraMetadata file) (fun camera =>
     bind (if isHeic file then heic2any file else Ok (OneBlob file))
       (fun displayBlob =>
     let finalBlob := finalBlobOf displayBlob in
     let finalMimeType :=
       if isHeic file then "image/jpeg"%string else File.type file in
     match finalBlob with
     | None => Throw TypeError
     | Some blob =>
         bind (fileToBase64 blob) (fun base64 =>
         let objectUrl := URL_createObjectURL blob in
         Ok (Some {| id := substring 2 9 (Math_random_toString36 draw);
                     name := File.name file;
                     url := objectUrl;
                     base64 := base64;
                     location := location;
                     camera := Some camera;
                     mimeType := finalMimeType |}))
     end))))
    (fun _ => Ok None).

(** Whether the callback of [file] gets as far as its
    [Math.random()]; that does not depend on what is drawn. *)
Definition reachesDraw (file : File.t) : bool :=
  match processFile file 0 with
  | Ok (Some _) => true
  | _ => false
  end.

(** The callbacks all start at once and each draws its id after its
    last [await], so the draws are made in the order in which the
    callbacks get past it, whatever the order of the files: the j-th
    callback draws before the i-th when it is past its last [await]
    earlier; two that are past it at the same time go on in the order
    of the files. *)
Definition drawsBefore (batch : list File.t) (j i : nat) : bool :=
  (settledAt batch j <? settledAt batch i)%nat
  || ((settledAt batch j =? settledAt batch i)%nat && (j <? i)%nat).

(** How many draws the batch makes before the one of its i-th
    callback. *)
Definition drawsAhead (batch : list File.t) (i : nat) : nat :=
  List.length
    (filter (fun j => match nth_error batch j with
                      | Some file => reachesDraw file && drawsBefore batch j i
                      | None => false
                      end)
            (seq 0 (List.length batch))).

(** The callbacks of [files], the files of [batch] from the i-th on. *)
Fixpoint processFrom (batch : list File.t) (draw i : nat)
         (files : list File.t) : list (result (option TrekPhoto)) :=
  match files with
  | [] => []
  | file :: rest =>
      processFile file (draw + drawsAhead batch i)
      :: processFrom batch draw (S i) rest
  end.

(** [files.map(async (file) => ...)] run to completion: what the
    promises settle to, and the number of draws of the session
    afterwards. *)
Definition processAll (files : list File.t) (draw : nat)
  : list (result (option TrekPhoto)) * nat :=
  (processFrom files draw 0 files,
   (draw + List.length (filter reachesDraw files))%nat).

Definition processFiles (files : list File.t) (draw : nat) : Run :=
  if (List.length files =? 0)%nat
  then {| updates := []; outcome := Ok tt; drawsAfter := draw |}
  else
    let (processPromises, draw') := processAll files draw in
    match Promise_all processPromises with
    | Ok results =>
        {| updates := [SetIsConverting true;
                       AppendPhotos (nonNull results);
                       SetIsConverting false];
           outcome := Ok tt;
           drawsAfter := draw' |}
    | Throw e =>
        {| updates := [SetIsConverting true];
           outcome := Throw e;
           drawsAfter := draw' |}
    end.

End Ingestion.

(** ** The state of the component *)

(** The [useState] cells of [App], with two records of what the
    session did to the host: the arguments of [URL.revokeObjectURL] so
    far, in call order, and the number of [Math.random()] draws. *)
Record State : Type := {
  photos : list TrekPhoto;
  activePhotoId : option string;
  isGalleryOpen : bool;
  galleryIndex : nat;
  isConverting : bool;
  revoked : list string;
  draws : nat
}.

Definition initial : State :=
  {| photos := []; activePhotoId := None; isGalleryOpen := false;
     galleryIndex := 0; isConverting := false; revoked := []; draws := 0 |}.

Definition applyUpdate (s : State) (u : Update) : State :=
  match u with
  | SetIsConverting b =>
      {| photos := photos s; activePhotoId := activePhotoId s;
         isGalleryOpen := isGalleryOpen s; galleryIndex := galleryIndex s;
         isConverting := b; revoked := revoked s; draws := draws s |}
  | AppendPhotos l =>
      {| photos := photos s ++ l; activePhotoId := activePhotoId s;
         isGalleryOpen := isGalleryOpen s; galleryIndex := galleryIndex s;
         isConverting := isConverting s; revoked := revoked s;
         draws := draws s |}
  end.

Definition withDraws (s : State) (n : nat) : State :=
  {| photos := photos s; activePhotoId := activePhotoId s;
     isGalleryOpen := isGalleryOpen s; galleryIndex := galleryIndex s;
     isConverting := isConverting s; revoked := revoked s; draws := n |}.

(** A whole [processFiles(files)] with nothing else in between. *)
Definition ingest {host : Host} (files : list File.t) (s : State) : State :=
  let run := processFiles files (draws s) in
  withDraws (fold_left applyUpdate (updates run) s) (drawsAfter run).

(** [setActivePhotoId(id)] *)
Definition setActivePhotoId (v : option string) (s : State) : State :=
  {| photos := photos s; activePhotoId := v;
     isGalleryOpen := isGalleryOpen s; galleryIndex := galleryIndex s;
     isConverting := isConverting s; revoked := revoked s;
     draws := draws s |}.

Definition deletePhoto (id : string) (s : State) : State :=
  let photoToRemove :=
    find (fun p => String.eqb (Types.id p) id) (photos s) in
  {| photos := filter (fun p => negb (String.eqb (Types.id p) id)) (photos s);
     activePhotoId :=
       match activePhotoId s with
       | Some a => if String.eqb a id then None else Some a
       | None => None
       end;
     isGalleryOpen := isGalleryOpen s;
     galleryIndex := galleryIndex s;
     isConverting := isConverting s;
     revoked := revoked s ++ match photoToRemove with
                             | Some p => [url p]
                             | None => []
                             end;
     draws := draws s |}.

(** [photos.forEach(p => { if (p.url) URL.revokeObjectURL(p.url) })] *)
Definition revokeAll (l : list TrekPhoto) : list string :=
  map url (filter (fun p => truthyString (url p)) l).

(** [handleClearAll]; [confirmed] is the answer to [window.confirm]. *)
Definition handleClearAll (confirmed : bool) (s : State) : State :=
  if confirmed then
    {| photos := []; activePhotoId := None; isGalleryOpen := false;
       galleryIndex := 0; isConverting := isConverting s;
       revoked := revoked s ++ revokeAll (photos s);
       draws := draws s |}
  else s.

(** ** The gallery, as [App] opens it *)

(** [l.findIndex(f)]; [None] is the [-1] of no match. *)
Fixpoint findIndex {A : Type} (f : A -> bool) (l : list A) : option nat :=
  match l with
  | [] => None
  | x :: rest =>
      if f x then Some 0%nat else option_map S (findIndex f rest)
  end.

(** [setGalleryIndex(idx); setIsGalleryOpen(true)] *)
Definition openGalleryAt (idx : nat) (s : State) : State :=
  {| photos := photos s; activePhotoId := activePhotoId s;
     isGalleryOpen := true; galleryIndex := idx;
     isConverting := isConverting s; revoked := revoked s;
     draws := draws s |}.

(** The listener of the [trek-open-gallery] event a map popup sends,
    [photoId] being the event's [detail]. *)
Definition handleOpenGallery (photoId : string) (s : State) : State :=
  match findIndex (fun p => String.eqb (Types.id p) photoId)
                  (sortedPhotos (photos s)) with
  | Some idx => openGalleryAt idx s
  | None => s
  end.

(** The [onClick] of the row that [sortedPhotos.map] renders at [idx]:
    select the photo, and open the gallery on it if it was selected
    already. There is nothing to click past the last row. *)
Definition clickRow (idx : nat) (s : State) : State :=
  match nth_error (sortedPhotos (photos s)) idx with
  | Some photo =>
      let selected := setActivePhotoId (Some (Types.id photo)) s in
      match activePhotoId s with
      | Some a =>
          if String.eqb a (Types.id photo) then openGalleryAt idx selected
          else selected
      | None => selected
      end
  | None => s
  end.

(** The Archive button, rendered only while there are photos:
    [setIsGalleryOpen(true)]. *)
Definition openArchive (s : State) : State :=
  if (0 <? List.length (photos s))%nat then
    {| photos := photos s; activePhotoId := activePhotoId s;
       isGalleryOpen := true; galleryIndex := galleryIndex s;
       isConverting := isConverting s; revoked := revoked s;
       draws := draws s |}
  else s.

End App.

(* ================================================================== *)
(** * [components/Map.tsx]: the journey playback, inside the session *)
(* ================================================================== *)

Module MapView.
Import JS Types.

(** The delay of [setTimeout(resolve, 3000)]. *)
Definition dwellMs : Z := 3000.

(** A call of [runPlayback] suspended at its [await]: the photos its
    [for] loop has still to visit, and the time its timer resolves. *)
Record Walk : Type := {
  pending : list TrekPhoto;
  wakeAt : Z
}.

(** [App]'s state, the map's [isPlaying] cell and [playbackRef], the
    suspended walks in the order their timers resolve (every timer has
    the same delay, so this is the order they were set), the clock, and
    a log of the playback's [onPhotoSelect] calls with their times. *)
Record Session : Type := {
  app : App.State;
  isPlaying : bool;
  playbackRef : option Z;
  walks : list Walk;
  clock : Z;
  selections : list (Z * string)
}.

Definition initial : Session :=
  {| app := App.initial; isPlaying := false; playbackRef := None;
     walks := []; clock := 0; selections := [] |}.

Definition withApp (f : App.State -> App.State) (s : Session) : Session :=
  {| app := f (app s); isPlaying := isPlaying s;
     playbackRef := playbackRef s; walks := walks s; clock := clock s;
     selections := selections s |}.

Definition withClock (t : Z) (s : Session) : Session :=
  {| app := app s; isPlaying := isPlaying s;
     playbackRef := playbackRef s; walks := walks s; clock := t;
     selections := selections s |}.

(** [setIsPlaying(false)] and, when that changes the cell, the effect
    on [isPlaying]: [playbackRef.current = null]. *)
Definition setIsPlayingFalse (s : Session) : Session :=
  if isPlaying s then
    {| app := app s; isPlaying := false; playbackRef := None;
       walks := walks s; clock := clock s; selections := selections s |}
  else s.

(** [onPhotoSelect?.(p.id); await new Promise(...)] with [rest] left
    to visit afterwards. *)
Definition selectAndWait (p : TrekPhoto) (rest : list TrekPhoto)
           (s : Session) : Session :=
  {| app := App.setActivePhotoId (Some (id p)) (app s);
     isPlaying := isPlaying s;
     playbackRef := playbackRef s;
     walks := walks s ++ [{| pending := rest;
                             wakeAt := (clock s + dwellMs)%Z |}];
     clock := clock s;
     selections := selections s ++ [(clock s, id p)] |}.

(** The [for (const p of validPhotos)] loop from the point where
    [rest] is left, up to its next [await] or to its end. *)
Definition continueWalk (rest : list TrekPhoto) (s : Session) : Session :=
  match rest with
  | [] => setIsPlayingFalse s
  | p :: rest' =>
      match playbackRef s with
      | None => setIsPlayingFalse s
      | Some _ => selectAndWait p rest' s
      end
  end.

(** [runPlayback()], called by the effect once [isPlaying] is true
    (so its own [setIsPlaying(true)] changes nothing). *)
Definition runPlayback (s : Session) : Session :=
  let validPhotos := App.gpsPhotos (App.photos (app s)) in
  if (List.length validPhotos =? 0)%nat then s
  else continueWalk validPhotos s.

(** The Journey / Stop button: [setIsPlaying(!isPlaying)], then the
    effect on [isPlaying]. *)
Definition toggle (s : Session) : Session :=
  if isPlaying s then setIsPlayingFalse s
  else
    runPlayback
      {| app := app s; isPlaying := true; playbackRef := Some 1%Z;
         walks := walks s; clock := clock s; selections := selections s |}.

Inductive Event : Type :=
| ClickJourney (t : Z)
| ClearAll (t : Z) (confirmed : bool)
| SelectPhoto (t : Z) (photoId : string)
| TimerFires.

(** A user event at time [t] can come next when the clock has not
    passed [t] and no pending timer is due before [t]. *)
Definition mayHappenAt (t : Z) (s : Session) : bool :=
  (clock s <=? t)%Z
  && match walks s with
     | [] => true
     | w :: _ => (t <=? wakeAt w)%Z
     end.

Definition step (s : Session) (e : Event) : option Session :=
  match e with
  | ClickJourney t =>
      if mayHappenAt t s then Some (toggle (withClock t s)) else None
  | ClearAll t confirmed =>
      if mayHappenAt t s
      then Some (withApp (App.handleClearAll confirmed) (withClock t s))
      else None
  | SelectPhoto t photoId =>
      if mayHappenAt t s
      then Some (withApp (App.setActivePhotoId (Some photoId))
                         (withClock t s))
      else None
  | TimerFires =>
      match walks s with
      | [] => None
      | w :: ws =>
          Some (continueWalk (pending w)
                  {| app := app s; isPlaying := isPlaying s;
                     playbackRef := playbackRef s; walks := ws;
                     clock := wakeAt w; selections := selections s |})
      end
  end.

Fixpoint run (s : Session) (events : list Event) : option Session :=
  match events with
  | [] => Some s
  | e :: rest =>
      match step s e with
      | Some s' => run s' rest
      | None => None
      end
  end.

End MapView.

(* ================================================================== *)
(** * [components/Gallery.tsx] (second part of [src/components/Map.tsx]) *)
(* ================================================================== *)

Module Gallery.
Import JS Types.

Inductive Direction : Type :=
| prev
| next.

(** [photos[i]] for a number [i]: [undefined] out of range. *)
Definition elementAt (photos : list TrekPhoto) (i : Z) : option TrekPhoto :=
  if (i <? 0)%Z then None else nth_error photos (Z.to_nat i).

(** [const currentPhoto = photos[index]], which the render reads
    [name], [url] and [id] of: a [TypeError] when there is none. *)
Definition currentPhoto (photos : list TrekPhoto) (index : Z)
  : result TrekPhoto :=
  match elementAt photos index with
  | Some p => Ok p
  | None => Throw TypeError
  end.

(** [navigate(dir)]: the new index and the id handed to
    [onPhotoChange]. The remainder by a length of 0 is [NaN], and
    [photos[NaN]] is [undefined]. *)
Definition navigate (dir : Direction) (photos : list TrekPhoto) (index : Z)
  : result (Z * string) :=
  let len := Z.of_nat (List.length photos) in
  if (len =? 0)%Z then Throw TypeError
  else
    let newIdx := match dir with
                  | next => Z.rem (index + 1) len
                  | prev => Z.rem (index - 1 + len) len
                  end in
    match elementAt photos newIdx with
    | Some p => Ok (newIdx, id p)
    | None => Throw TypeError
    end.

(** The gallery mounted by [App]: on [sortedPhotos], at [galleryIndex]. *)
Definition mount (s : App.State) : result TrekPhoto :=
  currentPhoto (App.sortedPhotos (App.photos s))
               (Z.of_nat (App.galleryIndex s)).

End Gallery.

(* ================================================================== *)
(** * [components/ElevationProfile.tsx]
      (first part of [src/components/ElevationProfile.tsx]) *)
(* ================================================================== *)

Module ElevationProfile.
Import JS Types.

(** [p => p.location && p.location.alt !== undefined] *)
Definition hasAltitude (p : TrekPhoto) : bool :=
  match location p with
  | Some l => match alt l with
              | Some _ => true
              | None => false
              end
  | None => false
  end.

(** The [data] of the chart. *)
Definition data (photos : list TrekPhoto) : list TrekPhoto :=
  sort App.byTime (filter hasAltitude photos).

(** [d.location!.alt!], which every member of [data] has; read of a
    photo without one it would be [undefined], in arithmetic [NaN]. *)
Definition altitude (p : TrekPhoto) : number :=
  match location p with
  | Some l => match alt l with
              | Some a => a
              | None => NotANumber
              end
  | None => NotANumber
  end.

Definition width : Q := 340.
Definition height : Q := 80.
Definition padding : Q := 5.

(** A point of the profile. Its [x] is finite, a quotient of counts
    scaled and shifted; its [y] is computed from altitudes. *)
Record Point : Type := {
  x : Q;
  y : number;
  pointId : string
}.

Record Chart : Type := {
  minAlt : number;
  maxAlt : number;
  points : list Point
}.

(** [v || 1] *)
Definition orOne (v : number) : number :=
  if truthyNumber v then v else Finite 1.

(** The callback of [data.map((p, i) => ...)], [n] being [data.length]. *)
Definition pointOf (n : nat) (lowest altRange : number) (i : nat)
           (p : TrekPhoto) : Point :=
  {| x := (inject_Z (Z.of_nat i) / inject_Z (Z.of_nat (n - 1)))
          * (width - 2 * padding) + padding;
     y := subtract
            (subtract (Finite height)
                      (multiply (divide (subtract (altitude p) lowest)
                                        altRange)
                                (Finite (height - 2 * padding))))
            (Finite padding);
     pointId := id p |}.

(** [l.map((p, i) => f(i, p))], counting from [i]. *)
Fixpoint mapFrom {A B : Type} (f : nat -> A -> B) (i : nat) (l : list A)
  : list B :=
  match l with
  | [] => []
  | a :: rest => f i a :: mapFrom f (S i) rest
  end.

(** What the component draws; [None] is [return null]. *)
Definition chart (photos : list TrekPhoto) : option Chart :=
  let d := data photos in
  if (List.length d <? 2)%nat then None
  else
    let lowest := Math_minAll (map altitude d) in
    let highest := Math_maxAll (map altitude d) in
    let altRange := orOne (subtract highest lowest) in
    Some {| minAlt := lowest;
            maxAlt := highest;
            points := mapFrom (pointOf (List.length d) lowest altRange)
                              0 d |}.

(** The point the active point indicator is drawn at, if it is drawn:
    [activePhotoId && points.find(p => p.id === activePhotoId)]. *)
Definition activePoint (c : Chart) (activePhotoId : option string)
  : option Point :=
  match activePhotoId with
  | Some a =>
      if truthyString a
      then find (fun p => String.eqb (pointId p) a) (points c)
      else None
  | None => None
  end.

End ElevationProfile.

(* ================================================================== *)
(** * A concrete host and sample data, for the worked examples *)
(* ================================================================== *)

Module Demo.
Import JS Types.
Local Open Scope Z_scope.

(** ** Calendar arithmetic (proleptic Gregorian, UTC) *)

Definition daysFromCivil (y m d : Z) : Z :=
  let y' := if m <=? 2 then y - 1 else y in
  let era := y' / 400 in
  let yoe := y' - era * 400 in
  let mp := (m + 9) mod 12 in
  let doy := (153 * mp + 2) / 5 + d - 1 in
  let doe := yoe * 365 + yoe / 4 - yoe / 100 + doy in
  era * 146097 + doe - 719468.

(** Year, month and day of a day number. *)
Definition civilFromDays (z : Z) : Z * Z * Z :=
  let z := z + 719468 in
  let era := z / 146097 in
  let doe := z - era * 146097 in
  let yoe := (doe - doe / 1460 + doe / 36524 - doe / 146096) / 365 in
  let doy := doe - (365 * yoe + yoe / 4 - yoe / 100) in
  let mp := (5 * doy + 2) / 153 in
  let d := doy - (153 * mp + 2) / 5 + 1 in
  let m := if mp <? 10 then mp + 3 else mp - 9 in
  let y := yoe + era * 400 + (if m <=? 2 then 1 else 0) in
  (y, m, d).

Definition digitValue (c : ascii) : Z := Z.of_nat (nat_of_ascii c) - 48.

Definition num2 (a b : ascii) : Z := 10 * digitValue a + digitValue b.

Definition num4 (a b c d : ascii) : Z := 100 * num2 a b + num2 c d.

Definition pad (width : nat) (n : Z) : string :=
  let s := digits n in
  (string_of_list_ascii (repeat "0"%char (width - String.length s)) ++ s)%string.

(** Parses [YYYY-MM-DD HH:MM:SS] (read as UTC); anything else, or a
    field out of range, is [NaN]. *)
Definition parse (s : string) : jsint :=
  match s with
  | String y1 (String y2 (String y3 (String y4 (String c1
    (String m1 (String m2 (String c2 (String d1 (String d2 (String c3
    (String h1 (String h2 (String c4 (String i1 (String i2 (String c5
    (String s1 (String s2 EmptyString)))))))))))))))))) =>
      if forallb isDigit [y1; y2; y3; y4; m1; m2; d1; d2; h1; h2; i1; i2; s1; s2]
         && Ascii.eqb c1 "-"%char && Ascii.eqb c2 "-"%char
         && Ascii.eqb c3 " "%char
         && Ascii.eqb c4 ":"%char && Ascii.eqb c5 ":"%char
         && (1 <=? num2 m1 m2) && (num2 m1 m2 <=? 12)
         && (1 <=? num2 d1 d2) && (num2 d1 d2 <=? 31)
         && (num2 h1 h2 <=? 23) && (num2 i1 i2 <=? 59) && (num2 s1 s2 <=? 59)
      then Int ((daysFromCivil (num4 y1 y2 y3 y4) (num2 m1 m2) (num2 d1 d2)
                 * 86400
                 + num2 h1 h2 * 3600 + num2 i1 i2 * 60 + num2 s1 s2) * 1000)
      else NaN
  | _ => NaN
  end.

Definition isoYear (y : Z) : string :=
  if (0 <=? y) && (y <=? 9999) then pad 4 y
  else if y <? 0 then ("-" ++ pad 6 (- y))%string
       else ("+" ++ pad 6 y)%string.

Definition isoDate (ms : Z) : string :=
  let '(y, m, d) := civilFromDays (ms / 86400000) in
  (isoYear y ++ "-" ++ pad 2 m ++ "-" ++ pad 2 d)%string.

Definition isoString (ms : Z) : string :=
  let t := ms mod 86400000 in
  (isoDate ms ++ "T" ++ pad 2 (t / 3600000) ++ ":"
   ++ pad 2 (t / 60000 mod 60) ++ ":" ++ pad 2 (t / 1000 mod 60)
   ++ "." ++ pad 3 (t mod 1000) ++ "Z")%string.

(** The en-US locale date, [M/D/YYYY]. *)
Definition localeDate (ms : Z) : string :=
  let '(y, m, d) := civilFromDays (ms / 86400000) in
  (digits m ++ "/" ++ digits d ++ "/" ++ digits y)%string.

(** The decimal digits of [r / d], at most [fuel] of them, trailing
    zeros left out. *)
Fixpoint fraction (fuel : nat) (r d : Z) : string :=
  match fuel with
  | O => EmptyString
  | S fuel' =>
      if r =? 0 then EmptyString
      else (digits (10 * r / d) ++ fraction fuel' (10 * r mod d) d)%string
  end.

(** A rational with a short decimal expansion, printed as JavaScript
    prints the number. *)
Definition numberString (q : Q) : string :=
  let n := Z.abs (Qnum q) in
  let d := Zpos (Qden q) in
  let sign := if Qnum q <? 0 then "-"%string else EmptyString in
  let point := if n mod d =? 0 then EmptyString else "."%string in
  (sign ++ digits (n / d) ++ point ++ fraction 17 (n mod d) d)%string.

(** ** The host

    A file's [content] stands for its bytes: ["corrupt-exif"] is a file
    [ExifReader] cannot read, ["no-exif"] one without tags,
    ["unreadable"] one [FileReader] fails on, ["bad-heic"] one
    [heic2any] rejects; every other content carries the GPS tags of the
    summit photograph below, with the content as its
    [DateTimeOriginal]. The altitude is described as the imported reader
    describes it, by the text [150 m], and for the content ["sea-level"],
    a picture taken at the new year of 2024 at altitude 0, by [0 m]. The
    callbacks of a batch get past their last [await] in the order of the
    files. *)

Definition noTags : Exif.Tags :=
  {| Exif.GPSLatitude := None; Exif.GPSLongitude := None;
     Exif.GPSAltitude := None; Exif.DateTimeOriginal := None;
     Exif.Make := None; Exif.Model := None; Exif.ExposureTime := None;
     Exif.FNumber := None; Exif.ISOSpeedRatings := None;
     Exif.FocalLength := None; Exif.LensModel := None; Exif.Lens := None |}.

Definition summitTags (dateTimeOriginal : string) (altitude : Description)
  : Exif.Tags :=
  {| Exif.GPSLatitude := Some (10123456 # 1000000)%Q;
     Exif.GPSLongitude := Some (20654321 # 1000000)%Q;
     Exif.GPSAltitude := Some altitude;
     Exif.DateTimeOriginal := Some (Some dateTimeOriginal);
     Exif.Make := Some "Acme"%string; Exif.Model := Some "Trail 1"%string;
     Exif.ExposureTime := None; Exif.FNumber := None;
     Exif.ISOSpeedRatings := None; Exif.FocalLength := None;
     Exif.LensModel := None; Exif.Lens := None |}.

Definition load (f : File.t) : result Exif.Tags :=
  if String.eqb (File.content f) "corrupt-exif"
  then Throw (HostError "Invalid image format")
  else if String.eqb (File.content f) "no-exif" then Ok noTags
  else if String.eqb (File.content f) "sea-level"
  then Ok (summitTags "2024:01:01 00:00:00" (DText "0 m"))
  else Ok (summitTags (File.content f) (DText "150 m")).

Definition transcode (f : File.t) : result BlobOrArray :=
  if String.eqb (File.content f) "bad-heic"
  then Throw (HostError "ERR_LIBHEIF format not supported")
  else Ok (OneBlob {| File.name := File.name f;
                      File.type := "image/jpeg"%string;
                      File.content := File.content f |}).

Definition readAsDataURL (f : File.t) : result (option string) :=
  if String.eqb (File.content f) "unreadable"
  then Throw (HostError "NotReadableError")
  else Ok (Some ("data:" ++ File.type f ++ ";base64," ++ File.content f)%string).

#[export] Instance host : Host :=
  {| ExifReader_load := load;
     heic2any := transcode;
     FileReader_readAsDataURL := readAsDataURL;
     URL_createObjectURL := fun f => ("blob:trektrack/" ++ File.name f)%string;
     Math_random_toString36 :=
       fun k => ("0." ++ pad 9 (Z.of_nat k))%string;
     settledAt := fun _ i => i;
     Date_parse := parse;
     Date_toISOString := isoString;
     Date_toLocaleDateString := localeDate;
     Number_toString := numberString |}.

(** A host whose random source repeats itself. *)
Definition repeatingHost : Host :=
  {| ExifReader_load := load;
     heic2any := transcode;
     FileReader_readAsDataURL := readAsDataURL;
     URL_createObjectURL := fun f => ("blob:trektrack/" ++ File.name f)%string;
     Math_random_toString36 := fun _ => "0.4fzyo82mvyr"%string;
     settledAt := fun _ i => i;
     Date_parse := parse;
     Date_toISOString := isoString;
     Date_toLocaleDateString := localeDate;
     Number_toString := numberString |}.

(** A host on which the callbacks of a batch get past their last
    [await] in the reverse order of the files. *)
Definition lastFirstHost : Host :=
  {| ExifReader_load := load;
     heic2any := transcode;
     FileReader_readAsDataURL := readAsDataURL;
     URL_createObjectURL := fun f => ("blob:trektrack/" ++ File.name f)%string;
     Math_random_toString36 :=
       fun k => ("0." ++ pad 9 (Z.of_nat k))%string;
     settledAt := fun batch i => (List.length batch - i)%nat;
     Date_parse := parse;
     Date_toISOString := isoString;
     Date_toLocaleDateString := localeDate;
     Number_toString := numberString |}.

End Demo.

(* ================================================================== *)
(** * The derived values, as the specification words them *)
(* ================================================================== *)

Module Spec.
Import JS Types.

(** The locations of the geotagged photos of a list, in its order. *)
Fixpoint locations (l : list TrekPhoto) : list GPSLocation :=
  match l with
  | [] => []
  | p :: rest =>
      match location p with
      | Some x => x :: locations rest
      | None => locations rest
      end
  end.

(** The sum, over the consecutive pairs of a path, of the great-circle
    distance between the two. *)
Fixpoint pathLengthKm (path : list GPSLocation) : R :=
  match path with
  | l1 :: ((l2 :: _) as rest) => (App.segmentKm l1 l2 + pathLengthKm rest)%R
  | _ => 0%R
  end.

(** The running maximum of the altitudes of a path, [-Infinity] when no
    waypoint has one. *)
Definition peakOf (path : list GPSLocation) : number :=
  fold_left App.bumpMax path (Infinity true).

(** The minutes between the first and the last waypoint, when both are
    dated. *)
Definition durationOf (path : list GPSLocation) : option jsint :=
  match path with
  | [] => None
  | first :: _ =>
      match timestamp first, timestamp (last path first) with
      | Some t0, Some t1 => Some (App.minutesBetween (getTime t0) (getTime t1))
      | _, _ => None
      end
  end.

(** ** The haversine term *)

(** The [a] of the loop body of [stats]: the square of half the chord
    between the two points on the unit sphere. *)
Definition haversineA (p1 p2 : GPSLocation) : R :=
  ((sin ((Q2R (lat p2) - Q2R (lat p1)) * PI / 180 / 2)) ^ 2
   + cos (Q2R (lat p1) * PI / 180) * cos (Q2R (lat p2) * PI / 180)
     * (sin ((Q2R (lng p2) - Q2R (lng p1)) * PI / 180 / 2)) ^ 2)%R.

(** ** Strings *)

(** Whether the character [c] occurs in [s]. *)
Fixpoint occurs (c : ascii) (s : string) : bool :=
  match s with
  | EmptyString => false
  | String c' s' => Ascii.eqb c' c || occurs c s'
  end.

(** ** The track document *)

(** A track point of the exported document. *)
Record TrackPoint : Type := {
  tpLat : Q;
  tpLon : Q;
  tpEle : option number;
  tpTime : option string;
  tpName : string
}.

Section WithHost.
Context {host : Host}.

(** The track point of a waypoint: its latitude and longitude, an
    elevation when its altitude is present and neither zero nor [NaN],
    a time (in ISO 8601) when it is dated, and its name with every
    ampersand escaped. *)
Definition trackPoint (photoName : string) (l : GPSLocation) : TrackPoint :=
  {| tpLat := lat l;
     tpLon := lng l;
     tpEle := match alt l with
              | Some a => if truthyNumber a then Some a else None
              | None => None
              end;
     tpTime := match timestamp l with
               | Some (ValidDate ms) => Some (Date_toISOString ms)
               | _ => None
               end;
     tpName := escapeAmp photoName |}.

Fixpoint trackPoints (trek : list TrekPhoto) : list TrackPoint :=
  match trek with
  | [] => []
  | p :: rest =>
      match location p with
      | Some l => trackPoint (name p) l :: trackPoints rest
      | None => trackPoints rest
      end
  end.

Definition renderTrackPoint (t : TrackPoint) : string :=
  (App.newline
   ++ "      <trkpt lat=" ++ App.quote ++ Number_toString (tpLat t) ++ App.quote
   ++ " lon=" ++ App.quote ++ Number_toString (tpLon t) ++ App.quote ++ ">"
   ++ App.newline ++ "        "
   ++ match tpEle t with
      | Some a => "<ele>" ++ App.numberText a ++ "</ele>"
      | None => EmptyString
      end
   ++ App.newline ++ "        "
   ++ match tpTime t with
      | Some iso => "<time>" ++ iso ++ "</time>"
      | None => EmptyString
      end
   ++ App.newline ++ "        <name>" ++ tpName t ++ "</name>"
   ++ App.newline ++ "      </trkpt>")%string.

Definition joinAll (l : list string) : string :=
  fold_right String.append EmptyString l.

(** The document for a trek, exported at clock reading [now]. *)
Definition document (now : Z) (trek : list TrekPhoto) : App.Download :=
  {| App.filename :=
       ("trek_route_" ++ beforeChar "T"%char (Date_toISOString now)
        ++ ".gpx")%string;
     App.mime := "application/gpx+xml"%string;
     App.content :=
       (App.gpxHeader now
        ++ joinAll (map renderTrackPoint (trackPoints trek))
        ++ App.gpxFooter)%string |}.

End WithHost.

(** A photo whose timestamp, if any, is a valid date. *)
Definition wellDated (p : TrekPhoto) : Prop := App.timeOf p <> Some NaN.

(** The same photo, its altitude taken away. *)
Definition withoutAltitude (p : TrekPhoto) : TrekPhoto :=
  {| id := id p; name := name p; url := url p; base64 := base64 p;
     location :=
       option_map
         (fun l => {| lat := lat l; lng := lng l; alt := None;
                      timestamp := timestamp l |})
         (location p);
     camera := camera p; mimeType := mimeType p |}.

(** ** Ingestion outcomes *)

Section WithHost.
Context {host : Host}.

(** Metadata extraction fails on a file: [ExifReader] cannot read it. *)
Definition extractionFails (file : File.t) : bool :=
  match ExifReader_load file with
  | Throw _ => true
  | Ok _ => false
  end.

(** Transcoding or encoding fails on a file: [heic2any] rejects a HEIC
    file or resolves to no blob at all, or the reader fails on the blob
    to encode. *)
Definition assetFails (file : File.t) : bool :=
  match (if App.isHeic file then heic2any file else Ok (OneBlob file)) with
  | Throw _ => true
  | Ok displayBlob =>
      match App.finalBlobOf displayBlob with
      | None => true
      | Some blob =>
          match FileReader_readAsDataURL blob with
          | Throw _ => true
          | Ok _ => false
          end
      end
  end.

(** What a photo is apart from its id. *)
Definition apartFromId (p : TrekPhoto)
  : string * string * string * option GPSLocation * option CameraMetadata
    * string :=
  (name p, url p, base64 p, location p, camera p, mimeType p).

(** The photo the callback of a file makes, if it makes one; its id is
    that of the first draw. *)
Definition photoOf (file : File.t) : option TrekPhoto :=
  match App.processFile file 0 with
  | Ok r => r
  | Throw _ => None
  end.

(** The id made from the k-th [Math.random()] draw of the session. *)
Definition idOfDraw (k : nat) : string :=
  substring 2 9 (Math_random_toString36 k).

(** One operation on the collection. *)
Inductive operation : App.State -> App.State -> Prop :=
| op_ingest (s : App.State) (files : list File.t) :
    operation s (App.ingest files s)
| op_remove (s : App.State) (photoId : string) :
    operation s (App.deletePhoto photoId s)
| op_clear (s : App.State) (confirmed : bool) :
    operation s (App.handleClearAll confirmed s)
| op_select (s : App.State) (v : option string) :
    operation s (App.setActivePhotoId v s).

(** The states of the collection a session can be in. *)
Inductive reachable : App.State -> Prop :=
| reach_initial : reachable App.initial
| reach_step (s s' : App.State) :
    reachable s -> operation s s' -> reachable s'.

(** The ids of the collection are those of distinct draws made so far. *)
Definition drawn (s : App.State) : Prop :=
  exists ks, map id (App.photos s) = map idOfDraw ks
             /\ NoDup ks
             /\ Forall (fun k => (k < App.draws s)%nat) ks.

End WithHost.

(** ** Playback *)

(** The selections of an undisturbed walk over [trek] begun at time [t]:
    one waypoint every dwell time. *)
Fixpoint schedule (t : Z) (trek : list TrekPhoto) : list (Z * string) :=
  match trek with
  | [] => []
  | p :: rest => (t, id p) :: schedule (t + MapView.dwellMs) rest
  end.

(** The pending timers are in the order they resolve; none is overdue
    and none is due later than one dwell time from now. *)
Definition timersInOrder (s : MapView.Session) : Prop :=
  StronglySorted Z.le (map MapView.wakeAt (MapView.walks s))
  /\ Forall (fun w => (MapView.clock s <= MapView.wakeAt w
                       <= MapView.clock s + MapView.dwellMs)%Z)
            (MapView.walks s).

End Spec.

(* ================================================================== *)
(** * Sample photographs *)
(* ================================================================== *)

Module Samples.
Import JS Types.

Definition photoAt (photoId : string) (l : option GPSLocation) : TrekPhoto :=
  {| id := photoId; name := (photoId ++ ".jpg")%string;
     url := ("blob:trektrack/" ++ photoId)%string; base64 := EmptyString;
     location := l; camera := None; mimeType := "image/jpeg"%string |}.

(** Geotagged, but without a [DateTimeOriginal]. *)
Definition undated : TrekPhoto :=
  photoAt "undated"
    (Some {| lat := 46%Q; lng := 7%Q; alt := None; timestamp := None |}).

(** Dated 1969-07-20 20:17:40 UTC, before the epoch. *)
Definition apollo : TrekPhoto :=
  photoAt "apollo"
    (Some {| lat := 28%Q; lng := (-80)%Q; alt := None;
             timestamp := Some (ValidDate (-14182940000)) |}).

(** On the equator, at the prime meridian and one degree east of it. *)
Definition at00 : GPSLocation :=
  {| lat := 0%Q; lng := 0%Q; alt := None; timestamp := None |}.

Definition at01 : GPSLocation :=
  {| lat := 0%Q; lng := 1%Q; alt := None; timestamp := None |}.

Definition origin : TrekPhoto := photoAt "origin" (Some at00).

Definition oneDegreeEast : TrekPhoto := photoAt "east" (Some at01).

(** Without GPS tags. *)
Definition indoors : TrekPhoto := photoAt "indoors" None.

(** The waypoint of the export example: at a finite altitude, 150, which
    extraction gives only for an altitude described by a number; taken
    at 2024-01-01T00:00:00Z. *)
Definition summit : TrekPhoto :=
  photoAt "summit"
    (Some {| lat := (10123456 # 1000000)%Q; lng := (20654321 # 1000000)%Q;
             alt := Some (Finite 150);
             timestamp := Some (ValidDate 1704067200000) |}).

(** ** Sample files for the host [Demo.host] *)

Definition jpeg (fileName content : string) : File.t :=
  {| File.name := fileName; File.type := "image/jpeg"%string;
     File.content := content |}.

(** Taken at 2024-01-01 00:00:00, with GPS tags. *)
Definition newYear : File.t := jpeg "newyear.jpg" "2024:01:01 00:00:00".

(** From a camera whose clock was never set. *)
Definition unsetClock : File.t := jpeg "unset.jpg" "0000:00:00 00:00:00".

(** With a GPS altitude of exactly 0, described by the text [0 m]. *)
Definition beach : File.t := jpeg "beach.jpg" "sea-level".

(** A picture whose EXIF segment cannot be read. *)
Definition corruptExif : File.t := jpeg "scan.jpg" "corrupt-exif".

(** A file the reader fails on. *)
Definition unreadable : File.t := jpeg "gone.jpg" "unreadable".

(** A HEIC picture the transcoder rejects. *)
Definition badHeic : File.t :=
  {| File.name := "IMG_0001.HEIC"%string; File.type := EmptyString;
     File.content := "bad-heic"%string |}.

(** ** Sample sessions *)

(** A session holding [photos], nothing selected, playback idle. *)
Definition sessionWith (photos : list TrekPhoto) : MapView.Session :=
  {| MapView.app :=
       {| App.photos := photos; App.activePhotoId := None;
          App.isGalleryOpen := false; App.galleryIndex := 0;
          App.isConverting := false; App.revoked := []; App.draws := 0 |};
     MapView.isPlaying := false; MapView.playbackRef := None;
     MapView.walks := []; MapView.clock := 0; MapView.selections := [] |}.

(** Three waypoints; in time order: origin, east, summit. *)
Definition threeStops : list TrekPhoto := [summit; origin; oneDegreeEast].

End Samples.

(* ================================================================== *)
(** * Properties *)
(* ================================================================== *)

Unset Implicit Arguments.

(** ** The stable sort *)

Section SortFacts.
Variable A : Type.
Variable key : A -> Z.

Let cmp (a b : A) : Z := (key a - key b)%Z.
Let le (a b : A) : Prop := (key a <= key b)%Z.

Lemma insert_perm (x : A) (l : list A) :
  Permutation (JS.insert cmp x l) (x :: l).
Proof.
  induction l as [|y l IH]; simpl.
  - apply Permutation_refl.
  - destruct (cmp x y <=? 0)%Z.
    + apply Permutation_refl.
    + apply perm_trans with (y :: x :: l).
      * apply perm_skip, IH.
      * apply perm_swap.
Qed.

Lemma sort_perm (l : list A) : Permutation (JS.sort cmp l) l.
Proof.
  induction l as [|x l IH]; simpl.
  - apply perm_nil.
  - apply perm_trans with (x :: JS.sort cmp l).
    + apply insert_perm.
    + apply perm_skip, IH.
Qed.

Lemma sort_length (l : list A) : List.length (JS.sort cmp l) = List.length l.
Proof. apply Permutation_length, sort_perm. Qed.

Lemma insert_sorted (x : A) (l : list A) :
  StronglySorted le l -> StronglySorted le (JS.insert cmp x l).
Proof.
  induction 1 as [|y l Hl IH Hy]; simpl.
  - constructor; constructor.
  - destruct (Z.leb_spec (cmp x y) 0) as [Hc|Hc]; unfold cmp in Hc.
    + constructor.
      * constructor; assumption.
      * constructor.
        -- unfold le; lia.
        -- eapply Forall_impl; [|exact Hy].
           unfold le; intros z Hz; lia.
    + constructor.
      * exact IH.
      * apply (Permutation_Forall (Permutation_sym (insert_perm x l))).
        constructor; [unfold le; lia | exact Hy].
Qed.

Lemma sort_sorted (l : list A) : StronglySorted le (JS.sort cmp l).
Proof.
  induction l as [|x l IH]; simpl.
  - constructor.
  - apply insert_sorted, IH.
Qed.

(** An element is inserted in front of the elements of its own key:
    only strictly smaller keys are passed over. *)
Lemma filter_key_insert (k : Z) (x : A) (l : list A) :
  filter (fun y => (key y =? k)%Z) (JS.insert cmp x l)
  = filter (fun y => (key y =? k)%Z) (x :: l).
Proof.
  induction l as [|y l IH]; [reflexivity|].
  cbn [JS.insert].
  destruct (Z.leb_spec (cmp x y) 0) as [Hc|Hc]; [reflexivity|].
  unfold cmp in Hc.
  cbn [filter] in *. rewrite IH.
  destruct (Z.eqb_spec (key x) k), (Z.eqb_spec (key y) k);
    try reflexivity; lia.
Qed.

(** Stability: the photos of each key keep their relative order. *)
Lemma sort_stable (k : Z) (l : list A) :
  filter (fun y => (key y =? k)%Z) (JS.sort cmp l)
  = filter (fun y => (key y =? k)%Z) l.
Proof.
  induction l as [|x l IH]; [reflexivity|].
  cbn [JS.sort fold_right].
  rewrite filter_key_insert. cbn [filter].
  unfold JS.sort in IH. rewrite IH. reflexivity.
Qed.

(** A sorted list with the same elements of each key, in the same
    order, is the same list: sortedness and stability determine the
    outcome of a sort. *)
Lemma sorted_stable_unique (l1 l2 : list A) :
  StronglySorted le l1 -> StronglySorted le l2 ->
  (forall k, filter (fun y => (key y =? k)%Z) l1
             = filter (fun y => (key y =? k)%Z) l2) ->
  l1 = l2.
Proof.
  intros H1; revert l2.
  induction H1 as [|x l1 Hs1 IH Hx]; intros l2 H2 Heq.
  - destruct l2 as [|y l2]; [reflexivity|].
    specialize (Heq (key y)). cbn [filter] in Heq.
    rewrite Z.eqb_refl in Heq. discriminate.
  - destruct H2 as [|y l2 Hs2 Hy].
    + specialize (Heq (key x)). cbn [filter] in Heq.
      rewrite Z.eqb_refl in Heq. discriminate.
    + assert (Hxy : key x = key y).
      { assert (Hle1 : (key x <= key y)%Z).
        { pose proof (Heq (key y)) as E. cbn [filter] in E.
          rewrite (Z.eqb_refl (key y)) in E.
          assert (Hin : In y (filter (fun z => (key z =? key y)%Z) (x :: l1))).
          { cbn [filter]. rewrite E. left; reflexivity. }
          apply filter_In in Hin. destruct Hin as [[->|Hin] _]; [lia|].
          rewrite Forall_forall in Hx. apply (Hx _ Hin). }
        assert (Hle2 : (key y <= key x)%Z).
        { pose proof (Heq (key x)) as E. cbn [filter] in E.
          rewrite (Z.eqb_refl (key x)) in E.
          assert (Hin : In x (filter (fun z => (key z =? key x)%Z) (y :: l2))).
          { cbn [filter]. rewrite <- E. left; reflexivity. }
          apply filter_In in Hin. destruct Hin as [[->|Hin] _]; [lia|].
          rewrite Forall_forall in Hy. apply (Hy _ Hin). }
        lia. }
      pose proof (Heq (key x)) as E. cbn [filter] in E.
      rewrite Z.eqb_refl in E. rewrite Hxy, Z.eqb_refl in E.
      injection E as Ex Etl. subst y.
      f_equal. apply IH; [exact Hs2|].
      intros k. specialize (Heq k). cbn [filter] in Heq.
      destruct (key x =? k)%Z; [injection Heq; auto | exact Heq].
Qed.

Lemma sort_unique (l l' : list A) :
  StronglySorted le l' ->
  (forall k, filter (fun y => (key y =? k)%Z) l'
             = filter (fun y => (key y =? k)%Z) l) ->
  l' = JS.sort cmp l.
Proof.
  intros Hs Hst. apply sorted_stable_unique.
  - exact Hs.
  - apply sort_sorted.
  - intros k. rewrite sort_stable. apply Hst.
Qed.

Lemma filter_sorted (P : A -> bool) (l : list A) :
  StronglySorted le l -> StronglySorted le (filter P l).
Proof.
  induction 1 as [|x l Hs IH Hx]; cbn [filter].
  - constructor.
  - destruct (P x); [|exact IH].
    constructor; [exact IH|].
    rewrite Forall_forall in *. intros z Hz.
    apply filter_In in Hz. apply Hx, Hz.
Qed.

Lemma filter_filter_comm (P Q : A -> bool) (l : list A) :
  filter P (filter Q l) = filter Q (filter P l).
Proof.
  induction l as [|x l IH]; [reflexivity|].
  cbn [filter].
  destruct (P x) eqn:HP, (Q x) eqn:HQ; cbn [filter];
    rewrite ?HP, ?HQ, IH; reflexivity.
Qed.

(** Sorting and then filtering is filtering and then sorting. *)
Lemma filter_sort (P : A -> bool) (l : list A) :
  filter P (JS.sort cmp l) = JS.sort cmp (filter P l).
Proof.
  apply sort_unique.
  - apply filter_sorted, sort_sorted.
  - intros k.
    rewrite filter_filter_comm, sort_stable. apply filter_filter_comm.
Qed.

(** A sorted list splits around any key [k]. *)
Lemma sorted_split (k : Z) (l : list A) :
  StronglySorted le l ->
  l = filter (fun y => (key y <? k)%Z) l
      ++ filter (fun y => (key y =? k)%Z) l
      ++ filter (fun y => (k <? key y)%Z) l.
Proof.
  induction 1 as [|x l Hs IH Hx]; [reflexivity|].
  cbn [filter].
  destruct (Z.ltb_spec (key x) k) as [Hlt|Hge].
  - replace (key x =? k)%Z with false by (symmetry; apply Z.eqb_neq; lia).
    replace (k <? key x)%Z with false by (symmetry; apply Z.ltb_ge; lia).
    cbn [app]. f_equal. exact IH.
  - assert (Hnone : filter (fun y => (key y <? k)%Z) l = []).
    { clear IH. induction l as [|z l IHl]; [reflexivity|].
      inversion Hx as [|? ? Hz Hl]; subst. inversion Hs; subst.
      cbn [filter].
      replace (key z <? k)%Z with false
        by (symmetry; apply Z.ltb_ge; unfold le in Hz; lia).
      auto. }
    rewrite Hnone in *. cbn [app] in *.
    destruct (Z.eqb_spec (key x) k) as [He|Hne].
    + replace (k <? key x)%Z with false by (symmetry; apply Z.ltb_ge; lia).
      cbn [app]. f_equal.
      assert (Hnolt : forall z, In z l -> (k <= key z)%Z).
      { rewrite Forall_forall in Hx. intros z Hz.
        specialize (Hx z Hz). unfold le in Hx. lia. }
      exact IH.
    + replace (k <? key x)%Z with true by (symmetry; apply Z.ltb_lt; lia).
      assert (Hnoeq : filter (fun y => (key y =? k)%Z) l = []).
      { clear IH Hnone. induction l as [|z l IHl]; [reflexivity|].
        inversion Hx as [|? ? Hz Hl]; subst. inversion Hs; subst.
        cbn [filter].
        replace (key z =? k)%Z with false
          by (symmetry; apply Z.eqb_neq; unfold le in Hz; lia).
        auto. }
      rewrite Hnoeq in *. cbn [app] in *. f_equal. exact IH.
Qed.

End SortFacts.

(** ** The time-ordered trek *)

Lemma gpsPhotos_sorted (photos : list Types.TrekPhoto) :
  StronglySorted (fun a b => (App.timeKey a <= App.timeKey b)%Z)
                 (App.gpsPhotos photos).
Proof. exact (sort_sorted _ App.timeKey _). Qed.

Lemma gpsPhotos_perm (photos : list Types.TrekPhoto) :
  Permutation (App.gpsPhotos photos) (filter App.hasLocation photos).
Proof. exact (sort_perm _ App.timeKey _). Qed.

Lemma gpsPhotos_length (photos : list Types.TrekPhoto) :
  List.length (App.gpsPhotos photos)
  = List.length (filter App.hasLocation photos).
Proof. apply Permutation_length, gpsPhotos_perm. Qed.

Lemma gpsPhotos_located (photos : list Types.TrekPhoto) :
  Forall (fun p => App.hasLocation p = true) (App.gpsPhotos photos).
Proof.
  apply (Permutation_Forall (Permutation_sym (gpsPhotos_perm photos))).
  rewrite Forall_forall. intros p Hp. apply filter_In in Hp. apply Hp.
Qed.

(** The export's order (sort everything, then keep the geotagged) is the
    trek's order (keep the geotagged, then sort). *)
Lemma sortedPhotos_located (photos : list Types.TrekPhoto) :
  filter App.hasLocation (App.sortedPhotos photos) = App.gpsPhotos photos.
Proof. exact (filter_sort _ App.timeKey App.hasLocation photos). Qed.

(** A photo without a timestamp, with an Invalid Date or dated at the
    epoch is ordered by key 0; any other by its time value. *)
Lemma timeKey_cases (p : Types.TrekPhoto) :
  (App.timeOf p = None -> App.timeKey p = 0%Z)
  /\ (App.timeOf p = Some JS.NaN -> App.timeKey p = 0%Z)
  /\ (forall ms, App.timeOf p = Some (JS.Int ms) -> App.timeKey p = ms).
Proof.
  unfold App.timeKey.
  repeat split; intros; match goal with H : _ = _ |- _ => rewrite H end;
    reflexivity.
Qed.

(** C1, the claim as stated fails: an undated photo is ordered as if
    taken at the epoch, which is after, not before, a photo dated before
    1970. Here the undated photo comes first in the collection and last
    in the trek. *)
Lemma undated_not_first :
  App.timeOf Samples.undated = None
  /\ App.timeOf Samples.apollo = Some (JS.Int (-14182940000))
  /\ App.gpsPhotos [Samples.undated; Samples.apollo]
     = [Samples.apollo; Samples.undated].
Proof. split; [reflexivity | split; reflexivity]. Qed.

(** C1, amended: the time-ordered trek is exactly the geotagged photos
    (a rearrangement of the photos with a location), in ascending order
    of the sort key, the photos of one key in the order of the
    collection (stability); the key of a photo without a timestamp is 0,
    the epoch, so the undated photos stand, in collection order, after
    every photo dated before the epoch and before every photo dated
    after it. The geotagged part of the sorted list of all photos, which
    the export and the gallery go by, is the same trek. *)
Theorem gpsPhotos_time_ordered (photos : list Types.TrekPhoto) :
  let trek := App.gpsPhotos photos in
  let geotagged := filter App.hasLocation photos in
  Permutation trek geotagged
  /\ (forall p, In p trek <-> In p photos /\ Types.location p <> None)
  /\ StronglySorted (fun a b => (App.timeKey a <= App.timeKey b)%Z) trek
  /\ (forall k, filter (fun p => (App.timeKey p =? k)%Z) trek
                = filter (fun p => (App.timeKey p =? k)%Z) geotagged)
  /\ (forall p, App.timeOf p = None -> App.timeKey p = 0%Z)
  /\ trek = filter (fun p => (App.timeKey p <? 0)%Z) trek
            ++ filter (fun p => (App.timeKey p =? 0)%Z) geotagged
            ++ filter (fun p => (0 <? App.timeKey p)%Z) trek
  /\ filter App.hasLocation (App.sortedPhotos photos) = trek.
Proof.
  intros trek geotagged.
  assert (Hperm : Permutation trek geotagged) by apply gpsPhotos_perm.
  assert (Hsorted : StronglySorted
                      (fun a b => (App.timeKey a <= App.timeKey b)%Z) trek)
    by apply gpsPhotos_sorted.
  assert (Hstable : forall k,
             filter (fun p => (App.timeKey p =? k)%Z) trek
             = filter (fun p => (App.timeKey p =? k)%Z) geotagged)
    by (intros k; exact (sort_stable _ App.timeKey k geotagged)).
  split; [exact Hperm|].
  split.
  { intros p. split.
    - intros Hin. apply (Permutation_in _ Hperm) in Hin.
      apply filter_In in Hin. destruct Hin as [Hin Hloc].
      split; [exact Hin|]. unfold App.hasLocation in Hloc.
      destruct (Types.location p); [discriminate | discriminate].
    - intros [Hin Hloc].
      apply (Permutation_in _ (Permutation_sym Hperm)).
      apply filter_In. split; [exact Hin|]. unfold App.hasLocation.
      destruct (Types.location p); [reflexivity | contradiction]. }
  split; [exact Hsorted|].
  split; [exact Hstable|].
  split; [intros p; apply timeKey_cases|].
  split; [|apply sortedPhotos_located].
  rewrite <- (Hstable 0%Z).
  exact (sorted_split _ App.timeKey 0 _ Hsorted).
Qed.

(** ** Statistics *)

Lemma locations_located (l : list Types.TrekPhoto) :
  Forall (fun p => App.hasLocation p = true) l ->
  List.length (Spec.locations l) = List.length l.
Proof.
  induction 1 as [|p l Hp _ IH]; [reflexivity|].
  cbn [Spec.locations]. unfold App.hasLocation in Hp.
  destruct (Types.location p); [|discriminate].
  cbn [List.length]. rewrite IH. reflexivity.
Qed.

Lemma locations_app (l1 l2 : list Types.TrekPhoto) :
  Spec.locations (l1 ++ l2) = Spec.locations l1 ++ Spec.locations l2.
Proof.
  induction l1 as [|p l1 IH]; [reflexivity|].
  cbn [app Spec.locations]. destruct (Types.location p); rewrite IH; reflexivity.
Qed.

Lemma locationAt_middle (pre rest : list Types.TrekPhoto)
      (p : Types.TrekPhoto) (x : Types.GPSLocation) :
  Types.location p = Some x ->
  App.locationAt (pre ++ p :: rest) (List.length pre) = JS.Ok x.
Proof.
  intros Hx. unfold App.locationAt.
  rewrite nth_error_app2 by lia. rewrite Nat.sub_diag. cbn [nth_error].
  rewrite Hx. reflexivity.
Qed.

(** The loop, started at the head of [suffix] with as many iterations
    as [suffix] has consecutive pairs, adds the length of [suffix] to
    [dist] and folds the altitudes of all but the last into [maxA]; it
    reads no index out of range. *)
Lemma statsLoop_spec (suffix pre : list Types.TrekPhoto) (dist : R)
      (maxA : JS.number) :
  Forall (fun p => App.hasLocation p = true) suffix ->
  suffix <> [] ->
  App.statsLoop (pre ++ suffix) (List.length suffix - 1) (List.length pre)
                dist maxA
  = JS.Ok ((dist + Spec.pathLengthKm (Spec.locations suffix))%R,
           fold_left App.bumpMax (removelast (Spec.locations suffix)) maxA).
Proof.
  revert pre dist maxA.
  induction suffix as [|p1 suffix IH]; intros pre dist maxA Hall Hne;
    [contradiction|].
  inversion Hall as [|? ? Hp1 Hrest]; subst.
  unfold App.hasLocation in Hp1.
  destruct (Types.location p1) as [x1|] eqn:Hx1; [|discriminate].
  destruct suffix as [|p2 suffix].
  - cbn [List.length Nat.sub App.statsLoop Spec.locations].
    rewrite Hx1. cbn [Spec.locations Spec.pathLengthKm removelast fold_left].
    f_equal. f_equal. ring.
  - inversion Hrest as [|? ? Hp2 _]; subst.
    unfold App.hasLocation in Hp2.
    destruct (Types.location p2) as [x2|] eqn:Hx2; [|discriminate].
    replace (List.length (p1 :: p2 :: suffix) - 1)%nat
      with (S (List.length (p2 :: suffix) - 1)) by (cbn [List.length]; lia).
    cbn [App.statsLoop].
    rewrite (locationAt_middle pre (p2 :: suffix) p1 x1 Hx1). cbn [JS.bind].
    replace (pre ++ p1 :: p2 :: suffix) with ((pre ++ [p1]) ++ p2 :: suffix)
      by (rewrite <- app_assoc; reflexivity).
    replace (List.length pre + 1)%nat with (List.length (pre ++ [p1]))
      by (rewrite length_app; reflexivity).
    rewrite (locationAt_middle (pre ++ [p1]) suffix p2 x2 Hx2). cbn [JS.bind].
    replace (S (List.length pre)) with (List.length (pre ++ [p1]))
      by (rewrite length_app; cbn [List.length]; lia).
    rewrite (IH (pre ++ [p1])); [|exact Hrest|discriminate].
    cbn [Spec.locations]. rewrite Hx1, Hx2.
    change (removelast (x1 :: x2 :: Spec.locations suffix))
      with (x1 :: removelast (x2 :: Spec.locations suffix)).
    cbn [Spec.pathLengthKm fold_left].
    f_equal. f_equal. ring.
Qed.

Lemma timestampAt_middle (pre rest : list Types.TrekPhoto)
      (p : Types.TrekPhoto) (x : Types.GPSLocation) :
  Types.location p = Some x ->
  App.timestampAt (pre ++ p :: rest) (List.length pre)
  = JS.Ok (Types.timestamp x).
Proof.
  intros Hx. unfold App.timestampAt.
  rewrite nth_error_app2 by lia. rewrite Nat.sub_diag. cbn [nth_error].
  rewrite Hx. reflexivity.
Qed.

(** What [stats] returns, in terms of the path of the time-ordered trek:
    it never throws, it is [null] below two waypoints, and otherwise it
    carries the path's length printed with two decimals, its rounded peak
    altitude and its duration. *)
Lemma stats_value (photos : list Types.TrekPhoto) :
  App.stats photos
  = if (List.length (App.gpsPhotos photos) <? 2)%nat then JS.Ok None
    else
      let path := Spec.locations (App.gpsPhotos photos) in
      JS.Ok (Some {| App.distance := JS.toFixed2 (Spec.pathLengthKm path);
                     App.maxAlt :=
                       if JS.sameNumber (Spec.peakOf path) (JS.Infinity true)
                       then None
                       else Some (JS.Math_roundNumber (Spec.peakOf path));
                     App.duration := Spec.durationOf path |}).
Proof.
  unfold App.stats.
  pose proof (gpsPhotos_located photos) as Hall.
  set (gps := App.gpsPhotos photos) in *.
  destruct (Nat.ltb_spec (List.length gps) 2) as [Hlt|Hge]; [reflexivity|].
  assert (Hne : gps <> []) by (destruct gps; [cbn in Hge; lia | discriminate]).
  pose proof (statsLoop_spec gps [] 0%R (JS.Infinity true) Hall Hne) as Hloop.
  change ([] ++ gps) with gps in Hloop.
  change (List.length (@nil Types.TrekPhoto)) with 0%nat in Hloop.
  rewrite Hloop. cbn [JS.bind].
  destruct (exists_last Hne) as (init & pl & Hgps).
  assert (Hpl : App.hasLocation pl = true).
  { rewrite Forall_forall in Hall. apply Hall. rewrite Hgps.
    apply in_or_app. right. left. reflexivity. }
  unfold App.hasLocation in Hpl.
  destruct (Types.location pl) as [xl|] eqn:Hxl; [|discriminate].
  assert (Hlen : (List.length gps - 1)%nat = List.length init).
  { rewrite Hgps, length_app. cbn [List.length]. lia. }
  rewrite Hlen.
  assert (Hpath : Spec.locations gps = Spec.locations init ++ [xl]).
  { rewrite Hgps, locations_app. cbn [Spec.locations]. rewrite Hxl.
    reflexivity. }
  pose proof (locationAt_middle init [] pl xl Hxl) as Hlast.
  pose proof (timestampAt_middle init [] pl xl Hxl) as Hfinal.
  rewrite <- Hgps in Hlast, Hfinal.
  rewrite Hlast. cbn [JS.bind].
  destruct gps as [|p0 gps']; [contradiction|].
  inversion Hall as [|? ? Hp0 _]; subst.
  unfold App.hasLocation in Hp0.
  destruct (Types.location p0) as [x0|] eqn:Hx0; [|discriminate].
  pose proof (timestampAt_middle [] gps' p0 x0 Hx0) as Hfirst.
  cbn [app List.length] in Hfirst.
  rewrite Hfirst. cbn [JS.bind].
  rewrite Hfinal. cbn [JS.bind].
  cbv zeta. unfold Spec.peakOf, Spec.durationOf.
  rewrite Hpath. rewrite removelast_last, fold_left_app. cbn [fold_left].
  rewrite Rplus_0_l.
  assert (Hhead : exists tl, Spec.locations init ++ [xl] = x0 :: tl).
  { rewrite <- Hpath. cbn [Spec.locations]. rewrite Hx0. eexists; reflexivity. }
  destruct Hhead as [tl Htl].
  assert (Hend : last (Spec.locations init ++ [xl]) x0 = xl)
    by apply last_last.
  rewrite Htl in *. rewrite Hend. reflexivity.
Qed.

(** C2: the statistics are absent ([null], not a record of zeros)
    exactly when fewer than two photos are geotagged, and are present,
    computed without any exception, whenever at least two are. *)
Theorem stats_absent_iff (photos : list Types.TrekPhoto) :
  let geotagged := List.length (filter App.hasLocation photos) in
  (App.stats photos = JS.Ok None <-> (geotagged = 0 \/ geotagged = 1)%nat)
  /\ ((exists st, App.stats photos = JS.Ok (Some st)) <-> (2 <= geotagged)%nat).
Proof.
  intros geotagged. subst geotagged.
  rewrite stats_value, <- gpsPhotos_length.
  destruct (Nat.ltb_spec (List.length (App.gpsPhotos photos)) 2) as [Hlt|Hge].
  - split; split.
    + intros _. lia.
    + reflexivity.
    + intros [st Hst]. discriminate.
    + lia.
  - split; split.
    + intros H. discriminate.
    + lia.
    + intros _. exact Hge.
    + intros _. eexists. reflexivity.
Qed.

(** ** The great-circle distance *)

Lemma PI_bounds : (3.14159265 < PI < 3.14159266)%R.
Proof.
  pose proof (PI_2_3_7_ineq 4) as [Hlo Hhi].
  unfold sum_f_R0, tg_alt, PI_2_3_7_tg, Ratan_seq in Hlo, Hhi.
  simpl in Hlo, Hhi.
  split; lra.
Qed.

Lemma atan2_sin_cos (h : R) :
  (- (PI / 2) < h < PI / 2)%R -> JS.Math_atan2 (sin h) (cos h) = h.
Proof.
  intros [Hlo Hhi].
  assert (Hcos : (0 < cos h)%R) by (apply cos_gt_0; lra).
  unfold JS.Math_atan2.
  destruct (Rlt_dec 0 (cos h)) as [_|Hn]; [|contradiction].
  change (sin h / cos h)%R with (tan h).
  apply atan_tan. split; assumption.
Qed.

(** Along the equator the haversine formula gives the arc: radius times
    the difference of longitude in radians. *)
Lemma segmentKm_equator (p1 p2 : Types.GPSLocation) :
  Q2R (Types.lat p1) = 0%R -> Q2R (Types.lat p2) = 0%R ->
  (0 <= Q2R (Types.lng p2) - Q2R (Types.lng p1) < 180)%R ->
  App.segmentKm p1 p2
  = (6371 * ((Q2R (Types.lng p2) - Q2R (Types.lng p1)) * PI / 180))%R.
Proof.
  intros H1 H2 Hd. unfold App.segmentKm. rewrite H1, H2.
  pose proof PI_bounds as [Hpl Hpu].
  set (d := (Q2R (Types.lng p2) - Q2R (Types.lng p1))%R) in *.
  set (h := (d * PI / 180 / 2)%R).
  assert (Hh : (0 <= h < PI / 2)%R).
  { unfold h. split.
    - apply Rmult_le_pos; [|lra]. apply Rmult_le_pos; [|lra].
      apply Rmult_le_pos; lra.
    - apply Rmult_lt_reg_r with (360 / PI)%R.
      + apply Rdiv_lt_0_compat; lra.
      + replace (d * PI / 180 / 2 * (360 / PI))%R with d by (field; lra).
        replace (PI / 2 * (360 / PI))%R with 180%R by (field; lra).
        lra. }
  replace ((0 - 0) * PI / 180 / 2)%R with 0%R by lra.
  replace (0 * PI / 180)%R with 0%R by lra.
  rewrite sin_0, cos_0.
  replace (0 ^ 2 + 1 * 1 * sin h ^ 2)%R with (sin h ^ 2)%R by ring.
  assert (Hsin : (0 <= sin h)%R) by (apply sin_ge_0; lra).
  assert (Hcos : (0 < cos h)%R) by (apply cos_gt_0; lra).
  replace (1 - sin h ^ 2)%R with (cos h ^ 2)%R
    by (pose proof (sin2_cos2 h) as E; unfold Rsqr in E; lra).
  rewrite !sqrt_pow2 by lra.
  rewrite atan2_sin_cos by lra.
  unfold h. field.
Qed.

(** Two points with the same coordinates are 0 km apart. *)
Lemma segmentKm_same_place (p1 p2 : Types.GPSLocation) :
  Q2R (Types.lat p1) = Q2R (Types.lat p2) ->
  Q2R (Types.lng p1) = Q2R (Types.lng p2) ->
  App.segmentKm p1 p2 = 0%R.
Proof.
  intros Hlat Hlng. unfold App.segmentKm. rewrite Hlat, Hlng.
  replace ((Q2R (Types.lat p2) - Q2R (Types.lat p2)) * PI / 180 / 2)%R
    with 0%R by lra.
  replace ((Q2R (Types.lng p2) - Q2R (Types.lng p2)) * PI / 180 / 2)%R
    with 0%R by lra.
  rewrite sin_0.
  replace (0 ^ 2 + cos (Q2R (Types.lat p2) * PI / 180)
                   * cos (Q2R (Types.lat p2) * PI / 180) * 0 ^ 2)%R
    with 0%R by ring.
  rewrite sqrt_0, Rminus_0_r, sqrt_1.
  unfold JS.Math_atan2.
  destruct (Rlt_dec 0 1) as [_|Hn]; [|exfalso; apply Hn; lra].
  replace (0 / 1)%R with 0%R by lra.
  rewrite atan_0. ring.
Qed.

Lemma toFixed2_nearest (x : R) (n : Z) :
  (0 <= x)%R -> (IZR n <= x * 100 + / 2 < IZR n + 1)%R ->
  JS.toFixed2 x
  = (JS.digits (n / 100) ++ "."
     ++ (if (n mod 100 <? 10)%Z then "0" else EmptyString)
     ++ JS.digits (n mod 100))%string.
Proof.
  intros Hx Hn. unfold JS.toFixed2.
  destruct (Rlt_dec x 0) as [Hneg|_]; [lra|].
  unfold JS.toFixed2_abs. rewrite (Zfloor_eq n _ Hn). reflexivity.
Qed.

Lemma one_degree_on_the_equator :
  App.segmentKm Samples.at00 Samples.at01 = (6371 * PI / 180)%R.
Proof.
  rewrite segmentKm_equator; cbn [Types.lat Types.lng Samples.at00 Samples.at01];
    rewrite ?RMicromega.Q2R_0, ?RMicromega.Q2R_1; try lra.
Qed.

(** C3, the claim as stated fails: the distance statistic is not the sum
    of the haversine segments but that sum printed with two decimals.
    For the two photos at (0,0) and (0,1) the sum lies strictly between
    111.194 and 111.195 km, and the statistic is the text 111.19. *)
Lemma distance_is_rounded :
  App.stats [Samples.origin; Samples.oneDegreeEast]
  = JS.Ok (Some {| App.distance := "111.19";
                   App.maxAlt := None;
                   App.duration := None |})
  /\ (111.194 < Spec.pathLengthKm
                  (Spec.locations
                     (App.gpsPhotos [Samples.origin; Samples.oneDegreeEast]))
      < 111.195)%R.
Proof.
  pose proof PI_bounds as [Hpl Hpu].
  assert (Htrek : App.gpsPhotos [Samples.origin; Samples.oneDegreeEast]
                  = [Samples.origin; Samples.oneDegreeEast]) by reflexivity.
  rewrite stats_value, Htrek.
  cbn [List.length Nat.ltb Nat.leb Spec.locations Samples.origin
       Samples.oneDegreeEast Samples.photoAt Types.location Spec.pathLengthKm].
  cbv zeta. rewrite one_degree_on_the_equator, Rplus_0_r.
  split; [|lra].
  rewrite (toFixed2_nearest _ 11119) by lra.
  reflexivity.
Qed.

(** C3, amended: with at least two geotagged photos the distance
    statistic is the sum, over the consecutive pairs of the time-ordered
    trek, of the haversine distance with Earth radius 6371 km, rounded to
    two decimals and printed as text; the haversine distance between
    (0,0) and (0,1) is within 0.5 km of 111.19 km, and between two
    identical coordinates it is 0 km. *)
Theorem distance_is_path_length (photos : list Types.TrekPhoto) :
  (2 <= List.length (filter App.hasLocation photos))%nat ->
  (exists st,
      App.stats photos = JS.Ok (Some st)
      /\ App.distance st
         = JS.toFixed2
             (Spec.pathLengthKm (Spec.locations (App.gpsPhotos photos))))
  /\ (111.19 - 0.5 <= App.segmentKm Samples.at00 Samples.at01
      <= 111.19 + 0.5)%R
  /\ (forall l : Types.GPSLocation, App.segmentKm l l = 0%R).
Proof.
  intros Hcount. split; [|split].
  - rewrite stats_value. rewrite <- gpsPhotos_length in Hcount.
    destruct (Nat.ltb_spec (List.length (App.gpsPhotos photos)) 2) as [Hlt|_];
      [lia|].
    eexists. split; reflexivity.
  - rewrite one_degree_on_the_equator.
    pose proof PI_bounds as [Hpl Hpu]. split; lra.
  - intros l. apply segmentKm_same_place; reflexivity.
Qed.

(** The amended C3 at the two photos on the equator. *)
Lemma distance_is_path_length_witness :
  (2 <= List.length
          (filter App.hasLocation [Samples.origin; Samples.oneDegreeEast]))%nat
  /\ (exists st,
         App.stats [Samples.origin; Samples.oneDegreeEast] = JS.Ok (Some st)
         /\ App.distance st
            = JS.toFixed2
                (Spec.pathLengthKm
                   (Spec.locations
                      (App.gpsPhotos [Samples.origin; Samples.oneDegreeEast])))).
Proof.
  assert (H : (2 <= List.length
                      (filter App.hasLocation
                              [Samples.origin; Samples.oneDegreeEast]))%nat)
    by (cbn; lia).
  split; [exact H|].
  exact (proj1 (distance_is_path_length
                  [Samples.origin; Samples.oneDegreeEast] H)).
Defined.


(** ** GPX export *)

Lemma string_append_assoc (a b c : string) :
  ((a ++ b) ++ c = a ++ (b ++ c))%string.
Proof.
  induction a as [|ch a IH]; [reflexivity|].
  cbn [String.append]. rewrite IH. reflexivity.
Qed.

Lemma string_append_nil_r (a : string) : (a ++ EmptyString)%string = a.
Proof.
  induction a as [|ch a IH]; [reflexivity|].
  cbn [String.append]. rewrite IH. reflexivity.
Qed.

Section ExportFacts.
Context {host : Host}.

Lemma trkptText_render (p : Types.TrekPhoto) (l : Types.GPSLocation) :
  Types.location p = Some l -> Spec.wellDated p ->
  App.trkptText p
  = JS.Ok (Spec.renderTrackPoint (Spec.trackPoint (Types.name p) l)).
Proof.
  intros Hl Hd. unfold App.trkptText. rewrite Hl.
  unfold Spec.wellDated, App.timeOf in Hd. rewrite Hl in Hd.
  unfold App.timeText, Spec.renderTrackPoint, Spec.trackPoint, App.eleText.
  cbn [Spec.tpLat Spec.tpLon Spec.tpEle Spec.tpTime Spec.tpName].
  destruct (Types.timestamp l) as [[ms|]|].
  - cbn [App.toISOString JS.bind].
    destruct (Types.alt l) as [a|]; [destruct (JS.truthyNumber a)|];
      reflexivity.
  - exfalso. apply Hd. reflexivity.
  - cbn [JS.bind].
    destruct (Types.alt l) as [a|]; [destruct (JS.truthyNumber a)|];
      reflexivity.
Qed.

Lemma appendTrkpts_spec (trek : list Types.TrekPhoto) (gpx : string) :
  Forall (fun p => App.hasLocation p = true) trek ->
  Forall Spec.wellDated trek ->
  App.appendTrkpts trek gpx
  = JS.Ok (gpx ++ Spec.joinAll (map Spec.renderTrackPoint
                                     (Spec.trackPoints trek)))%string.
Proof.
  revert gpx.
  induction trek as [|p trek IH]; intros gpx Hloc Hdated.
  - cbn. rewrite string_append_nil_r. reflexivity.
  - inversion Hloc as [|? ? Hp Hloc']; subst.
    inversion Hdated as [|? ? Hd Hdated']; subst.
    unfold App.hasLocation in Hp.
    destruct (Types.location p) as [l|] eqn:Hl; [|discriminate].
    cbn [App.appendTrkpts Spec.trackPoints]. rewrite Hl.
    rewrite (trkptText_render p l Hl Hd). cbn [JS.bind].
    rewrite (IH _ Hloc' Hdated').
    cbn [map Spec.joinAll fold_right].
    rewrite string_append_assoc. reflexivity.
Qed.

Lemma trackPoints_pairing (trek : list Types.TrekPhoto) :
  Forall (fun p => App.hasLocation p = true) trek ->
  Forall2 (fun p t => exists l, Types.location p = Some l
                                /\ t = Spec.trackPoint (Types.name p) l)
          trek (Spec.trackPoints trek).
Proof.
  induction 1 as [|p trek Hp _ IH]; [constructor|].
  unfold App.hasLocation in Hp. cbn [Spec.trackPoints].
  destruct (Types.location p) as [l|] eqn:Hl; [|discriminate].
  constructor; [|exact IH].
  exists l. split; [exact Hl | reflexivity].
Qed.

Lemma gpsPhotos_wellDated (photos : list Types.TrekPhoto) :
  Forall Spec.wellDated photos -> Forall Spec.wellDated (App.gpsPhotos photos).
Proof.
  intros H.
  apply (Permutation_Forall (Permutation_sym (gpsPhotos_perm photos))).
  rewrite Forall_forall in *. intros p Hp. apply filter_In in Hp.
  apply H, Hp.
Qed.

(** What [exportGPX] does on photos whose dates are valid. *)
Lemma exportGPX_spec (photos : list Types.TrekPhoto) (now : Z) :
  Forall Spec.wellDated photos ->
  App.exportGPX photos now
  = if (List.length (filter App.hasLocation photos) =? 0)%nat then JS.Ok None
    else JS.Ok (Some (Spec.document now (App.gpsPhotos photos))).
Proof.
  intros Hd. unfold App.exportGPX.
  rewrite sortedPhotos_located, gpsPhotos_length.
  destruct (List.length (filter App.hasLocation photos) =? 0)%nat;
    [reflexivity|].
  rewrite (appendTrkpts_spec _ _ (gpsPhotos_located photos)
                             (gpsPhotos_wellDated photos Hd)).
  cbn [JS.bind]. unfold Spec.document.
  rewrite string_append_assoc. reflexivity.
Qed.

End ExportFacts.


Lemma escapeAmp_app (a b : string) :
  JS.escapeAmp (a ++ b) = (JS.escapeAmp a ++ JS.escapeAmp b)%string.
Proof.
  induction a as [|ch a IH]; [reflexivity|].
  cbn [String.append JS.escapeAmp]. rewrite IH.
  destruct (Ascii.eqb ch "&"); reflexivity.
Qed.

(** The elevation element is written under a test of the altitude for
    truthiness: it is missing exactly when the altitude is absent, [NaN]
    or zero. *)
Lemma eleText_empty_iff {host : Host} (l : Types.GPSLocation) :
  App.eleText l = EmptyString
  <-> Types.alt l = None
      \/ Types.alt l = Some JS.NotANumber
      \/ exists q, Types.alt l = Some (JS.Finite q) /\ (q == 0)%Q.
Proof.
  unfold App.eleText.
  destruct (Types.alt l) as [[q|n|]|]; cbn [JS.truthyNumber].
  - unfold JS.truthy. destruct (Qeq_bool q 0) eqn:Hq; cbn [negb].
    + split; [|reflexivity]. intros _. right. right. exists q.
      split; [reflexivity | apply Qeq_bool_eq, Hq].
    + split; [discriminate|].
      intros [H|[H|(q' & H & Hz)]]; try discriminate.
      injection H as <-. apply Qeq_eq_bool in Hz. congruence.
  - split; [discriminate|].
    intros [H|[H|(q' & H & _)]]; discriminate.
  - split; [intros _; right; left; reflexivity | reflexivity].
  - split; [intros _; left; reflexivity | reflexivity].
Qed.

(** C5, the code at the failing input: a picture taken at 150 m. The
    imported reader describes its altitude by the text [150 m], of which
    extraction keeps [Number], that is [NaN]. The photo the ingestion
    makes of the picture has an altitude, and the export, which writes
    the elevation of a truthy altitude only, gives its track point the
    position, the time and the name, but no elevation. *)
Lemma export_leaves_out_the_elevation :
  exists p l doc,
    App.photos (@App.ingest Demo.host [Samples.newYear] App.initial) = [p]
    /\ Types.location p = Some l
    /\ Types.alt l = Some JS.NotANumber
    /\ ElevationProfile.hasAltitude p = true
    /\ @App.exportGPX Demo.host [p] 0 = JS.Ok (Some doc)
    /\ String.index 0 "<time>2024-01-01T00:00:00.000Z</time>"
                     (App.content doc)
       = Some 289%nat
    /\ String.index 0 "<name>newyear.jpg</name>" (App.content doc)
       = Some 335%nat
    /\ String.index 0 "<ele>" (App.content doc) = None.
Proof.
  eexists. eexists. eexists. split; [vm_compute; reflexivity|].
  split; [reflexivity|]. split; [reflexivity|]. split; [reflexivity|].
  split; [vm_compute; reflexivity|].
  split; [vm_compute; reflexivity|].
  split; vm_compute; reflexivity.
Qed.

(** What the export writes. On a collection whose timestamps are valid
    dates it produces no document at all when no photo is geotagged;
    otherwise its document is the header, one track point per photo of
    the time-ordered trek, in the trek's ascending time order, and the
    footer, each track point carrying the photo's latitude and
    longitude, an elevation element exactly when the altitude is truthy,
    that is present and neither zero nor [NaN], an ISO 8601 time element
    exactly when a timestamp is present, and the name with every
    ampersand escaped. *)
Theorem exportGPX_track_points {host : Host}
        (photos : list Types.TrekPhoto) (now : Z) :
  Forall Spec.wellDated photos ->
  let trek := App.gpsPhotos photos in
  App.exportGPX photos now
  = (if (List.length (filter App.hasLocation photos) =? 0)%nat then JS.Ok None
     else JS.Ok (Some (Spec.document now trek)))
  /\ Forall2 (fun p t => exists l, Types.location p = Some l
                                   /\ t = Spec.trackPoint (Types.name p) l)
             trek (Spec.trackPoints trek)
  /\ StronglySorted (fun a b => (App.timeKey a <= App.timeKey b)%Z) trek
  /\ Permutation trek (filter App.hasLocation photos)
  /\ (forall l,
        App.eleText l = EmptyString
        <-> Types.alt l = None
            \/ Types.alt l = Some JS.NotANumber
            \/ exists q, Types.alt l = Some (JS.Finite q) /\ (q == 0)%Q).
Proof.
  intros Hd trek. split; [|split; [|split; [|split]]].
  - apply exportGPX_spec, Hd.
  - apply trackPoints_pairing, gpsPhotos_located.
  - apply gpsPhotos_sorted.
  - apply gpsPhotos_perm.
  - apply eleText_empty_iff.
Qed.

(** At what the ingestion of three pictures leaves: one whose EXIF
    cannot be read, one taken at 150 m and one taken at altitude 0. The
    document has a track point for each of the two geotagged photos,
    neither with an elevation. *)
Lemma exportGPX_track_points_witness :
  Forall Spec.wellDated
         (App.photos
            (@App.ingest Demo.host
               [Samples.corruptExif; Samples.newYear; Samples.beach]
               App.initial))
  /\ (exists doc,
         @App.exportGPX Demo.host
           (App.photos
              (@App.ingest Demo.host
                 [Samples.corruptExif; Samples.newYear; Samples.beach]
                 App.initial))
           0
         = JS.Ok (Some doc)
         /\ String.index 0 "<name>newyear.jpg</name>" (App.content doc)
            = Some 335%nat
         /\ String.index 0 "<name>beach.jpg</name>" (App.content doc)
            = Some 484%nat
         /\ String.index 0 "<ele>" (App.content doc) = None).
Proof.
  assert (H : Forall Spec.wellDated
                (App.photos
                   (@App.ingest Demo.host
                      [Samples.corruptExif; Samples.newYear; Samples.beach]
                      App.initial)))
    by (vm_compute; repeat constructor; discriminate).
  split; [exact H|].
  eexists. split.
  - rewrite (proj1 (@exportGPX_track_points Demo.host _ 0%Z H)).
    reflexivity.
  - split; [vm_compute; reflexivity|].
    split; vm_compute; reflexivity.
Defined.

(** The export of the summit photo alone: one track point with the
    coordinates in full, the elevation 150 and the time of the photo. *)
Example export_of_the_summit :
  exists doc,
    @App.exportGPX Demo.host [Samples.summit] 1704067200000 = JS.Ok (Some doc)
    /\ App.filename doc = "trek_route_2024-01-01.gpx"%string
    /\ @Spec.trackPoints Demo.host [Samples.summit]
       = [{| Spec.tpLat := 10123456 # 1000000; Spec.tpLon := 20654321 # 1000000;
             Spec.tpEle := Some (JS.Finite 150);
             Spec.tpTime := Some "2024-01-01T00:00:00.000Z"%string;
             Spec.tpName := "summit.jpg"%string |}]
    /\ String.index 0 "<ele>150</ele>" (App.content doc) <> None
    /\ String.index 0 "<time>2024-01-01T00:00:00.000Z</time>" (App.content doc)
       <> None.
Proof.
  eexists. split; [vm_compute; reflexivity|].
  split; [vm_compute; reflexivity|].
  split; [vm_compute; reflexivity|].
  split; vm_compute; discriminate.
Qed.


(** ** Location extraction *)

(** [extractGpsData] never throws and never rejects. *)
Lemma extractGpsData_total {host : Host} (file : File.t) :
  exists r, ExifService.extractGpsData file = JS.Ok r.
Proof.
  unfold ExifService.extractGpsData.
  destruct (ExifReader_load file) as [tags|e]; cbn [JS.bind JS.tryCatch].
  - destruct (Exif.GPSLatitude tags), (Exif.GPSLongitude tags);
      eexists; reflexivity.
  - eexists; reflexivity.
Qed.

Lemma extractCameraMetadata_total {host : Host} (file : File.t) :
  exists r, ExifService.extractCameraMetadata file = JS.Ok r.
Proof.
  unfold ExifService.extractCameraMetadata.
  destruct (ExifReader_load file) as [tags|e]; cbn [JS.bind JS.tryCatch];
    eexists; reflexivity.
Qed.

(** The first two colons of an EXIF date become hyphens; the rest of the
    string is kept. *)
Lemma normalizeExifDate_exif (y1 y2 y3 y4 m1 m2 d1 d2 : ascii) (rest : string) :
  forallb JS.isDigit [y1; y2; y3; y4; m1; m2; d1; d2] = true ->
  ExifService.normalizeExifDate
    (String y1 (String y2 (String y3 (String y4 (String ":"
      (String m1 (String m2 (String ":" (String d1 (String d2 rest))))))))))
  = String y1 (String y2 (String y3 (String y4 (String "-"
      (String m1 (String m2 (String "-" (String d1 (String d2 rest))))))))).
Proof.
  cbn [forallb]. rewrite !andb_true_iff.
  intros (H1 & H2 & H3 & H4 & H5 & H6 & H7 & H8 & _).
  unfold ExifService.normalizeExifDate.
  rewrite H1, H2, H3, H4, H5, H6, H7, H8. reflexivity.
Qed.

Lemma normalizeExifDate_truthy (s : string) :
  JS.truthyString (ExifService.normalizeExifDate s) = JS.truthyString s.
Proof.
  unfold ExifService.normalizeExifDate.
  repeat (destruct s as [|? s]; [reflexivity|]).
  match goal with |- context [if ?c then _ else _] => destruct c end;
    reflexivity.
Qed.

(** A description that does not parse as a date still gives the location
    a timestamp: the Invalid Date. *)
Lemma originalDate_unparseable {host : Host} (s : string) :
  s <> EmptyString ->
  Date_parse (ExifService.normalizeExifDate s) = JS.NaN ->
  ExifService.originalDate (Some (Some s)) = Some JS.InvalidDate.
Proof.
  intros Hs Hp. unfold ExifService.originalDate. cbn [option_map].
  rewrite normalizeExifDate_truthy.
  destruct s; [contradiction|]. cbn [JS.truthyString].
  unfold ExifService.newDate. rewrite Hp. reflexivity.
Qed.

(** C8, the code at a malformed date: a picture from a camera whose
    clock was never set carries [0000:00:00 00:00:00]; extraction returns
    a location whose timestamp is present, the Invalid Date, and the
    export of the photo made from it throws. *)
Lemma malformed_date_is_kept :
  @ExifService.extractGpsData Demo.host Samples.unsetClock
  = JS.Ok (Some {| Types.lat := 10123456 # 1000000;
                   Types.lng := 20654321 # 1000000;
                   Types.alt := Some JS.NotANumber;
                   Types.timestamp := Some JS.InvalidDate |})
  /\ (exists p,
         @App.processFile Demo.host Samples.unsetClock 0 = JS.Ok (Some p)
         /\ App.timeOf p = Some JS.NaN
         /\ @App.exportGPX Demo.host [p] 0 = JS.Throw JS.RangeError).
Proof.
  split; [vm_compute; reflexivity|].
  eexists. split; [vm_compute; reflexivity|].
  split; vm_compute; reflexivity.
Qed.

(** C10, the code at the failing input: a picture taken at altitude 0,
    whose altitude the imported reader describes by the text [0 m].
    Extraction tests the description, not the number: the text is
    truthy, [Number] of it is [NaN], and the location returned has that
    for its altitude. The photo made from the picture counts among those
    with an altitude, so two of them get an elevation profile, whose
    lowest altitude is [NaN]. The export,
    which tests the number, writes for the photo what it writes for the
    same photo without altitude. *)
Lemma zero_altitude_is_not_omitted :
  @ExifService.extractGpsData Demo.host Samples.beach
  = JS.Ok (Some {| Types.lat := 10123456 # 1000000;
                   Types.lng := 20654321 # 1000000;
                   Types.alt := Some JS.NotANumber;
                   Types.timestamp := Some (JS.ValidDate 1704067200000) |})
  /\ (exists p q c,
         App.photos
           (@App.ingest Demo.host [Samples.beach; Samples.beach] App.initial)
         = [p; q]
         /\ ElevationProfile.hasAltitude p = true
         /\ ElevationProfile.chart [p; q] = Some c
         /\ ElevationProfile.minAlt c = JS.NotANumber
         /\ @App.trkptText Demo.host p
            = @App.trkptText Demo.host (Spec.withoutAltitude p)).
Proof.
  split; [vm_compute; reflexivity|].
  eexists. eexists. eexists. split; [vm_compute; reflexivity|].
  split; [reflexivity|]. split; [vm_compute; reflexivity|].
  split; reflexivity.
Qed.

(** ** Ingestion *)

Lemma Promise_all_fulfilled {A : Type} (values : list A) :
  App.Promise_all (map JS.Ok values) = JS.Ok values.
Proof.
  induction values as [|a values IH]; [reflexivity|].
  cbn [map App.Promise_all JS.bind]. rewrite IH. reflexivity.
Qed.

Lemma filter_complement_length {A : Type} (f : A -> bool) (l : list A) :
  List.length (filter (fun x => negb (f x)) l)
  = (List.length l - List.length (filter f l))%nat.
Proof.
  induction l as [|x l IH]; [reflexivity|].
  cbn [filter]. pose proof (filter_length_le f l) as Hle.
  destruct (f x); cbn [negb List.length]; rewrite IH; lia.
Qed.

(** *** Ranking by a strict total order

    The number of members of a list that come before a given member
    is, over the members, a bijection onto the initial segment of the
    naturals of the list's length. *)
Section Ranking.
Variable before : nat -> nat -> bool.
Hypothesis before_irrefl : forall i, before i i = false.
Hypothesis before_trans :
  forall i j k, before i j = true -> before j k = true -> before i k = true.
Hypothesis before_total :
  forall i j, i <> j -> before i j = true \/ before j i = true.

Lemma filter_length_lt {A : Type} (f g : A -> bool) (l : list A) (x : A) :
  (forall y, In y l -> f y = true -> g y = true) ->
  In x l -> g x = true -> f x = false ->
  (List.length (filter f l) < List.length (filter g l))%nat.
Proof.
  induction l as [|y l IH]; intros Hfg Hx Hgx Hfx; [contradiction|].
  assert (Hle : (List.length (filter f l) <= List.length (filter g l))%nat).
  { clear -Hfg. induction l as [|z l IH]; [cbn; lia|].
    assert (Hz : f z = true -> g z = true)
      by (apply Hfg; right; left; reflexivity).
    assert (IH' : (List.length (filter f l) <= List.length (filter g l))%nat).
    { apply IH. intros w [Hw|Hw] Hf.
      - apply Hfg; [left; exact Hw | exact Hf].
      - apply Hfg; [right; right; exact Hw | exact Hf]. }
    cbn [filter]. destruct (f z); [rewrite (Hz eq_refl)|destruct (g z)];
      cbn [List.length]; lia. }
  cbn [filter]. destruct Hx as [->|Hx].
  - rewrite Hgx, Hfx. cbn [List.length]. lia.
  - assert (IH' : (List.length (filter f l) < List.length (filter g l))%nat).
    { apply IH; try assumption.
      intros w Hw. apply Hfg. right. exact Hw. }
    assert (Hy : f y = true -> g y = true)
      by (apply Hfg; left; reflexivity).
    destruct (f y); [rewrite (Hy eq_refl)|destruct (g y)];
      cbn [List.length]; lia.
Qed.

Lemma rank_below_length (l : list nat) (i : nat) :
  In i l ->
  (List.length (filter (fun j => before j i) l) < List.length l)%nat.
Proof.
  intros Hi.
  assert (E : filter (fun _ : nat => true) l = l)
    by (clear; induction l as [|k l IH]; cbn [filter]; congruence).
  rewrite <- E at 2.
  apply (filter_length_lt _ _ l i); try reflexivity; try assumption.
  apply before_irrefl.
Qed.

Lemma rank_increases (l : list nat) (i j : nat) :
  In i l -> before i j = true ->
  (List.length (filter (fun k => before k i) l)
   < List.length (filter (fun k => before k j) l))%nat.
Proof.
  intros Hi Hij.
  apply (filter_length_lt _ _ l i); try assumption.
  - intros k _ Hk. exact (before_trans k i j Hk Hij).
  - apply before_irrefl.
Qed.

Lemma ranks_are_a_permutation (l : list nat) :
  NoDup l ->
  Permutation (map (fun i => List.length (filter (fun j => before j i) l)) l)
              (seq 0 (List.length l)).
Proof.
  intros Hnd.
  apply NoDup_Permutation_bis.
  - assert (Hinj : forall ks, NoDup ks -> incl ks l ->
               NoDup (map (fun i => List.length
                                      (filter (fun j => before j i) l)) ks)).
    { induction 1 as [|k ks Hk _ IH]; intros Hincl; [constructor|].
      cbn [map]. constructor.
      - intros Hin. apply in_map_iff in Hin as (k' & Heq & Hk').
        assert (Hne : k' <> k) by (intros ->; contradiction).
        assert (Hkl : In k l) by (apply Hincl; left; reflexivity).
        assert (Hk'l : In k' l) by (apply Hincl; right; exact Hk').
        destruct (before_total k' k Hne) as [Hb|Hb].
        + pose proof (rank_increases l k' k Hk'l Hb). lia.
        + pose proof (rank_increases l k k' Hkl Hb). lia.
      - apply IH. intros x Hx. apply Hincl. right. exact Hx. }
    apply Hinj; [exact Hnd | apply incl_refl].
  - rewrite length_map, length_seq. lia.
  - intros r Hr. apply in_map_iff in Hr as (i & <- & Hi).
    apply in_seq. pose proof (rank_below_length l i Hi). lia.
Qed.

End Ranking.

Section IngestionFacts.
Context {host : Host}.

(** The callback never rejects: it yields [null] when transcoding or
    encoding fails, and otherwise a photo whose id comes from the draw. *)
Lemma processFile_outcome (file : File.t) (draw : nat) :
  (Spec.assetFails file = true
   /\ App.processFile file draw = JS.Ok None)
  \/ (Spec.assetFails file = false
      /\ exists p, App.processFile file draw = JS.Ok (Some p)
                   /\ Types.id p = Spec.idOfDraw draw
                   /\ Types.name p = File.name file).
Proof.
  unfold App.processFile, Spec.assetFails.
  destruct (extractGpsData_total file) as [loc ->].
  destruct (extractCameraMetadata_total file) as [cam ->].
  cbn [JS.bind].
  destruct (if App.isHeic file then heic2any file else JS.Ok (OneBlob file))
    as [displayBlob|e]; cbn [JS.bind JS.tryCatch].
  - destruct (App.finalBlobOf displayBlob) as [blob|]; cbn [JS.tryCatch].
    + unfold ExifService.fileToBase64.
      destruct (FileReader_readAsDataURL blob) as [r|e];
        cbn [JS.bind JS.tryCatch].
      * right. split; [reflexivity|]. eexists. repeat split.
      * left. split; reflexivity.
    + left. split; reflexivity.
  - left. split; reflexivity.
Qed.

(** Whether a callback gets as far as its draw is whether transcoding
    and encoding succeed on its file. *)
Lemma reachesDraw_iff (file : File.t) :
  App.reachesDraw file = negb (Spec.assetFails file).
Proof.
  unfold App.reachesDraw.
  destruct (processFile_outcome file 0) as [[Hf Hr]|[Hf (p & Hr & _)]];
    rewrite Hr, Hf; reflexivity.
Qed.

Lemma drawsBefore_irrefl (batch : list File.t) (i : nat) :
  App.drawsBefore batch i i = false.
Proof.
  unfold App.drawsBefore.
  rewrite Nat.ltb_irrefl, Nat.eqb_refl, Nat.ltb_irrefl. reflexivity.
Qed.

Lemma drawsBefore_spec (batch : list File.t) (j i : nat) :
  App.drawsBefore batch j i = true
  <-> (settledAt batch j < settledAt batch i)%nat
      \/ (settledAt batch j = settledAt batch i /\ (j < i)%nat).
Proof.
  unfold App.drawsBefore.
  rewrite orb_true_iff, andb_true_iff, !Nat.ltb_lt, Nat.eqb_eq. reflexivity.
Qed.

Lemma drawsBefore_trans (batch : list File.t) (i j k : nat) :
  App.drawsBefore batch i j = true -> App.drawsBefore batch j k = true ->
  App.drawsBefore batch i k = true.
Proof. rewrite !drawsBefore_spec. lia. Qed.

Lemma drawsBefore_total (batch : list File.t) (i j : nat) :
  i <> j ->
  App.drawsBefore batch i j = true \/ App.drawsBefore batch j i = true.
Proof. rewrite !drawsBefore_spec. lia. Qed.

Lemma filter_conj {A : Type} (f g : A -> bool) (l : list A) :
  filter (fun x => f x && g x) l = filter g (filter f l).
Proof.
  induction l as [|x l IH]; [reflexivity|].
  cbn [filter]. destruct (f x); cbn [andb filter]; rewrite IH; reflexivity.
Qed.

Lemma seq_shifted (d n s : nat) :
  map (fun k => (d + k)%nat) (seq s n) = seq (d + s) n.
Proof.
  revert s. induction n as [|n IH]; intros s; [reflexivity|].
  cbn [seq map]. rewrite IH. f_equal. f_equal. lia.
Qed.

(** The callbacks from the i-th on: none rejects; the photos among their
    values are as many as the files on which neither transcoding nor
    encoding fails, in the order of the files, and the id of each comes
    from the draw its callback makes. *)
Lemma processFrom_outcome (batch : list File.t) (draw : nat) :
  forall (files pre : list File.t),
    batch = pre ++ files ->
    exists results,
      App.processFrom batch draw (List.length pre) files = map JS.Ok results
      /\ List.length (App.nonNull results)
         = List.length (filter (fun f => negb (Spec.assetFails f)) files)
      /\ map Types.id (App.nonNull results)
         = map (fun j => Spec.idOfDraw (draw + App.drawsAhead batch j))
               (filter (fun j => match nth_error batch j with
                                 | Some file => App.reachesDraw file
                                 | None => false
                                 end)
                       (seq (List.length pre) (List.length files))).
Proof.
  induction files as [|file files IH]; intros pre Hbatch.
  - exists []. repeat split.
  - destruct (IH (pre ++ [file])) as (results & H1 & H2 & H3).
    { rewrite Hbatch, <- app_assoc. reflexivity. }
    rewrite length_app in H1, H3. cbn [List.length] in H1, H3.
    rewrite Nat.add_1_r in H1, H3.
    assert (Hnth : nth_error batch (List.length pre) = Some file).
    { rewrite Hbatch, nth_error_app2 by lia.
      rewrite Nat.sub_diag. reflexivity. }
    cbn [App.processFrom List.length seq filter]. rewrite Hnth.
    rewrite (reachesDraw_iff file).
    destruct (processFile_outcome
                file (draw + App.drawsAhead batch (List.length pre)))
      as [[Hf Hr]|[Hf (p & Hr & Hid & _)]]; rewrite Hr, Hf; cbn [negb].
    + exists (None :: results). cbn [map App.nonNull]. rewrite H1.
      repeat split; assumption.
    + exists (Some p :: results). cbn [map App.nonNull List.length].
      rewrite H1, H2, H3, Hid. repeat split.
Qed.

(** All callbacks settle fulfilled; the photos among their values are
    as many as the files on which neither transcoding nor encoding
    fails, and their ids come from the next draws of the session, one
    each, in the order in which the callbacks make them. *)
Lemma processAll_outcome (files : list File.t) (draw : nat) :
  exists results,
    fst (App.processAll files draw) = map JS.Ok results
    /\ List.length (App.nonNull results)
       = List.length (filter (fun f => negb (Spec.assetFails f)) files)
    /\ snd (App.processAll files draw)
       = (draw + List.length (App.nonNull results))%nat
    /\ exists ks,
         map Types.id (App.nonNull results) = map Spec.idOfDraw ks
         /\ Permutation ks (seq draw (List.length (App.nonNull results))).
Proof.
  destruct (processFrom_outcome files draw files [] eq_refl)
    as (results & H1 & H2 & H3).
  cbn [List.length] in H1, H3.
  exists results. unfold App.processAll. cbn [fst snd].
  split; [exact H1|]. split; [exact H2|]. split.
  - rewrite H2. f_equal. f_equal. apply filter_ext. exact reachesDraw_iff.
  - set (drawers :=
           filter (fun j => match nth_error files j with
                            | Some file => App.reachesDraw file
                            | None => false
                            end)
                  (seq 0 (List.length files))) in *.
    exists (map (fun j => (draw + App.drawsAhead files j)%nat) drawers).
    split; [rewrite H3, map_map; reflexivity|].
    assert (Hlen : List.length (App.nonNull results) = List.length drawers).
    { rewrite <- (length_map Types.id), H3, length_map. reflexivity. }
    assert (Hseq : seq draw (List.length drawers)
                   = map (fun k => (draw + k)%nat)
                         (seq 0 (List.length drawers)))
      by (rewrite seq_shifted, Nat.add_0_r; reflexivity).
    rewrite Hlen, Hseq.
    rewrite <- (map_map (App.drawsAhead files) (fun k => (draw + k)%nat)).
    apply Permutation_map.
    assert (Hrank : forall i,
               App.drawsAhead files i
               = List.length
                   (filter (fun j => App.drawsBefore files j i) drawers)).
    { intros i. unfold App.drawsAhead, drawers.
      rewrite <- filter_conj. f_equal. apply filter_ext. intros j.
      destruct (nth_error files j); reflexivity. }
    rewrite (map_ext _ _ Hrank).
    apply (ranks_are_a_permutation
             (App.drawsBefore files) (drawsBefore_irrefl files)
             (drawsBefore_trans files) (drawsBefore_total files)).
    apply NoDup_filter, seq_NoDup.
Qed.

(** What a call of [processFiles] does. *)
Lemma processFiles_run (files : list File.t) (draw : nat) :
  exists valid,
    List.length valid
    = (List.length files - List.length (filter Spec.assetFails files))%nat
    /\ (exists ks, map Types.id valid = map Spec.idOfDraw ks
                   /\ Permutation ks (seq draw (List.length valid)))
    /\ App.processFiles files draw
       = {| App.updates :=
              if (List.length files =? 0)%nat then []
              else [App.SetIsConverting true; App.AppendPhotos valid;
                    App.SetIsConverting false];
            App.outcome := JS.Ok tt;
            App.drawsAfter := (draw + List.length valid)%nat |}.
Proof.
  destruct (processAll_outcome files draw) as (results & H1 & H2 & H3 & H4).
  exists (App.nonNull results).
  split; [rewrite H2; apply filter_complement_length|].
  split; [exact H4|].
  unfold App.processFiles.
  destruct files as [|file files].
  - cbn in H2. rewrite H2. cbn [List.length Nat.eqb]. f_equal. lia.
  - change (List.length (file :: files) =? 0)%nat with false. cbv iota.
    destruct (App.processAll (file :: files) draw) as [rs d].
    cbn [fst snd] in H1, H3. rewrite H1, Promise_all_fulfilled, H3.
    reflexivity.
Qed.

End IngestionFacts.

Section IngestionClaims.
Context {host : Host}.

Lemma ingest_photos (files : list File.t) (s : App.State) :
  exists valid,
    List.length valid
    = (List.length files - List.length (filter Spec.assetFails files))%nat
    /\ (exists ks, map Types.id valid = map Spec.idOfDraw ks
                   /\ Permutation ks
                                  (seq (App.draws s) (List.length valid)))
    /\ App.photos (App.ingest files s) = App.photos s ++ valid
    /\ App.draws (App.ingest files s) = (App.draws s + List.length valid)%nat
    /\ App.isConverting (App.ingest files s)
       = (if (List.length files =? 0)%nat then App.isConverting s else false)
    /\ App.activePhotoId (App.ingest files s) = App.activePhotoId s
    /\ App.revoked (App.ingest files s) = App.revoked s.
Proof.
  destruct (processFiles_run files (App.draws s)) as (valid & Hlen & Hids & Hrun).
  exists valid. split; [exact Hlen|]. split; [exact Hids|].
  unfold App.ingest. rewrite Hrun. cbn [App.updates App.drawsAfter].
  destruct files as [|file files].
  - cbn in Hlen. destruct valid; [|discriminate].
    cbn. rewrite app_nil_r. repeat split.
  - cbn. repeat split.
Qed.

(** C4, amended: of a batch of N files of which K fail transcoding or
    encoding, ingestion appends exactly N - K photos, in one append made
    after every per-file outcome is in (an empty batch makes no update at
    all), and the call's promise is fulfilled: no exception escapes. A
    failure of metadata extraction is swallowed by the extractor and does
    not count: such a file is ingested without location. *)
Theorem ingest_growth (files : list File.t) (s : App.State) :
  let run := App.processFiles files (App.draws s) in
  let N := List.length files in
  let K := List.length (filter Spec.assetFails files) in
  App.outcome run = JS.Ok tt
  /\ (exists valid,
         List.length valid = (N - K)%nat
         /\ App.updates run
            = if (N =? 0)%nat then []
              else [App.SetIsConverting true; App.AppendPhotos valid;
                    App.SetIsConverting false])
  /\ List.length (App.photos (App.ingest files s))
     = (List.length (App.photos s) + (N - K))%nat
  /\ App.isConverting (App.ingest files s)
     = (if (N =? 0)%nat then App.isConverting s else false).
Proof.
  intros run N K. subst run N K.
  destruct (processFiles_run files (App.draws s)) as (valid & Hlen & _ & Hrun).
  destruct (ingest_photos files s) as (valid' & Hlen' & _ & Hph & _ & Hconv & _).
  rewrite Hrun. cbn [App.outcome App.updates].
  split; [reflexivity|].
  split; [exists valid; split; [exact Hlen | reflexivity]|].
  split; [rewrite Hph, length_app, Hlen'; reflexivity | exact Hconv].
Qed.

End IngestionClaims.

(** C4, the claim as stated fails: a file whose metadata extraction
    fails is not dropped. Of this batch of one file, one fails a
    sub-step, and the collection grows by one photo, without location. *)
Lemma unreadable_exif_is_still_ingested :
  @Spec.extractionFails Demo.host Samples.corruptExif = true
  /\ List.length
       (App.photos (@App.ingest Demo.host [Samples.corruptExif] App.initial))
     = 1%nat
  /\ map Types.location
         (App.photos (@App.ingest Demo.host [Samples.corruptExif] App.initial))
     = [None].
Proof. split; [reflexivity | split; reflexivity]. Qed.

(** Of five files, the rejected HEIC and the unreadable file are
    dropped; the file without readable EXIF is kept. *)
Example ingest_of_a_mixed_batch :
  map Types.name
      (App.photos
         (@App.ingest Demo.host
            [Samples.newYear; Samples.badHeic; Samples.corruptExif;
             Samples.unreadable; Samples.beach]
            App.initial))
  = ["newyear.jpg"; "scan.jpg"; "beach.jpg"]%string.
Proof. vm_compute. reflexivity. Qed.

(** ** Photo ids *)

Lemma NoDup_map_injective {A B : Type} (g : A -> B) (l : list A) :
  NoDup (map g l) ->
  forall x y, In x l -> In y l -> g x = g y -> x = y.
Proof.
  induction l as [|a l IH]; intros Hnd x y Hx Hy Hg; [contradiction|].
  cbn [map] in Hnd. inversion Hnd as [|? ? Hnotin Hnd']; subst.
  destruct Hx as [->|Hx], Hy as [->|Hy].
  - reflexivity.
  - exfalso. apply Hnotin. rewrite Hg. apply in_map, Hy.
  - exfalso. apply Hnotin. rewrite <- Hg. apply in_map, Hx.
  - apply IH; assumption.
Qed.

Lemma NoDup_map_within {A B : Type} (g : A -> B) (l ks : list A) :
  NoDup (map g l) -> NoDup ks -> incl ks l -> NoDup (map g ks).
Proof.
  intros Hl Hks. induction Hks as [|k ks Hnotin _ IH]; intros Hincl.
  - constructor.
  - cbn [map]. constructor.
    + intros Hin. apply in_map_iff in Hin. destruct Hin as (k' & Hg & Hk').
      assert (k' = k).
      { apply (NoDup_map_injective g l Hl).
        - apply Hincl. right. exact Hk'.
        - apply Hincl. left. reflexivity.
        - exact Hg. }
      subst k'. contradiction.
    + apply IH. intros x Hx. apply Hincl. right. exact Hx.
Qed.

(** Filtering a list whose images under [f] are those of [ks] under [g]
    leaves the images of some of [ks]. *)
Lemma filter_map_selection {A B C : Type} (f : A -> C) (g : B -> C)
      (keep : A -> bool) (P : B -> Prop) (l : list A) :
  forall ks,
    map f l = map g ks -> NoDup ks -> Forall P ks ->
    exists ks', map f (filter keep l) = map g ks'
                /\ NoDup ks' /\ Forall P ks' /\ incl ks' ks.
Proof.
  induction l as [|a l IH]; intros ks Hmap Hnd HP.
  - exists []. repeat split; try constructor. intros x [].
  - destruct ks as [|k ks]; [discriminate|].
    cbn [map] in Hmap. injection Hmap as Ha Hmap.
    inversion Hnd as [|? ? Hnotin Hnd']; subst.
    inversion HP as [|? ? Hk HP']; subst.
    destruct (IH ks Hmap Hnd' HP') as (ks' & Hm & Hn & Hp & Hi).
    cbn [filter]. destruct (keep a).
    + exists (k :: ks'). cbn [map]. rewrite Ha, Hm.
      split; [reflexivity|]. split.
      * constructor; [|exact Hn]. intros Hin. apply Hnotin, Hi, Hin.
      * split; [constructor; assumption|].
        intros x [->|Hx]; [left; reflexivity | right; apply Hi, Hx].
    + exists ks'. split; [exact Hm|]. split; [exact Hn|].
      split; [exact Hp|]. intros x Hx. right. apply Hi, Hx.
Qed.

Section IdFacts.
Context {host : Host}.

Lemma operation_drawn (s s' : App.State) :
  Spec.operation s s' -> Spec.drawn s -> Spec.drawn s'.
Proof.
  intros Hop (ks & Hmap & Hnd & Hlt).
  destruct Hop as [s files|s photoId|s confirmed|s v].
  - destruct (ingest_photos files s)
      as (valid & _ & (ks' & Hids & Hperm) & Hph & Hdr & _).
    exists (ks ++ ks').
    rewrite Hph, Hdr, !map_app, Hmap, Hids.
    split; [reflexivity|]. split.
    + apply NoDup_app;
        [exact Hnd
        | apply (Permutation_NoDup (Permutation_sym Hperm)), seq_NoDup |].
      intros k Hk Hin. rewrite Forall_forall in Hlt.
      apply Hlt in Hk. apply (Permutation_in _ Hperm) in Hin.
      apply in_seq in Hin. lia.
    + apply Forall_app. split.
      * eapply Forall_impl; [|exact Hlt]. cbn. intros; lia.
      * rewrite Forall_forall. intros k Hk.
        apply (Permutation_in _ Hperm) in Hk. apply in_seq in Hk. lia.
  - destruct (filter_map_selection Types.id Spec.idOfDraw
                (fun p => negb (String.eqb (Types.id p) photoId))
                (fun k => (k < App.draws s)%nat) (App.photos s) ks
                Hmap Hnd Hlt)
      as (ks' & Hm & Hn & Hp & _).
    exists ks'. cbn [App.deletePhoto App.photos App.draws].
    repeat split; assumption.
  - destruct confirmed; cbn [App.handleClearAll].
    + exists []. cbn. repeat split; constructor.
    + exists ks. repeat split; assumption.
  - exists ks. cbn. repeat split; assumption.
Qed.

Lemma reachable_drawn (s : App.State) : Spec.reachable s -> Spec.drawn s.
Proof.
  induction 1 as [|s s' _ IH Hop].
  - exists []. cbn. repeat split; constructor.
  - exact (operation_drawn s s' Hop IH).
Qed.

(** No operation rewrites a member of the collection. *)
Lemma operation_members (s s' : App.State) :
  Spec.operation s s' ->
  forall p, In p (App.photos s') ->
            In p (App.photos s)
            \/ exists k, (App.draws s <= k < App.draws s')%nat
                         /\ Types.id p = Spec.idOfDraw k.
Proof.
  intros Hop p Hin.
  destruct Hop as [s files|s photoId|s confirmed|s v].
  - destruct (ingest_photos files s)
      as (valid & _ & (ks' & Hids & Hperm) & Hph & Hdr & _).
    rewrite Hph in Hin. apply in_app_or in Hin.
    destruct Hin as [Hin|Hin]; [left; exact Hin|]. right.
    assert (Hid : In (Types.id p) (map Types.id valid)) by (apply in_map, Hin).
    rewrite Hids in Hid. apply in_map_iff in Hid.
    destruct Hid as (k & Hk & Hseq).
    apply (Permutation_in _ Hperm) in Hseq. apply in_seq in Hseq.
    exists k. split; [rewrite Hdr; lia | symmetry; exact Hk].
  - left. cbn [App.deletePhoto App.photos] in Hin.
    apply filter_In in Hin. apply Hin.
  - left. destruct confirmed; cbn [App.handleClearAll App.photos] in Hin;
      [contradiction | exact Hin].
  - left. exact Hin.
Qed.

(** C9, amended: in every reachable state of the collection in which the
    ids made from the session's random draws so far are pairwise
    distinct, the ids of the photos in the collection are pairwise
    distinct; and no ingest, removal, clearing or selection rewrites a
    member: each photo of the next state is an unchanged photo of the
    state before or one made by the ingest from a new draw, so a photo
    keeps its id for as long as it is a member. *)
Theorem ids_stay_distinct (s : App.State) :
  Spec.reachable s ->
  NoDup (map Spec.idOfDraw (seq 0 (App.draws s))) ->
  NoDup (map Types.id (App.photos s))
  /\ (forall s', Spec.operation s s' ->
        forall p, In p (App.photos s') ->
                  In p (App.photos s)
                  \/ exists k, (App.draws s <= k < App.draws s')%nat
                               /\ Types.id p = Spec.idOfDraw k).
Proof.
  intros Hreach Hdraws. split.
  - destruct (reachable_drawn s Hreach) as (ks & Hmap & Hnd & Hlt).
    rewrite Hmap.
    apply (NoDup_map_within Spec.idOfDraw (seq 0 (App.draws s)) ks Hdraws Hnd).
    intros k Hk. rewrite Forall_forall in Hlt. apply Hlt in Hk.
    apply in_seq. lia.
  - intros s'. apply operation_members.
Qed.

End IdFacts.

(** C9, the claim as stated fails: nothing keeps two draws from giving
    the same id. With a random source that repeats itself, ingesting two
    files leaves two photos with one id. *)
Lemma repeated_draw_repeats_the_id :
  @Spec.reachable Demo.repeatingHost
     (@App.ingest Demo.repeatingHost [Samples.newYear; Samples.beach]
                  App.initial)
  /\ map Types.id
         (App.photos
            (@App.ingest Demo.repeatingHost [Samples.newYear; Samples.beach]
                         App.initial))
     = ["4fzyo82mv"; "4fzyo82mv"]%string.
Proof.
  split.
  - eapply Spec.reach_step; [apply Spec.reach_initial | apply Spec.op_ingest].
  - vm_compute. reflexivity.
Qed.

(** The amended C9 after the ingestion of two files. *)
Lemma ids_stay_distinct_witness :
  @Spec.reachable Demo.host
     (@App.ingest Demo.host [Samples.newYear; Samples.beach] App.initial)
  /\ NoDup (map (@Spec.idOfDraw Demo.host) (seq 0 2))
  /\ NoDup (map Types.id
                (App.photos
                   (@App.ingest Demo.host [Samples.newYear; Samples.beach]
                                App.initial))).
Proof.
  assert (Hreach : @Spec.reachable Demo.host
            (@App.ingest Demo.host [Samples.newYear; Samples.beach]
                         App.initial)).
  { eapply Spec.reach_step; [apply Spec.reach_initial | apply Spec.op_ingest]. }
  assert (Hdraws : NoDup (map (@Spec.idOfDraw Demo.host) (seq 0 2))).
  { repeat constructor; cbn; intuition discriminate. }
  split; [exact Hreach|]. split; [exact Hdraws|].
  exact (proj1 (@ids_stay_distinct Demo.host _ Hreach Hdraws)).
Defined.

(** ** Clearing the collection *)

Lemma revokeAll_nonempty (l : list Types.TrekPhoto) :
  Forall (fun p => Types.url p <> EmptyString) l ->
  App.revokeAll l = map Types.url l.
Proof.
  unfold App.revokeAll.
  induction 1 as [|p l Hp _ IH]; [reflexivity|].
  cbn [filter]. destruct (Types.url p) eqn:Hu; [contradiction|].
  cbn [JS.truthyString map]. rewrite Hu, IH. reflexivity.
Qed.

(** C7, the claim as stated fails: clearing does not touch the playback.
    Cleared one second into a journey, the session is still playing, and
    when the dwell is over the walk selects the next of the photos that
    were cleared. *)
Lemma clearing_leaves_playback_running :
  (exists s,
      MapView.run (Samples.sessionWith Samples.threeStops)
                  [MapView.ClickJourney 0; MapView.ClearAll 1000 true]
      = Some s
      /\ App.photos (MapView.app s) = []
      /\ App.activePhotoId (MapView.app s) = None
      /\ MapView.isPlaying s = true)
  /\ (exists s,
         MapView.run (Samples.sessionWith Samples.threeStops)
                     [MapView.ClickJourney 0; MapView.ClearAll 1000 true;
                      MapView.TimerFires]
         = Some s
         /\ App.photos (MapView.app s) = []
         /\ App.activePhotoId (MapView.app s) = Some "east"%string
         /\ MapView.isPlaying s = true).
Proof.
  split; eexists; (split; [vm_compute; reflexivity|]); repeat split.
Qed.

(** C7, amended: clearing, once confirmed, is one step of the session
    that empties the collection, releases the display handle of every
    member exactly once (one [revokeObjectURL] call per member, on its
    handle), and leaves no photo selected; it leaves the playback as it
    was: idle if it was idle, playing, with its pending walk, if it was
    playing. *)
Theorem clear_releases_and_deselects (s s' : MapView.Session) (t : Z) :
  Forall (fun p => Types.url p <> EmptyString) (App.photos (MapView.app s)) ->
  MapView.step s (MapView.ClearAll t true) = Some s' ->
  App.photos (MapView.app s') = []
  /\ App.revoked (MapView.app s')
     = App.revoked (MapView.app s) ++ map Types.url (App.photos (MapView.app s))
  /\ App.activePhotoId (MapView.app s') = None
  /\ App.isGalleryOpen (MapView.app s') = false
  /\ MapView.isPlaying s' = MapView.isPlaying s
  /\ MapView.playbackRef s' = MapView.playbackRef s
  /\ MapView.walks s' = MapView.walks s.
Proof.
  intros Hurls Hstep. cbn [MapView.step] in Hstep.
  destruct (MapView.mayHappenAt t s); [|discriminate].
  injection Hstep as <-.
  cbn. rewrite (revokeAll_nonempty _ Hurls). repeat split.
Qed.

(** The amended C7 at a session of three photos, cleared at 1 s. *)
Lemma clear_releases_and_deselects_witness :
  Forall (fun p => Types.url p <> EmptyString)
         (App.photos (MapView.app (Samples.sessionWith Samples.threeStops)))
  /\ MapView.step (Samples.sessionWith Samples.threeStops)
                  (MapView.ClearAll 1000 true)
     = Some (MapView.withApp (App.handleClearAll true)
               (MapView.withClock 1000
                  (Samples.sessionWith Samples.threeStops)))
  /\ App.revoked
       (MapView.app
          (MapView.withApp (App.handleClearAll true)
             (MapView.withClock 1000
                (Samples.sessionWith Samples.threeStops))))
     = ["blob:trektrack/summit"; "blob:trektrack/origin";
        "blob:trektrack/east"]%string.
Proof.
  assert (Hurls : Forall (fun p => Types.url p <> EmptyString)
            (App.photos (MapView.app (Samples.sessionWith Samples.threeStops))))
    by (repeat constructor; discriminate).
  assert (Hstep : MapView.step (Samples.sessionWith Samples.threeStops)
                               (MapView.ClearAll 1000 true)
                  = Some (MapView.withApp (App.handleClearAll true)
                            (MapView.withClock 1000
                               (Samples.sessionWith Samples.threeStops))))
    by reflexivity.
  split; [exact Hurls|]. split; [exact Hstep|].
  exact (proj1 (proj2 (clear_releases_and_deselects _ _ _ Hurls Hstep))).
Defined.

(** ** Playback *)

Lemma last_cons_default {A : Type} (a d d' : A) (l : list A) :
  last (a :: l) d = last (a :: l) d'.
Proof.
  revert a. induction l as [|b l IH]; intros a; [reflexivity|].
  change (last (a :: b :: l) d) with (last (b :: l) d).
  change (last (a :: b :: l) d') with (last (b :: l) d').
  apply IH.
Qed.

(** A walk left alone: its timer fires once per pending waypoint and
    once more; it selects the pending waypoints in order, one per dwell
    time, and then turns the playback off. *)
Lemma walk_runs_to_its_end (rest : list Types.TrekPhoto) :
  forall (s : MapView.Session) (wake : Z),
    MapView.walks s = [{| MapView.pending := rest; MapView.wakeAt := wake |}] ->
    MapView.isPlaying s = true ->
    MapView.playbackRef s <> None ->
    exists s',
      MapView.run s (repeat MapView.TimerFires (S (List.length rest))) = Some s'
      /\ MapView.selections s'
         = MapView.selections s ++ Spec.schedule wake rest
      /\ MapView.isPlaying s' = false
      /\ MapView.playbackRef s' = None
      /\ MapView.walks s' = []
      /\ MapView.clock s'
         = (wake + MapView.dwellMs * Z.of_nat (List.length rest))%Z
      /\ App.activePhotoId (MapView.app s')
         = match rest with
           | [] => App.activePhotoId (MapView.app s)
           | p :: _ => Some (Types.id (last rest p))
           end
      /\ App.photos (MapView.app s') = App.photos (MapView.app s).
Proof.
  induction rest as [|p rest IH]; intros s wake Hw Hplay Href.
  - cbn [List.length repeat MapView.run MapView.step]. rewrite Hw.
    cbn [MapView.pending MapView.wakeAt MapView.continueWalk].
    unfold MapView.setIsPlayingFalse. cbn [MapView.isPlaying].
    rewrite Hplay. eexists. split; [reflexivity|].
    cbn. rewrite app_nil_r. repeat split. lia.
  - change (repeat MapView.TimerFires (S (List.length (p :: rest))))
      with (MapView.TimerFires
              :: repeat MapView.TimerFires (S (List.length rest))).
    cbn [MapView.run MapView.step]. rewrite Hw.
    cbn [MapView.pending MapView.wakeAt MapView.continueWalk
         MapView.playbackRef].
    destruct (MapView.playbackRef s) as [r|] eqn:Hr; [|contradiction].
    unfold MapView.selectAndWait.
    cbn [MapView.app MapView.isPlaying MapView.playbackRef MapView.walks
         MapView.clock MapView.selections app].
    match goal with
    | |- exists s', MapView.run ?s1 _ = _ /\ _ =>
        destruct (IH s1 (wake + MapView.dwellMs)%Z) as (s' & Hrun & Hsel & Hp
                    & Hrf & Hwk & Hck & Hact & Hph)
    end.
    + reflexivity.
    + exact Hplay.
    + cbn. discriminate.
    + exists s'. split; [exact Hrun|].
      cbn [MapView.selections MapView.app] in Hsel, Hact, Hph.
      split; [rewrite Hsel, <- app_assoc; reflexivity|].
      split; [exact Hp|]. split; [exact Hrf|]. split; [exact Hwk|].
      split; [rewrite Hck; cbn [List.length]; lia|].
      split; [|exact Hph].
      rewrite Hact. destruct rest as [|q rest']; [reflexivity|].
      change (last (p :: q :: rest') p) with (last (q :: rest') p).
      f_equal. f_equal. apply last_cons_default.
Qed.

(** Started from idle on a trek with at least one waypoint, and left
    alone, the playback selects every waypoint of the time-ordered trek,
    in order, each one dwell time after the one before, and is idle
    again one dwell time after the last. *)
Lemma playback_walks_the_trek (s : MapView.Session) (t : Z) :
  MapView.isPlaying s = false ->
  MapView.walks s = [] ->
  (MapView.clock s <= t)%Z ->
  App.gpsPhotos (App.photos (MapView.app s)) <> [] ->
  let trek := App.gpsPhotos (App.photos (MapView.app s)) in
  exists s',
    MapView.run s (MapView.ClickJourney t
                     :: repeat MapView.TimerFires (List.length trek))
    = Some s'
    /\ MapView.selections s' = MapView.selections s ++ Spec.schedule t trek
    /\ MapView.isPlaying s' = false
    /\ MapView.walks s' = []
    /\ MapView.clock s'
       = (t + MapView.dwellMs * Z.of_nat (List.length trek))%Z.
Proof.
  intros Hidle Hwalks Hclock Hne trek. subst trek.
  cbn [MapView.run MapView.step]. unfold MapView.mayHappenAt.
  rewrite Hwalks. apply Z.leb_le in Hclock. rewrite Hclock. cbn [andb].
  unfold MapView.toggle, MapView.withClock. cbn [MapView.isPlaying].
  rewrite Hidle. unfold MapView.runPlayback.
  cbn [MapView.app MapView.walks MapView.clock MapView.selections].
  destruct (App.gpsPhotos (App.photos (MapView.app s))) as [|p rest] eqn:Htrek;
    [contradiction|].
  cbn [List.length Nat.eqb MapView.continueWalk MapView.playbackRef].
  unfold MapView.selectAndWait.
  cbn [MapView.app MapView.isPlaying MapView.playbackRef MapView.walks
       MapView.clock MapView.selections].
  rewrite Hwalks. cbn [app].
  match goal with
  | |- exists s', MapView.run ?s1 _ = _ /\ _ =>
      destruct (walk_runs_to_its_end rest s1 (t + MapView.dwellMs)%Z)
        as (s' & Hrun & Hsel & Hp & _ & Hwk & Hck & _)
  end.
  - reflexivity.
  - reflexivity.
  - discriminate.
  - exists s'. split; [exact Hrun|].
    cbn [MapView.selections] in Hsel.
    split; [rewrite Hsel, <- app_assoc; reflexivity|].
    split; [exact Hp|]. split; [exact Hwk|].
    rewrite Hck. lia.
Qed.

(** A stop during a dwell, with no restart before the dwell is over:
    when the timer fires the walk ends without another selection, at
    most one dwell time after the stop, and the last selected waypoint
    stays selected. *)
Lemma stop_halts_at_the_dwell_boundary
      (s : MapView.Session) (p : Types.TrekPhoto)
      (rest : list Types.TrekPhoto) (t : Z) :
  MapView.isPlaying s = true ->
  MapView.walks s = [] ->
  (MapView.clock s <= t <= MapView.clock s + MapView.dwellMs)%Z ->
  exists s',
    MapView.run (MapView.selectAndWait p rest s)
                [MapView.ClickJourney t; MapView.TimerFires]
    = Some s'
    /\ MapView.selections s' = MapView.selections s ++ [(MapView.clock s, Types.id p)]
    /\ App.activePhotoId (MapView.app s') = Some (Types.id p)
    /\ MapView.isPlaying s' = false
    /\ MapView.walks s' = []
    /\ (MapView.clock s' - t <= MapView.dwellMs)%Z.
Proof.
  intros Hplay Hwalks [Hlo Hhi].
  cbn [MapView.run MapView.step]. unfold MapView.mayHappenAt.
  unfold MapView.selectAndWait at 1 2.
  cbn [MapView.clock MapView.walks]. rewrite Hwalks. cbn [app MapView.wakeAt].
  apply Z.leb_le in Hlo. apply Z.leb_le in Hhi. rewrite Hlo, Hhi. cbn [andb].
  unfold MapView.toggle, MapView.withClock, MapView.selectAndWait.
  cbn [MapView.isPlaying MapView.app MapView.playbackRef MapView.walks
       MapView.clock MapView.selections].
  rewrite Hplay, Hwalks. unfold MapView.setIsPlayingFalse.
  cbn [MapView.isPlaying MapView.app MapView.playbackRef MapView.walks
       MapView.clock MapView.selections app MapView.pending MapView.wakeAt].
  eexists. split.
  - destruct rest; cbn [MapView.continueWalk MapView.playbackRef];
      unfold MapView.setIsPlayingFalse; cbn [MapView.isPlaying]; reflexivity.
  - destruct rest; cbn; repeat split; apply Z.leb_le in Hlo; lia.
Qed.

(** Runs the session's functions on a state given by its fields. *)
Ltac crank :=
  cbv beta iota zeta
      delta [MapView.run MapView.step MapView.mayHappenAt MapView.toggle
             MapView.withClock MapView.runPlayback MapView.continueWalk
             MapView.selectAndWait MapView.setIsPlayingFalse
             MapView.isPlaying MapView.walks MapView.app MapView.clock
             MapView.selections MapView.playbackRef MapView.pending
             MapView.wakeAt andb];
  fold MapView.run; cbn [app].

(** The defect in general: on any trek of at least two waypoints, a
    journey started at [t0], stopped at [t1] and started again at [t2]
    before the first dwell is over has its first walk go on: at
    [t0 + 3 s] that walk selects the second waypoint, and the walk of the
    restart is pending beside it. *)
Lemma restart_within_the_dwell_resumes_the_walk
      (s : MapView.Session) (p1 p2 : Types.TrekPhoto)
      (rest : list Types.TrekPhoto) (t0 t1 t2 : Z) :
  MapView.isPlaying s = false ->
  MapView.walks s = [] ->
  App.gpsPhotos (App.photos (MapView.app s)) = p1 :: p2 :: rest ->
  (MapView.clock s <= t0 <= t1)%Z ->
  (t1 <= t2 <= t0 + MapView.dwellMs)%Z ->
  exists s',
    MapView.run s [MapView.ClickJourney t0; MapView.ClickJourney t1;
                   MapView.ClickJourney t2; MapView.TimerFires]
    = Some s'
    /\ MapView.selections s'
       = MapView.selections s
         ++ [(t0, Types.id p1); (t2, Types.id p1);
             ((t0 + MapView.dwellMs)%Z, Types.id p2)]
    /\ MapView.isPlaying s' = true
    /\ MapView.walks s'
       = [{| MapView.pending := p2 :: rest;
             MapView.wakeAt := (t2 + MapView.dwellMs)%Z |};
          {| MapView.pending := rest;
             MapView.wakeAt := (t0 + MapView.dwellMs + MapView.dwellMs)%Z |}].
Proof.
  intros Hidle Hwalks Htrek [Hc0 H01] [H12 H2w].
  destruct s as [a playing ref walks clock sels].
  cbn [MapView.isPlaying MapView.walks MapView.app MapView.clock
       MapView.selections] in *.
  subst playing walks.
  assert (E0 : (clock <=? t0)%Z = true) by (apply Z.leb_le; lia).
  assert (E1 : (t0 <=? t1)%Z = true) by (apply Z.leb_le; lia).
  assert (E1w : (t1 <=? t0 + MapView.dwellMs)%Z = true) by (apply Z.leb_le; lia).
  assert (E2 : (t1 <=? t2)%Z = true) by (apply Z.leb_le; lia).
  assert (E2w : (t2 <=? t0 + MapView.dwellMs)%Z = true) by (apply Z.leb_le; lia).
  crank. rewrite E0. crank. rewrite Htrek.
  cbn [List.length Nat.eqb]. crank. rewrite E1, E1w. crank.
  rewrite E2, E2w. crank. cbn [App.setActivePhotoId App.photos].
  rewrite Htrek. cbn [List.length Nat.eqb]. crank.
  eexists. split; [reflexivity|].
  rewrite <- ?app_assoc. repeat split.
Qed.

(** C6, the code at the failing input: the journey over three waypoints
    is started at 0 s, stopped at 1 s and started again at 2 s. When the
    first walk's dwell is over, at 3 s, that walk is not halted: it finds
    the flag set again by the restart and selects the second waypoint;
    two walks now run at once, and when the first one ends, at 9 s, it
    turns off the playback that the second one is still in. *)
Lemma stopped_walk_is_resumed_by_a_restart :
  (exists s,
      MapView.run (Samples.sessionWith Samples.threeStops)
                  [MapView.ClickJourney 0; MapView.ClickJourney 1000;
                   MapView.ClickJourney 2000; MapView.TimerFires]
      = Some s
      /\ MapView.selections s
         = [(0, "origin"); (2000, "origin"); (3000, "east")]%Z%string
      /\ List.length (MapView.walks s) = 2%nat)
  /\ (exists s,
         MapView.run (Samples.sessionWith Samples.threeStops)
                     [MapView.ClickJourney 0; MapView.ClickJourney 1000;
                      MapView.ClickJourney 2000; MapView.TimerFires;
                      MapView.TimerFires; MapView.TimerFires;
                      MapView.TimerFires; MapView.TimerFires]
         = Some s
         /\ MapView.selections s
            = [(0, "origin"); (2000, "origin"); (3000, "east");
               (5000, "east"); (6000, "summit"); (8000, "summit")]%Z%string
         /\ MapView.isPlaying s = false
         /\ MapView.clock s = 9000%Z
         /\ List.length (MapView.walks s) = 1%nat).
Proof.
  split; eexists; (split; [vm_compute; reflexivity|]); repeat split.
Qed.

(** Started on a collection without any geotagged photo, the playback
    never begins its walk and never turns itself off. *)
Example playback_without_waypoints_stays_on :
  exists s,
    MapView.run (Samples.sessionWith [Samples.indoors]) [MapView.ClickJourney 0]
    = Some s
    /\ MapView.isPlaying s = true
    /\ MapView.walks s = []
    /\ MapView.selections s = [].
Proof. eexists. split; [vm_compute; reflexivity|]. repeat split. Qed.

(* ================================================================== *)
(** * Further properties of the code *)
(* ================================================================== *)

(** ** Ordering *)

Section MoreSortFacts.
Variable A : Type.
Variable key : A -> Z.

Let cmp (a b : A) : Z := (key a - key b)%Z.

(** Sorting what is sorted changes nothing. *)
Lemma sort_idempotent (l : list A) :
  JS.sort cmp (JS.sort cmp l) = JS.sort cmp l.
Proof.
  symmetry. apply (sort_unique A key).
  - apply sort_sorted.
  - intros k. reflexivity.
Qed.

Lemma filter_key_short (k : Z) (l : list A) :
  NoDup (map key l) ->
  (List.length (filter (fun y => (key y =? k)%Z) l) <= 1)%nat.
Proof.
  induction l as [|x l IH]; intros Hnd; [cbn; lia|].
  cbn [map] in Hnd. inversion Hnd as [|? ? Hnotin Hnd']; subst.
  cbn [filter]. destruct (Z.eqb_spec (key x) k) as [He|Hne].
  - assert (Hnone : filter (fun y => (key y =? k)%Z) l = []).
    { destruct (filter (fun y => (key y =? k)%Z) l) as [|z r] eqn:Hf;
        [reflexivity|].
      exfalso. apply Hnotin.
      assert (Hz : In z (filter (fun y => (key y =? k)%Z) l))
        by (rewrite Hf; left; reflexivity).
      apply filter_In in Hz. destruct Hz as [Hz Hk].
      apply Z.eqb_eq in Hk. rewrite He, <- Hk. apply in_map, Hz. }
    rewrite Hnone. cbn. lia.
  - apply IH, Hnd'.
Qed.

Lemma filter_perm (P : A -> bool) (l l' : list A) :
  Permutation l l' -> Permutation (filter P l) (filter P l').
Proof.
  induction 1 as [|x l l' _ IH|x y l|l l' l'' _ IH1 _ IH2].
  - constructor.
  - cbn [filter]. destruct (P x); [apply perm_skip|]; exact IH.
  - cbn [filter]. destruct (P x), (P y);
      try apply Permutation_refl. apply perm_swap.
  - exact (perm_trans IH1 IH2).
Qed.

(** With pairwise distinct keys the outcome of the sort does not depend
    on the order of its input. *)
Lemma sort_of_permutation (l l' : list A) :
  Permutation l l' -> NoDup (map key l) ->
  JS.sort cmp l = JS.sort cmp l'.
Proof.
  intros Hperm Hnd. symmetry. apply (sort_unique A key).
  - apply sort_sorted.
  - intros k. rewrite (sort_stable A key).
    pose proof (filter_key_short k l Hnd) as Hlen.
    pose proof (filter_perm (fun y => (key y =? k)%Z) l l' Hperm) as Hp.
    destruct (filter (fun y => (key y =? k)%Z) l) as [|a [|b r]].
    + apply Permutation_nil in Hp. exact Hp.
    + apply Permutation_length_1_inv in Hp. exact Hp.
    + cbn in Hlen. lia.
Qed.

End MoreSortFacts.

Lemma filter_all (A : Type) (P : A -> bool) (l : list A) :
  Forall (fun x => P x = true) l -> filter P l = l.
Proof.
  induction 1 as [|x l Hx _ IH]; [reflexivity|].
  cbn [filter]. rewrite Hx, IH. reflexivity.
Qed.

Lemma filter_twice (A : Type) (P : A -> bool) (l : list A) :
  filter P (filter P l) = filter P l.
Proof.
  apply filter_all. rewrite Forall_forall. intros x Hx.
  apply filter_In in Hx. apply Hx.
Qed.

(** The sorted list of all photos keeps every photo, geotagged or not,
    in ascending order of the sort key, and sorting again changes
    neither it nor the trek. *)
Theorem sortedPhotos_rearranges (photos : list Types.TrekPhoto) :
  Permutation (App.sortedPhotos photos) photos
  /\ List.length (App.sortedPhotos photos) = List.length photos
  /\ StronglySorted (fun a b => (App.timeKey a <= App.timeKey b)%Z)
                    (App.sortedPhotos photos)
  /\ App.sortedPhotos (App.sortedPhotos photos) = App.sortedPhotos photos
  /\ App.gpsPhotos (App.gpsPhotos photos) = App.gpsPhotos photos
  /\ App.gpsPhotos (App.sortedPhotos photos) = App.gpsPhotos photos.
Proof.
  split; [exact (sort_perm _ App.timeKey photos)|].
  split; [exact (sort_length _ App.timeKey photos)|].
  split; [exact (sort_sorted _ App.timeKey photos)|].
  split; [exact (sort_idempotent _ App.timeKey photos)|].
  split.
  - unfold App.gpsPhotos at 1.
    rewrite (filter_all _ _ _ (gpsPhotos_located photos)).
    exact (sort_idempotent _ App.timeKey (filter App.hasLocation photos)).
  - unfold App.gpsPhotos at 1. rewrite sortedPhotos_located.
    exact (sort_idempotent _ App.timeKey (filter App.hasLocation photos)).
Qed.

(** When the geotagged photos have pairwise distinct sort keys, the trek
    does not depend on the order in which the photos were ingested. *)
Theorem gpsPhotos_of_permutation (photos photos' : list Types.TrekPhoto) :
  Permutation photos photos' ->
  NoDup (map App.timeKey (filter App.hasLocation photos)) ->
  App.gpsPhotos photos = App.gpsPhotos photos'.
Proof.
  intros Hperm Hnd.
  apply (sort_of_permutation _ App.timeKey); [|exact Hnd].
  apply filter_perm, Hperm.
Qed.

Lemma gpsPhotos_of_permutation_witness :
  Permutation [Samples.summit; Samples.indoors; Samples.apollo]
              [Samples.apollo; Samples.summit; Samples.indoors]
  /\ NoDup (map App.timeKey
                (filter App.hasLocation
                        [Samples.summit; Samples.indoors; Samples.apollo]))
  /\ App.gpsPhotos [Samples.summit; Samples.indoors; Samples.apollo]
     = App.gpsPhotos [Samples.apollo; Samples.summit; Samples.indoors].
Proof.
  assert (Hperm : Permutation
                    [Samples.summit; Samples.indoors; Samples.apollo]
                    [Samples.apollo; Samples.summit; Samples.indoors]).
  { apply Permutation_sym.
    apply (Permutation_cons_app [Samples.summit; Samples.indoors] []).
    rewrite app_nil_r. apply Permutation_refl. }
  assert (Hnd : NoDup (map App.timeKey
                           (filter App.hasLocation
                              [Samples.summit; Samples.indoors;
                               Samples.apollo]))).
  { cbn. repeat constructor; cbn; intuition discriminate. }
  split; [exact Hperm|]. split; [exact Hnd|].
  exact (gpsPhotos_of_permutation _ _ Hperm Hnd).
Defined.

(** Photos without location take no part in what is derived from the
    trek: the statistics and the export are those of the geotagged
    photos alone. *)
Theorem unlocated_photos_are_ignored {host : Host}
        (photos : list Types.TrekPhoto) (now : Z) :
  App.gpsPhotos (filter App.hasLocation photos) = App.gpsPhotos photos
  /\ App.stats (filter App.hasLocation photos) = App.stats photos
  /\ App.exportGPX (filter App.hasLocation photos) now
     = App.exportGPX photos now.
Proof.
  assert (H : App.gpsPhotos (filter App.hasLocation photos)
              = App.gpsPhotos photos)
    by (unfold App.gpsPhotos; rewrite filter_twice; reflexivity).
  split; [exact H|]. split.
  - unfold App.stats. rewrite H. reflexivity.
  - unfold App.exportGPX. rewrite !sortedPhotos_located, H. reflexivity.
Qed.

(** ** Statistics: peak altitude, duration, distance *)

Lemma locations_In (l : list Types.TrekPhoto) (x : Types.GPSLocation) :
  In x (Spec.locations l)
  <-> exists p, In p l /\ Types.location p = Some x.
Proof.
  induction l as [|p l IH]; cbn [Spec.locations].
  - split; [intros [] | intros (p & [] & _)].
  - destruct (Types.location p) as [y|] eqn:Hy.
    + split.
      * intros [->|Hin].
        -- exists p. split; [left; reflexivity | exact Hy].
        -- apply IH in Hin. destruct Hin as (q & Hq & Hl).
           exists q. split; [right; exact Hq | exact Hl].
      * intros (q & [->|Hq] & Hl).
        -- left. congruence.
        -- right. apply IH. exists q. split; assumption.
    + split.
      * intros Hin. apply IH in Hin. destruct Hin as (q & Hq & Hl).
        exists q. split; [right; exact Hq | exact Hl].
      * intros (q & [->|Hq] & Hl); [congruence|].
        apply IH. exists q. split; assumption.
Qed.

(** The locations of the trek are those of the photos. *)
Lemma trek_locations_In (photos : list Types.TrekPhoto)
      (x : Types.GPSLocation) :
  In x (Spec.locations (App.gpsPhotos photos))
  <-> exists p, In p photos /\ Types.location p = Some x.
Proof.
  rewrite locations_In. split; intros (p & Hp & Hl); exists p.
  - apply (Permutation_in _ (gpsPhotos_perm photos)) in Hp.
    apply filter_In in Hp. split; [apply Hp | exact Hl].
  - split; [|exact Hl].
    apply (Permutation_in _ (Permutation_sym (gpsPhotos_perm photos))).
    apply filter_In. split; [exact Hp|].
    unfold App.hasLocation. rewrite Hl. reflexivity.
Qed.

Lemma Math_max_nan (a b : JS.number) :
  JS.Math_max a b = JS.NotANumber <-> a = JS.NotANumber \/ b = JS.NotANumber.
Proof.
  destruct a as [x|[|]|], b as [y|[|]|]; cbn [JS.Math_max];
    (split;
     [intros H; first [discriminate H | left; reflexivity | right; reflexivity]
     |intros [H|H]; first [discriminate H | reflexivity]]).
Qed.

Lemma Math_max_lowest (a b : JS.number) :
  JS.Math_max a b = JS.Infinity true
  <-> a = JS.Infinity true /\ b = JS.Infinity true.
Proof.
  destruct a as [x|[|]|], b as [y|[|]|]; cbn [JS.Math_max];
    (split;
     [intros H; first [discriminate H | split; reflexivity]
     |intros [H1 H2]; first [discriminate H1 | discriminate H2 | reflexivity]]).
Qed.

Lemma Math_max_finite (a b : JS.number) (m : Q) :
  JS.Math_max a b = JS.Finite m ->
  (a = JS.Finite m \/ b = JS.Finite m)
  /\ (forall x, a = JS.Finite x -> (x <= m)%Q)
  /\ (forall y, b = JS.Finite y -> (y <= m)%Q).
Proof.
  destruct a as [x|[|]|], b as [y|[|]|]; cbn [JS.Math_max];
    try discriminate.
  - destruct (Qle_bool x y) eqn:Hle; intros H; injection H as <-.
    + apply Qle_bool_iff in Hle.
      split; [right; reflexivity|].
      split; [intros x' E; injection E as <-; exact Hle|].
      intros y' E; injection E as <-; apply Qle_refl.
    + assert (Hyx : (y <= x)%Q).
      { destruct (Qlt_le_dec x y) as [Hlt|H]; [|exact H].
        apply Qlt_le_weak, Qle_bool_iff in Hlt. congruence. }
      split; [left; reflexivity|].
      split; [intros x' E; injection E as <-; apply Qle_refl|].
      intros y' E; injection E as <-; exact Hyx.
  - intros H; injection H as <-.
    split; [left; reflexivity|].
    split; [intros x' E; injection E as <-; apply Qle_refl | discriminate].
  - intros H; injection H as <-.
    split; [right; reflexivity|].
    split; [discriminate|].
    intros y' E; injection E as <-; apply Qle_refl.
Qed.

(** An accumulator that is [Infinity] or [NaN] stays one of the two. *)
Lemma Math_max_top (a b : JS.number) :
  a = JS.Infinity false \/ a = JS.NotANumber ->
  JS.Math_max a b = JS.Infinity false \/ JS.Math_max a b = JS.NotANumber.
Proof.
  intros [->| ->]; destruct b as [y|[|]|]; cbn [JS.Math_max]; auto.
Qed.

Lemma fold_bumpMax_top (path : list Types.GPSLocation) (acc : JS.number) :
  acc = JS.Infinity false \/ acc = JS.NotANumber ->
  fold_left App.bumpMax path acc = JS.Infinity false
  \/ fold_left App.bumpMax path acc = JS.NotANumber.
Proof.
  revert acc. induction path as [|l path IH]; intros acc Hacc;
    cbn [fold_left]; [exact Hacc|].
  apply IH. unfold App.bumpMax.
  destruct (Types.alt l) as [a|]; [apply Math_max_top, Hacc | exact Hacc].
Qed.

(** The running maximum over a path, begun at [acc]. *)
Lemma fold_bumpMax_nan (path : list Types.GPSLocation) (acc : JS.number) :
  fold_left App.bumpMax path acc = JS.NotANumber
  <-> acc = JS.NotANumber
      \/ exists l, In l path /\ Types.alt l = Some JS.NotANumber.
Proof.
  revert acc. induction path as [|l path IH]; intros acc; cbn [fold_left].
  - split; [intros H; left; exact H|].
    intros [H|(l & [] & _)]; exact H.
  - rewrite IH. unfold App.bumpMax.
    destruct (Types.alt l) as [a|] eqn:Ha.
    + rewrite Math_max_nan. split.
      * intros [[H|H]|(l' & Hl' & Hn)].
        -- left; exact H.
        -- right. exists l. split; [left; reflexivity | congruence].
        -- right. exists l'. split; [right; exact Hl' | exact Hn].
      * intros [H|(l' & [<-|Hl'] & Hn)].
        -- left; left; exact H.
        -- left; right. congruence.
        -- right. exists l'. split; assumption.
    + split.
      * intros [H|(l' & Hl' & Hn)]; [left; exact H|].
        right. exists l'. split; [right; exact Hl' | exact Hn].
      * intros [H|(l' & [<-|Hl'] & Hn)]; [left; exact H | congruence |].
        right. exists l'. split; assumption.
Qed.

Lemma fold_bumpMax_lowest (path : list Types.GPSLocation) (acc : JS.number) :
  fold_left App.bumpMax path acc = JS.Infinity true
  <-> acc = JS.Infinity true
      /\ forall l a, In l path -> Types.alt l = Some a -> a = JS.Infinity true.
Proof.
  revert acc. induction path as [|l path IH]; intros acc; cbn [fold_left].
  - split; [intros H; split; [exact H | intros l a []] | intros [H _]; exact H].
  - rewrite IH. unfold App.bumpMax.
    destruct (Types.alt l) as [a|] eqn:Ha.
    + rewrite Math_max_lowest. split.
      * intros [[H1 H2] H3]. split; [exact H1|].
        intros l' a' [<-|Hl'] Ha'; [congruence | exact (H3 l' a' Hl' Ha')].
      * intros [H1 H2]. split; [split; [exact H1|]|].
        -- apply (H2 l a); [left; reflexivity | exact Ha].
        -- intros l' a' Hl'. apply H2. right. exact Hl'.
    + split.
      * intros [H1 H3]. split; [exact H1|].
        intros l' a' [<-|Hl'] Ha'; [congruence | exact (H3 l' a' Hl' Ha')].
      * intros [H1 H2]. split; [exact H1|].
        intros l' a' Hl'. apply H2. right. exact Hl'.
Qed.

Lemma fold_bumpMax_finite (path : list Types.GPSLocation) (acc : JS.number)
      (m : Q) :
  fold_left App.bumpMax path acc = JS.Finite m ->
  (acc = JS.Finite m
   \/ exists l, In l path /\ Types.alt l = Some (JS.Finite m))
  /\ (forall x, acc = JS.Finite x -> (x <= m)%Q)
  /\ (forall l a, In l path -> Types.alt l = Some (JS.Finite a) -> (a <= m)%Q).
Proof.
  revert acc. induction path as [|l path IH]; intros acc; cbn [fold_left].
  - intros ->. split; [left; reflexivity|].
    split; [intros x E; injection E as <-; apply Qle_refl | intros l a []].
  - intros Hfold. destruct (IH _ Hfold) as (Hatt & Hacc & Hall).
    assert (Hrest : forall l' a, In l' path ->
                      Types.alt l' = Some (JS.Finite a) -> (a <= m)%Q)
      by exact Hall.
    assert (Hlater : (exists l', In l' path
                                 /\ Types.alt l' = Some (JS.Finite m)) ->
                     exists l', In l' (l :: path)
                                /\ Types.alt l' = Some (JS.Finite m)).
    { intros (l' & Hl' & Hm). exists l'. split; [right; exact Hl' | exact Hm]. }
    destruct (App.bumpMax acc l) as [c|[|]|] eqn:Hstep.
    + assert (Hcm : (c <= m)%Q) by (apply Hacc; reflexivity).
      unfold App.bumpMax in Hstep.
      destruct (Types.alt l) as [a|] eqn:Ha.
      * destruct (Math_max_finite acc a c Hstep) as (Hwhich & Hx & Hy).
        split; [|split].
        -- destruct Hatt as [E|Hex]; [|right; apply Hlater, Hex].
           injection E as E. subst c.
           destruct Hwhich as [Hw|Hw]; [left; exact Hw|].
           right. exists l. split; [left; reflexivity | congruence].
        -- intros x Ex. eapply Qle_trans; [apply (Hx x Ex) | exact Hcm].
        -- intros l' a' [<-|Hl'] Ha'.
           ++ rewrite Ha in Ha'. injection Ha' as Ea.
              eapply Qle_trans; [apply (Hy a' Ea) | exact Hcm].
           ++ exact (Hrest l' a' Hl' Ha').
      * subst acc. split; [|split].
        -- destruct Hatt as [E|Hex]; [left; exact E | right; apply Hlater, Hex].
        -- intros x Ex. injection Ex as <-. exact Hcm.
        -- intros l' a' [<-|Hl'] Ha'; [congruence | exact (Hrest l' a' Hl' Ha')].
    + (* the step gives -Infinity *)
      assert (Hboth : acc = JS.Infinity true
                      /\ forall a, Types.alt l = Some a -> a = JS.Infinity true).
      { unfold App.bumpMax in Hstep. destruct (Types.alt l) as [a|].
        - apply Math_max_lowest in Hstep as [-> ->].
          split; [reflexivity | intros a' E; injection E as <-; reflexivity].
        - split; [exact Hstep | discriminate]. }
      destruct Hboth as [-> Hl]. split; [|split].
      * destruct Hatt as [E|Hex]; [discriminate | right; apply Hlater, Hex].
      * discriminate.
      * intros l' a' [<-|Hl'] Ha'; [|exact (Hrest l' a' Hl' Ha')].
        apply Hl in Ha'. discriminate.
    + exfalso.
      destruct (fold_bumpMax_top path (JS.Infinity false) (or_introl eq_refl));
        congruence.
    + exfalso.
      destruct (fold_bumpMax_top path JS.NotANumber (or_intror eq_refl));
        congruence.
Qed.

(** With at least two geotagged photos, the peak statistic is [null]
    exactly when no geotagged photo has an altitude other than
    [-Infinity], and [NaN] exactly when the altitude of some geotagged
    photo is [NaN], as it is for every picture whose altitude the reader
    describes by a text such as [150 m]. A finite peak is the rounded
    altitude of one of the geotagged photos, and no finite altitude of a
    geotagged photo is higher. *)
Theorem maxAlt_is_the_highest (photos : list Types.TrekPhoto) :
  (2 <= List.length (filter App.hasLocation photos))%nat ->
  exists st,
    App.stats photos = JS.Ok (Some st)
    /\ (App.maxAlt st = None
        <-> forall p l a, In p photos -> Types.location p = Some l ->
                          Types.alt l = Some a -> a = JS.Infinity true)
    /\ (App.maxAlt st = Some JS.NotANumber
        <-> exists p l, In p photos /\ Types.location p = Some l
                        /\ Types.alt l = Some JS.NotANumber)
    /\ (forall z, App.maxAlt st = Some (JS.Finite z) ->
          exists p l m,
            In p photos /\ Types.location p = Some l
            /\ Types.alt l = Some (JS.Finite m)
            /\ z = inject_Z (JS.Math_round m)
            /\ forall p' l' a, In p' photos -> Types.location p' = Some l' ->
                               Types.alt l' = Some (JS.Finite a) ->
                               (a <= m)%Q).
Proof.
  intros Hcount. rewrite stats_value. rewrite <- gpsPhotos_length in Hcount.
  destruct (Nat.ltb_spec (List.length (App.gpsPhotos photos)) 2) as [Hlt|_];
    [lia|].
  eexists. split; [reflexivity|]. cbn [App.maxAlt]. unfold Spec.peakOf.
  set (path := Spec.locations (App.gpsPhotos photos)).
  pose proof (fold_bumpMax_lowest path (JS.Infinity true)) as Hlow.
  pose proof (fold_bumpMax_nan path (JS.Infinity true)) as Hnan.
  pose proof (fold_bumpMax_finite path (JS.Infinity true)) as Hfin.
  destruct (fold_left App.bumpMax path (JS.Infinity true)) as [m|[|]|] eqn:Hf;
    cbn [JS.sameNumber Bool.eqb JS.Math_roundNumber].
  - split; [|split].
    + split; [discriminate|]. intros Hall. exfalso.
      destruct (Hfin m eq_refl) as ([E|(l & Hl & Hm)] & _); [discriminate|].
      apply trek_locations_In in Hl. destruct Hl as (p & Hp & Hpl).
      specialize (Hall p l _ Hp Hpl Hm). discriminate.
    + split; [discriminate|]. intros (p & l & Hp & Hl & Ha). exfalso.
      assert (E : JS.Finite m = JS.NotANumber); [|discriminate].
      apply Hnan. right. exists l. split; [|exact Ha].
      apply trek_locations_In. exists p. split; assumption.
    + intros z Hz. injection Hz as <-.
      destruct (Hfin m eq_refl) as ([E|(l & Hl & Hm)] & _ & Hall);
        [discriminate|].
      apply trek_locations_In in Hl. destruct Hl as (p & Hp & Hpl).
      exists p, l, m. repeat split; try assumption.
      intros p' l' a Hp' Hl' Ha. apply (Hall l' a); [|exact Ha].
      apply trek_locations_In. exists p'. split; assumption.
  - split; [|split].
    + split; [intros _|reflexivity]. intros p l a Hp Hl Ha.
      apply (proj2 (proj1 Hlow eq_refl) l a); [|exact Ha].
      apply trek_locations_In. exists p. split; assumption.
    + split; [discriminate|]. intros (p & l & Hp & Hl & Ha). exfalso.
      assert (E : JS.Infinity true = JS.NotANumber); [|discriminate].
      apply Hnan. right. exists l. split; [|exact Ha].
      apply trek_locations_In. exists p. split; assumption.
    + discriminate.
  - split; [|split].
    + split; [discriminate|]. intros Hall. exfalso.
      assert (E : JS.Infinity false = JS.Infinity true); [|discriminate].
      apply Hlow. split; [reflexivity|]. intros l a Hl Ha.
      apply trek_locations_In in Hl. destruct Hl as (p & Hp & Hpl).
      exact (Hall p l a Hp Hpl Ha).
    + split; [discriminate|]. intros (p & l & Hp & Hl & Ha). exfalso.
      assert (E : JS.Infinity false = JS.NotANumber); [|discriminate].
      apply Hnan. right. exists l. split; [|exact Ha].
      apply trek_locations_In. exists p. split; assumption.
    + discriminate.
  - split; [|split].
    + split; [discriminate|]. intros Hall. exfalso.
      assert (E : JS.NotANumber = JS.Infinity true); [|discriminate].
      apply Hlow. split; [reflexivity|]. intros l a Hl Ha.
      apply trek_locations_In in Hl. destruct Hl as (p & Hp & Hpl).
      exact (Hall p l a Hp Hpl Ha).
    + split; [intros _|reflexivity].
      destruct (proj1 Hnan eq_refl) as [E|(l & Hl & Ha)]; [discriminate|].
      apply trek_locations_In in Hl. destruct Hl as (p & Hp & Hpl).
      exists p, l. repeat split; assumption.
    + discriminate.
Qed.

(** At what the ingestion of two pictures leaves whose altitudes the
    reader describes by the texts [150 m] and [0 m]: the peak is [NaN]. *)
Lemma maxAlt_is_the_highest_witness :
  (2 <= List.length
          (filter App.hasLocation
                  (App.photos
                     (@App.ingest Demo.host [Samples.newYear; Samples.beach]
                                  App.initial))))%nat
  /\ exists st,
       App.stats
         (App.photos
            (@App.ingest Demo.host [Samples.newYear; Samples.beach]
                         App.initial))
       = JS.Ok (Some st)
       /\ App.maxAlt st = Some JS.NotANumber.
Proof.
  assert (H : (2 <= List.length
                      (filter App.hasLocation
                         (App.photos
                            (@App.ingest Demo.host
                               [Samples.newYear; Samples.beach]
                               App.initial))))%nat) by (vm_compute; lia).
  split; [exact H|].
  destruct (maxAlt_is_the_highest _ H) as (st & Hst & _ & Hnan & _).
  exists st. split; [exact Hst|]. apply Hnan.
  eexists. eexists. split; [left; reflexivity|]. split; reflexivity.
Defined.

(** [Math.round] of a whole number of milliseconds in minutes. *)
Lemma round_minutes (d : Z) :
  JS.Math_round (inject_Z d / 60000) = ((d + 30000) / 60000)%Z.
Proof.
  unfold JS.Math_round, Qfloor, Qdiv, Qinv, Qmult, Qplus, inject_Z.
  cbn [Qnum Qden].
  change (Z.pos (1 * 60000)) with 60000%Z.
  change (Z.pos (1 * 60000 * 2)) with (2 * 60000)%Z.
  replace (d * 1 * 2 + 1 * 60000)%Z with (2 * (d + 30000))%Z by lia.
  apply Z.div_mul_cancel_l; lia.
Qed.

Lemma sorted_head_last (A : Type) (key : A -> Z) (a : A) (l : list A) :
  StronglySorted (fun x y => (key x <= key y)%Z) (a :: l) ->
  (key a <= key (last (a :: l) a))%Z.
Proof.
  intros Hs. inversion Hs as [|? ? _ Hall]; subst.
  destruct l as [|b l]; [cbn; lia|].
  rewrite Forall_forall in Hall. apply Hall.
  change (last (a :: b :: l) a) with (last (b :: l) a).
  destruct (exists_last (l := b :: l)) as (init & z & Hz); [discriminate|].
  rewrite Hz, last_last. apply in_or_app. right. left. reflexivity.
Qed.

Lemma locations_last (l : list Types.TrekPhoto) (p : Types.TrekPhoto)
      (x d : Types.GPSLocation) :
  Forall (fun q => App.hasLocation q = true) (p :: l) ->
  Types.location (last (p :: l) p) = Some x ->
  last (Spec.locations (p :: l)) d = x.
Proof.
  intros Hall Hx.
  destruct (exists_last (l := p :: l)) as (init & z & Hz); [discriminate|].
  rewrite Hz in *. rewrite last_last in Hx.
  rewrite locations_app. cbn [Spec.locations]. rewrite Hx.
  apply last_last.
Qed.

(** With at least two geotagged photos, the duration statistic is taken
    between the first and the last photo of the trek: [null] when either
    has no timestamp, [NaN] when either is an Invalid Date, and otherwise
    the time between them in minutes, rounded half up, which is never
    negative. *)
Theorem duration_between_the_ends (photos : list Types.TrekPhoto) :
  (2 <= List.length (filter App.hasLocation photos))%nat ->
  exists st first rest l0 l1,
    App.stats photos = JS.Ok (Some st)
    /\ App.gpsPhotos photos = first :: rest
    /\ Types.location first = Some l0
    /\ Types.location (last rest first) = Some l1
    /\ App.duration st
       = match Types.timestamp l0, Types.timestamp l1 with
         | Some (JS.ValidDate t0), Some (JS.ValidDate t1) =>
             Some (JS.Int ((t1 - t0 + 30000) / 60000))
         | Some _, Some _ => Some JS.NaN
         | _, _ => None
         end
    /\ (forall t0 t1,
          Types.timestamp l0 = Some (JS.ValidDate t0) ->
          Types.timestamp l1 = Some (JS.ValidDate t1) ->
          (t0 <= t1 /\ 0 <= (t1 - t0 + 30000) / 60000)%Z).
Proof.
  intros Hcount. rewrite stats_value. rewrite <- gpsPhotos_length in Hcount.
  pose proof (gpsPhotos_located photos) as Hall.
  pose proof (gpsPhotos_sorted photos) as Hsorted.
  destruct (Nat.ltb_spec (List.length (App.gpsPhotos photos)) 2) as [Hlt|_];
    [lia|].
  destruct (App.gpsPhotos photos) as [|first [|second rest]] eqn:Htrek;
    try (cbn in Hcount; lia).
  set (final := last (second :: rest) first).
  assert (Hfinal_in : In final (first :: second :: rest)).
  { right. unfold final.
    destruct (exists_last (l := second :: rest)) as (init & z & Hz);
      [discriminate|].
    rewrite Hz, last_last. apply in_or_app. right. left. reflexivity. }
  assert (Hl0 : exists l0, Types.location first = Some l0).
  { rewrite Forall_forall in Hall.
    specialize (Hall first (or_introl eq_refl)). unfold App.hasLocation in Hall.
    destruct (Types.location first); [eexists; reflexivity | discriminate]. }
  assert (Hl1 : exists l1, Types.location final = Some l1).
  { rewrite Forall_forall in Hall.
    specialize (Hall final Hfinal_in). unfold App.hasLocation in Hall.
    destruct (Types.location final); [eexists; reflexivity | discriminate]. }
  destruct Hl0 as [l0 Hl0]. destruct Hl1 as [l1 Hl1].
  eexists. exists first, (second :: rest), l0, l1.
  split; [reflexivity|]. split; [reflexivity|].
  split; [exact Hl0|]. split; [exact Hl1|].
  cbn [App.duration]. split.
  - unfold Spec.durationOf.
    assert (Hhead : exists tl, Spec.locations (first :: second :: rest)
                               = l0 :: tl).
    { cbn [Spec.locations]. rewrite Hl0. eexists; reflexivity. }
    destruct Hhead as [tl Htl].
    assert (Hlast : last (Spec.locations (first :: second :: rest)) l0 = l1).
    { apply (locations_last _ first l1 l0 Hall).
      change (last (first :: second :: rest) first) with final. exact Hl1. }
    rewrite Htl in *. rewrite Hlast.
    destruct (Types.timestamp l0) as [[t0|]|], (Types.timestamp l1) as [[t1|]|];
      try reflexivity.
    cbn [JS.getTime App.minutesBetween]. rewrite round_minutes. reflexivity.
  - intros t0 t1 H0 H1.
    pose proof (sorted_head_last _ App.timeKey first (second :: rest) Hsorted)
      as Hle.
    change (last (first :: second :: rest) first) with final in Hle.
    unfold App.timeKey, App.timeOf in Hle. rewrite Hl0, Hl1, H0, H1 in Hle.
    cbn in Hle. split; [exact Hle|].
    apply Z.div_pos; lia.
Qed.

Lemma duration_between_the_ends_witness :
  (2 <= List.length
          (filter App.hasLocation [Samples.summit; Samples.apollo]))%nat
  /\ exists st first rest l0 l1,
       App.stats [Samples.summit; Samples.apollo] = JS.Ok (Some st)
       /\ App.gpsPhotos [Samples.summit; Samples.apollo] = first :: rest
       /\ Types.location first = Some l0
       /\ Types.location (last rest first) = Some l1
       /\ App.duration st
          = match Types.timestamp l0, Types.timestamp l1 with
            | Some (JS.ValidDate t0), Some (JS.ValidDate t1) =>
                Some (JS.Int ((t1 - t0 + 30000) / 60000))
            | Some _, Some _ => Some JS.NaN
            | _, _ => None
            end.
Proof.
  assert (H : (2 <= List.length
                      (filter App.hasLocation
                              [Samples.summit; Samples.apollo]))%nat)
    by (cbn; lia).
  split; [exact H|].
  destruct (duration_between_the_ends _ H)
    as (st & first & rest & l0 & l1 & H1 & H2 & H3 & H4 & H5 & _).
  exists st, first, rest, l0, l1. repeat split; assumption.
Defined.

(** ** The haversine distance *)

Lemma segmentKm_haversineA (p1 p2 : Types.GPSLocation) :
  App.segmentKm p1 p2
  = (6371 * (2 * JS.Math_atan2 (sqrt (Spec.haversineA p1 p2))
                               (sqrt (1 - Spec.haversineA p1 p2))))%R.
Proof. reflexivity. Qed.

Lemma sin_sqr_neg (u : R) : (sin (- u) ^ 2 = sin u ^ 2)%R.
Proof. rewrite sin_neg. ring. Qed.

Lemma haversineA_sym (p1 p2 : Types.GPSLocation) :
  Spec.haversineA p1 p2 = Spec.haversineA p2 p1.
Proof.
  unfold Spec.haversineA.
  replace ((Q2R (Types.lat p2) - Q2R (Types.lat p1)) * PI / 180 / 2)%R
    with (- ((Q2R (Types.lat p1) - Q2R (Types.lat p2)) * PI / 180 / 2))%R
    by lra.
  replace ((Q2R (Types.lng p2) - Q2R (Types.lng p1)) * PI / 180 / 2)%R
    with (- ((Q2R (Types.lng p1) - Q2R (Types.lng p2)) * PI / 180 / 2))%R
    by lra.
  rewrite !sin_sqr_neg. ring.
Qed.

Lemma segmentKm_sym (p1 p2 : Types.GPSLocation) :
  App.segmentKm p1 p2 = App.segmentKm p2 p1.
Proof. rewrite !segmentKm_haversineA, haversineA_sym. reflexivity. Qed.

Lemma pathLengthKm_snoc (path : list Types.GPSLocation)
      (a b : Types.GPSLocation) :
  Spec.pathLengthKm (path ++ [a; b])
  = (Spec.pathLengthKm (path ++ [a]) + App.segmentKm a b)%R.
Proof.
  induction path as [|x path IH].
  - cbn. ring.
  - destruct path as [|y path].
    + cbn. ring.
    + change (Spec.pathLengthKm ((x :: y :: path) ++ [a; b]))
        with (App.segmentKm x y + Spec.pathLengthKm ((y :: path) ++ [a; b]))%R.
      change (Spec.pathLengthKm ((x :: y :: path) ++ [a]))
        with (App.segmentKm x y + Spec.pathLengthKm ((y :: path) ++ [a]))%R.
      rewrite IH. ring.
Qed.

Lemma pathLengthKm_rev (path : list Types.GPSLocation) :
  Spec.pathLengthKm (rev path) = Spec.pathLengthKm path.
Proof.
  induction path as [|a path IH]; [reflexivity|].
  destruct path as [|b path]; [reflexivity|].
  change (rev (a :: b :: path)) with ((rev path ++ [b]) ++ [a]).
  rewrite <- app_assoc. cbn [app].
  rewrite pathLengthKm_snoc.
  change (rev path ++ [b]) with (rev (b :: path)). rewrite IH.
  cbn [Spec.pathLengthKm]. rewrite (segmentKm_sym b a). ring.
Qed.

(** The distance between two photos does not depend on which of them
    comes first, so a path walked backwards has the same length. *)
Theorem distance_is_symmetric (p1 p2 : Types.GPSLocation)
        (path : list Types.GPSLocation) :
  App.segmentKm p1 p2 = App.segmentKm p2 p1
  /\ Spec.pathLengthKm (rev path) = Spec.pathLengthKm path.
Proof. split; [apply segmentKm_sym | apply pathLengthKm_rev]. Qed.

Lemma cos_sqr_half (u : R) : (cos (u / 2) ^ 2 = (1 + cos u) / 2)%R.
Proof.
  replace u with (2 * (u / 2))%R at 2 by field.
  rewrite cos_2a_cos. unfold Rsqr. field.
Qed.

(** In exact arithmetic the haversine term of two points with latitudes
    within [-90, 90] lies between 0 and 1, so that neither square root of
    [segmentKm] is taken of a negative number there. (In doubles the term
    can round above 1 for nearly antipodal points; see the conventions at
    the head of the file.) *)
Lemma haversineA_bounds (p1 p2 : Types.GPSLocation) :
  (-90 <= Q2R (Types.lat p1) <= 90)%R ->
  (-90 <= Q2R (Types.lat p2) <= 90)%R ->
  (0 <= Spec.haversineA p1 p2 <= 1)%R.
Proof.
  intros H1 H2. unfold Spec.haversineA.
  pose proof PI_RGT_0 as Hpi.
  set (f1 := (Q2R (Types.lat p1) * PI / 180)%R).
  set (f2 := (Q2R (Types.lat p2) * PI / 180)%R).
  set (dl := ((Q2R (Types.lng p2) - Q2R (Types.lng p1)) * PI / 180 / 2)%R).
  replace ((Q2R (Types.lat p2) - Q2R (Types.lat p1)) * PI / 180 / 2)%R
    with ((f2 - f1) / 2)%R by (unfold f1, f2; field).
  assert (Hf1 : (- (PI / 2) <= f1 <= PI / 2)%R).
  { unfold f1. split.
    - replace (- (PI / 2))%R with (-90 * PI / 180)%R by field.
      unfold Rdiv. apply Rmult_le_compat_r; [lra|].
      apply Rmult_le_compat_r; lra.
    - replace (PI / 2)%R with (90 * PI / 180)%R by field.
      unfold Rdiv. apply Rmult_le_compat_r; [lra|].
      apply Rmult_le_compat_r; lra. }
  assert (Hf2 : (- (PI / 2) <= f2 <= PI / 2)%R).
  { unfold f2. split.
    - replace (- (PI / 2))%R with (-90 * PI / 180)%R by field.
      unfold Rdiv. apply Rmult_le_compat_r; [lra|].
      apply Rmult_le_compat_r; lra.
    - replace (PI / 2)%R with (90 * PI / 180)%R by field.
      unfold Rdiv. apply Rmult_le_compat_r; [lra|].
      apply Rmult_le_compat_r; lra. }
  assert (Hc1 : (0 <= cos f1)%R) by (apply cos_ge_0; lra).
  assert (Hc2 : (0 <= cos f2)%R) by (apply cos_ge_0; lra).
  assert (Hcc : (0 <= cos f1 * cos f2)%R) by (apply Rmult_le_pos; assumption).
  assert (Hs : (0 <= sin dl ^ 2 <= 1)%R).
  { pose proof (SIN_bound dl) as [Hlo Hhi]. split; nra. }
  assert (Hsd : (0 <= sin ((f2 - f1) / 2) ^ 2)%R) by nra.
  split.
  - assert (0 <= cos f1 * cos f2 * sin dl ^ 2)%R
      by (apply Rmult_le_pos; [exact Hcc | apply Hs]).
    lra.
  - assert (Hprod : (cos f1 * cos f2 <= cos ((f2 - f1) / 2) ^ 2)%R).
    { rewrite cos_sqr_half.
      pose proof (COS_bound (f2 + f1)) as [_ Hub].
      rewrite cos_minus. rewrite cos_plus in Hub. lra. }
    assert (Hterm : (cos f1 * cos f2 * sin dl ^ 2 <= cos f1 * cos f2)%R)
      by nra.
    pose proof (sin2_cos2 ((f2 - f1) / 2)) as E. unfold Rsqr in E.
    lra.
Qed.

(** ** Extraction *)

(** ** [Number] of a text with a unit *)

Lemma occurs_dropWhile (c : ascii) (f : ascii -> bool) (s : string) :
  Spec.occurs c s = true -> f c = false ->
  Spec.occurs c (JS.dropWhile f s) = true.
Proof.
  intros Hs Hc. induction s as [|d s IH]; [discriminate|].
  cbn [JS.dropWhile]. destruct (f d) eqn:Hd; [|exact Hs].
  apply IH. cbn [Spec.occurs] in Hs. apply orb_true_iff in Hs as [Hs|Hs];
    [|exact Hs].
  apply Ascii.eqb_eq in Hs. subst d. congruence.
Qed.

Lemma occurs_reverseOnto (c : ascii) (s acc : string) :
  Spec.occurs c (JS.reverseOnto s acc) = Spec.occurs c s || Spec.occurs c acc.
Proof.
  revert acc. induction s as [|d s IH]; intros acc; [reflexivity|].
  cbn [JS.reverseOnto Spec.occurs]. rewrite IH. cbn [Spec.occurs].
  destruct (Ascii.eqb d c), (Spec.occurs c s), (Spec.occurs c acc);
    reflexivity.
Qed.

Lemma occurs_reverse (c : ascii) (s : string) :
  Spec.occurs c (JS.reverse s) = Spec.occurs c s.
Proof.
  unfold JS.reverse. rewrite occurs_reverseOnto. cbn [Spec.occurs].
  apply orb_false_r.
Qed.

Lemma occurs_trim (c : ascii) (s : string) :
  Spec.occurs c s = true -> JS.isWhiteSpace c = false ->
  Spec.occurs c (JS.trim s) = true.
Proof.
  intros Hs Hc. unfold JS.trim. rewrite occurs_reverse.
  apply occurs_dropWhile; [|exact Hc]. rewrite occurs_reverse.
  apply occurs_dropWhile; assumption.
Qed.

Lemma occurs_tail (c d : ascii) (s : string) :
  Spec.occurs c (String d s) = true -> Ascii.eqb d c = false ->
  Spec.occurs c s = true.
Proof. cbn [Spec.occurs]. intros H E. rewrite E in H. exact H. Qed.

Lemma readDigits_unit (base : Z) (s : string) (acc : Z) :
  Spec.occurs "m" s = true -> JS.readDigits base s acc = None.
Proof.
  revert acc. induction s as [|c s IH]; intros acc Hs; [discriminate|].
  cbn [JS.readDigits].
  destruct (Ascii.eqb_spec c "m"%char) as [->|Hc].
  - unfold JS.digitValue. cbn. rewrite Z.ltb_irrefl. reflexivity.
  - destruct (JS.digitValue base c); [|reflexivity].
    apply IH. apply (occurs_tail _ c); [exact Hs|].
    apply Ascii.eqb_neq, Hc.
Qed.

Lemma readInteger_unit (base : Z) (s : string) :
  Spec.occurs "m" s = true -> JS.readInteger base s = None.
Proof.
  intros Hs. destruct s; [discriminate|]. apply readDigits_unit, Hs.
Qed.

Lemma readNonDecimal_unit (s : string) :
  Spec.occurs "m" s = true -> JS.readNonDecimal s = None.
Proof.
  intros Hs. unfold JS.readNonDecimal.
  destruct s as [|c0 s]; [reflexivity|].
  destruct (Ascii.eqb_spec c0 "0"%char) as [->|H0].
  2:{ destruct c0 as [[] [] [] [] [] [] [] []];
        first [reflexivity | contradiction H0; reflexivity]. }
  apply (occurs_tail _ "0"%char) in Hs; [|reflexivity].
  destruct s as [|c digits]; [reflexivity|].
  destruct (Ascii.eqb_spec c "m"%char) as [->|Hc]; [reflexivity|].
  apply (occurs_tail _ c) in Hs; [|apply Ascii.eqb_neq, Hc].
  rewrite !(readInteger_unit _ digits Hs).
  destruct (Ascii.eqb c "b" || Ascii.eqb c "B"); [reflexivity|].
  destruct (Ascii.eqb c "o" || Ascii.eqb c "O"); [reflexivity|].
  destruct (Ascii.eqb c "x" || Ascii.eqb c "X"); reflexivity.
Qed.

Lemma readExponent_unit (s : string) :
  Spec.occurs "m" s = true -> JS.readExponent s = None.
Proof.
  intros Hs. unfold JS.readExponent.
  destruct s as [|c s]; [discriminate|].
  destruct (Ascii.eqb_spec c "m"%char) as [->|Hc]; [reflexivity|].
  apply (occurs_tail _ c) in Hs; [|apply Ascii.eqb_neq, Hc].
  destruct (Ascii.eqb c "e" || Ascii.eqb c "E"); [|reflexivity].
  destruct s as [|d digits]; [discriminate|].
  destruct (Ascii.eqb_spec d "m"%char) as [->|Hd]; [reflexivity|].
  pose proof (readInteger_unit 10 (String d digits) Hs) as Hall.
  apply (occurs_tail _ d) in Hs; [|apply Ascii.eqb_neq, Hd].
  pose proof (readInteger_unit 10 digits Hs) as Hrest.
  destruct d as [[] [] [] [] [] [] [] []];
    first [exact Hall | rewrite Hrest; reflexivity].
Qed.

Lemma readUnsignedDecimal_unit (s : string) :
  Spec.occurs "m" s = true -> JS.readUnsignedDecimal s = None.
Proof.
  intros Hs. unfold JS.readUnsignedDecimal.
  pose proof (occurs_dropWhile "m" JS.isDigit s Hs eq_refl) as Hafter.
  destruct (JS.dropWhile JS.isDigit s) as [|c rest] eqn:Hd; [discriminate|].
  assert (Hexp : JS.readExponent
                   match String c rest with
                   | String "." s' => JS.dropWhile JS.isDigit s'
                   | _ => String c rest
                   end = None).
  { apply readExponent_unit.
    destruct (Ascii.eqb_spec c "."%char) as [->|Hc].
    - apply occurs_dropWhile; [|reflexivity].
      apply (occurs_tail _ "."%char); [exact Hafter | reflexivity].
    - destruct c as [[] [] [] [] [] [] [] []];
        first [exact Hafter | contradiction Hc; reflexivity]. }
  rewrite Hexp.
  destruct (JS.truthyString _ || JS.truthyString _); [|reflexivity].
  destruct (JS.readDigits 10 _ 0); reflexivity.
Qed.

Lemma readUnsigned_unit (s : string) :
  Spec.occurs "m" s = true -> JS.readUnsigned s = JS.NotANumber.
Proof.
  intros Hs. unfold JS.readUnsigned.
  destruct (String.eqb_spec s "Infinity") as [->|_]; [discriminate|].
  rewrite (readUnsignedDecimal_unit s Hs). reflexivity.
Qed.

(** A text in which the letter [m] occurs, such as the [150 m] by which
    the reader describes an altitude, is no numeric literal. *)
Lemma Number_of_text_with_unit (s : string) :
  Spec.occurs "m" s = true -> JS.Number_ofString s = JS.NotANumber.
Proof.
  intros Hs. unfold JS.Number_ofString.
  pose proof (occurs_trim "m" s Hs eq_refl) as Ht.
  destruct (JS.trim s) as [|c t]; [discriminate|].
  rewrite (readNonDecimal_unit _ Ht).
  destruct (Ascii.eqb_spec c "m"%char) as [->|Hc].
  - cbn [Ascii.eqb Bool.eqb]. apply readUnsigned_unit. reflexivity.
  - pose proof (occurs_tail "m" c t Ht (proj2 (Ascii.eqb_neq _ _) Hc)) as Htail.
    destruct (Ascii.eqb c "+"); [apply readUnsigned_unit, Htail|].
    destruct (Ascii.eqb c "-");
      [rewrite (readUnsigned_unit t Htail); reflexivity|].
    apply readUnsigned_unit, Ht.
Qed.

(** What [extractGpsData] returns, read off the tags: no location when
    the reader fails or a coordinate is missing; otherwise the two
    coordinates as tagged. The altitude is absent exactly when the
    altitude tag is absent or its description is falsy, the number 0 or
    the empty text; a description that is another number is the
    altitude; a description that is text is the altitude [Number] makes
    of it, which is [NaN] for a text with a unit such as [150 m]. The
    timestamp is absent exactly when the date tag is absent or its
    description is missing or empty; any other description gives a
    timestamp, the date the normalised text parses to. *)
Theorem extractGpsData_by_tags {host : Host} (file : File.t) :
  exists r,
    ExifService.extractGpsData file = JS.Ok r
    /\ (r = None <->
        (exists e, ExifReader_load file = JS.Throw e)
        \/ (exists tags, ExifReader_load file = JS.Ok tags
                         /\ (Exif.GPSLatitude tags = None
                             \/ Exif.GPSLongitude tags = None)))
    /\ (forall l, r = Some l ->
          exists tags,
            ExifReader_load file = JS.Ok tags
            /\ Exif.GPSLatitude tags = Some (Types.lat l)
            /\ Exif.GPSLongitude tags = Some (Types.lng l)
            /\ (Types.alt l = None <->
                Exif.GPSAltitude tags = None
                \/ (exists x, Exif.GPSAltitude tags = Some (JS.DNumber x)
                              /\ (x == 0)%Q)
                \/ Exif.GPSAltitude tags = Some (JS.DText EmptyString))
            /\ (forall x, Exif.GPSAltitude tags = Some (JS.DNumber x) ->
                          ~ (x == 0)%Q ->
                          Types.alt l = Some (JS.Finite x))
            /\ (forall s, Exif.GPSAltitude tags = Some (JS.DText s) ->
                          s <> EmptyString ->
                          Types.alt l = Some (JS.Number_ofString s))
            /\ (forall s, Exif.GPSAltitude tags = Some (JS.DText s) ->
                          Spec.occurs "m" s = true ->
                          Types.alt l = Some JS.NotANumber)
            /\ (Types.timestamp l = None <->
                Exif.DateTimeOriginal tags = None
                \/ Exif.DateTimeOriginal tags = Some None
                \/ Exif.DateTimeOriginal tags = Some (Some EmptyString))
            /\ (forall s, Exif.DateTimeOriginal tags = Some (Some s) ->
                          s <> EmptyString ->
                          Types.timestamp l
                          = Some (ExifService.newDate
                                    (ExifService.normalizeExifDate s)))).
Proof.
  unfold ExifService.extractGpsData.
  destruct (ExifReader_load file) as [tags|e] eqn:Hload;
    cbn [JS.bind JS.tryCatch].
  2:{ exists None. split; [reflexivity|]. split.
      - split; [intros _; left; exists e; reflexivity | reflexivity].
      - intros l Hl. discriminate. }
  destruct (Exif.GPSLatitude tags) as [la|] eqn:Hla.
  2:{ exists None. split; [reflexivity|]. split.
      - split; [|reflexivity]. intros _. right. exists tags.
        split; [reflexivity | left; exact Hla].
      - intros l Hl. discriminate. }
  destruct (Exif.GPSLongitude tags) as [lo|] eqn:Hlo.
  2:{ exists None. split; [reflexivity|]. split.
      - split; [|reflexivity]. intros _. right. exists tags.
        split; [reflexivity | right; exact Hlo].
      - intros l Hl. discriminate. }
  eexists. split; [reflexivity|]. split.
  - split; [discriminate|].
    intros [[e He]|(tags' & Ht & [H|H])]; [discriminate| |];
      injection Ht as <-; congruence.
  - intros l Hl. injection Hl as <-. exists tags.
    cbn [Types.lat Types.lng Types.alt Types.timestamp].
    split; [reflexivity|]. split; [exact Hla|]. split; [exact Hlo|].
    split; [|split; [|split; [|split; [|split]]]].
    + destruct (Exif.GPSAltitude tags) as [[x|s]|];
        cbn [JS.truthyDescription JS.Number].
      * unfold JS.truthy. destruct (Qeq_bool x 0) eqn:Hx; cbn [negb].
        -- split; [|reflexivity]. intros _. right. left. exists x.
           split; [reflexivity | apply Qeq_bool_eq, Hx].
        -- split; [discriminate|].
           intros [H|[(x' & Hx' & Hz)|H]]; try discriminate.
           injection Hx' as <-. apply Qeq_eq_bool in Hz. congruence.
      * destruct s as [|c s]; cbn [JS.truthyString].
        -- split; [intros _; right; right; reflexivity | reflexivity].
        -- split; [discriminate|].
           intros [H|[(x' & Hx' & _)|H]]; discriminate.
      * split; [intros _; left; reflexivity | reflexivity].
    + intros x Hx Hnz. rewrite Hx. cbn [JS.truthyDescription JS.Number].
      unfold JS.truthy. destruct (Qeq_bool x 0) eqn:Hq; [|reflexivity].
      apply Qeq_bool_eq in Hq. contradiction.
    + intros s Hs Hne. rewrite Hs. cbn [JS.truthyDescription JS.Number].
      destruct s; [contradiction | reflexivity].
    + intros s Hs Hm. rewrite Hs. cbn [JS.truthyDescription JS.Number].
      rewrite (Number_of_text_with_unit s Hm).
      destruct s; [discriminate | reflexivity].
    + unfold ExifService.originalDate.
      destruct (Exif.DateTimeOriginal tags) as [[s|]|]; cbn [option_map].
      * rewrite normalizeExifDate_truthy.
        destruct s as [|c s]; cbn [JS.truthyString].
        -- split; [intros _; right; right; reflexivity | reflexivity].
        -- split; [discriminate|]. intros [H|[H|H]]; discriminate.
      * split; [intros _; right; left; reflexivity | reflexivity].
      * split; [intros _; left; reflexivity | reflexivity].
    + intros s Hs Hne. unfold ExifService.originalDate. rewrite Hs.
      cbn [option_map]. rewrite normalizeExifDate_truthy.
      destruct s; [contradiction | reflexivity].
Qed.

(** Rewriting the date of an EXIF tag keeps the length of the text, and
    a text rewritten once is left alone by a second pass. *)
Theorem normalizeExifDate_idempotent (s : string) :
  String.length (ExifService.normalizeExifDate s) = String.length s
  /\ ExifService.normalizeExifDate (ExifService.normalizeExifDate s)
     = ExifService.normalizeExifDate s.
Proof.
  unfold ExifService.normalizeExifDate at 1 3 4.
  do 10 (destruct s as [|? s]; [split; reflexivity|]).
  match goal with |- context [if ?c then _ else _] => destruct c eqn:Hc end.
  - split; [reflexivity|].
    unfold ExifService.normalizeExifDate.
    replace (Ascii.eqb "-"%char ":"%char) with false by reflexivity.
    rewrite !andb_false_r. cbn [andb]. reflexivity.
  - split; [reflexivity|].
    unfold ExifService.normalizeExifDate. rewrite Hc. reflexivity.
Qed.

(** ** The data URL *)

Lemma afterChar_app (c : ascii) (a b : string) :
  Spec.occurs c a = false ->
  JS.afterChar c (a ++ String c b) = Some b.
Proof.
  induction a as [|x a IH]; cbn [append JS.afterChar Spec.occurs].
  - rewrite Ascii.eqb_refl. reflexivity.
  - intros H. apply orb_false_iff in H as [Hx Ha]. rewrite Hx. apply IH, Ha.
Qed.

Lemma afterChar_none (c : ascii) (a : string) :
  Spec.occurs c a = false -> JS.afterChar c a = None.
Proof.
  induction a as [|x a IH]; cbn [JS.afterChar Spec.occurs]; [reflexivity|].
  intros H. apply orb_false_iff in H as [Hx Ha]. rewrite Hx. apply IH, Ha.
Qed.

Lemma beforeChar_app (c : ascii) (a b : string) :
  Spec.occurs c a = false ->
  JS.beforeChar c (a ++ String c b) = a.
Proof.
  induction a as [|x a IH]; cbn [append JS.beforeChar Spec.occurs].
  - rewrite Ascii.eqb_refl. reflexivity.
  - intros H. apply orb_false_iff in H as [Hx Ha]. rewrite Hx.
    rewrite IH by exact Ha. reflexivity.
Qed.

Lemma beforeChar_none (c : ascii) (a : string) :
  Spec.occurs c a = false -> JS.beforeChar c a = a.
Proof.
  induction a as [|x a IH]; cbn [JS.beforeChar Spec.occurs]; [reflexivity|].
  intros H. apply orb_false_iff in H as [Hx Ha]. rewrite Hx.
  rewrite IH by exact Ha. reflexivity.
Qed.

(** The encoding of a file is what follows the first comma of the data
    URL the reader produced, up to a second comma if there is one; a
    result without a comma gives the empty string, and a failure of the
    reader is passed on. *)
Theorem base64_of_a_data_url {host : Host} (file : File.t)
        (header payload more : string) :
  Spec.occurs ","%char header = false ->
  Spec.occurs ","%char payload = false ->
  ExifService.base64Part (Some (header ++ "," ++ payload)%string) = payload
  /\ ExifService.base64Part
       (Some (header ++ "," ++ payload ++ "," ++ more)%string)
     = payload
  /\ ExifService.base64Part (Some header) = EmptyString
  /\ (FileReader_readAsDataURL file
      = JS.Ok (Some (header ++ "," ++ payload)%string) ->
      ExifService.fileToBase64 file = JS.Ok payload)
  /\ (forall e, FileReader_readAsDataURL file = JS.Throw e ->
                ExifService.fileToBase64 file = JS.Throw e).
Proof.
  intros Hh Hp.
  assert (H1 : ExifService.base64Part (Some (header ++ "," ++ payload)%string)
               = payload).
  { unfold ExifService.base64Part, JS.splitComma1.
    change ("," ++ payload)%string with (String ","%char payload).
    rewrite afterChar_app by exact Hh. cbn [option_map].
    apply beforeChar_none, Hp. }
  split; [exact H1|]. split; [|split; [|split]].
  - unfold ExifService.base64Part, JS.splitComma1.
    change ("," ++ payload ++ "," ++ more)%string
      with (String ","%char (payload ++ String ","%char more)%string).
    rewrite afterChar_app by exact Hh. cbn [option_map].
    apply beforeChar_app, Hp.
  - unfold ExifService.base64Part, JS.splitComma1.
    rewrite afterChar_none by exact Hh. reflexivity.
  - intros Hread. unfold ExifService.fileToBase64. rewrite Hread.
    cbn [JS.bind]. rewrite H1. reflexivity.
  - intros e Hread. unfold ExifService.fileToBase64. rewrite Hread.
    reflexivity.
Qed.

Lemma base64_of_a_data_url_witness :
  Spec.occurs ","%char "data:image/jpeg;base64"%string = false
  /\ Spec.occurs ","%char "/9j/4AAQ"%string = false
  /\ @FileReader_readAsDataURL Demo.host (Samples.jpeg "a.jpg" "/9j/4AAQ")
     = JS.Ok (Some "data:image/jpeg;base64,/9j/4AAQ"%string)
  /\ @ExifService.fileToBase64 Demo.host (Samples.jpeg "a.jpg" "/9j/4AAQ")
     = JS.Ok "/9j/4AAQ"%string.
Proof.
  split; [reflexivity|]. split; [reflexivity|]. split; [reflexivity|].
  destruct (@base64_of_a_data_url Demo.host (Samples.jpeg "a.jpg" "/9j/4AAQ")
              "data:image/jpeg;base64"%string "/9j/4AAQ"%string
              EmptyString eq_refl eq_refl)
    as (_ & _ & _ & Hfile & _).
  apply Hfile. reflexivity.
Defined.

(** ** Ingestion in parts *)

Section IngestionParts.
Context {host : Host}.


Lemma ingest_value (files : list File.t) (s : App.State)
      (results : list (option Types.TrekPhoto)) :
  fst (App.processAll files (App.draws s)) = map JS.Ok results ->
  App.ingest files s
  = {| App.photos := App.photos s ++ App.nonNull results;
       App.activePhotoId := App.activePhotoId s;
       App.isGalleryOpen := App.isGalleryOpen s;
       App.galleryIndex := App.galleryIndex s;
       App.isConverting :=
         if (List.length files =? 0)%nat then App.isConverting s else false;
       App.revoked := App.revoked s;
       App.draws := snd (App.processAll files (App.draws s)) |}.
Proof.
  intros Hres. unfold App.ingest, App.processFiles.
  destruct files as [|file files].
  - destruct results; [|discriminate]. destruct s.
    cbn. rewrite app_nil_r, Nat.add_0_r. reflexivity.
  - change (List.length (file :: files) =? 0)%nat with false. cbv iota.
    destruct (App.processAll (file :: files) (App.draws s)) as [rs d].
    cbn [fst snd] in *. rewrite Hres, Promise_all_fulfilled.
    reflexivity.
Qed.

(** What the callback of a file makes does not depend on the draw,
    apart from the id. *)
Lemma processFile_apartFromId (file : File.t) (draw : nat) :
  exists r,
    App.processFile file draw = JS.Ok r
    /\ option_map Spec.apartFromId r
       = option_map Spec.apartFromId (Spec.photoOf file).
Proof.
  unfold Spec.photoOf, App.processFile.
  destruct (ExifService.extractGpsData file) as [loc|e];
    cbn [JS.bind JS.tryCatch]; [|eexists; split; reflexivity].
  destruct (ExifService.extractCameraMetadata file) as [cam|e];
    cbn [JS.bind JS.tryCatch]; [|eexists; split; reflexivity].
  destruct (if App.isHeic file then heic2any file else JS.Ok (OneBlob file))
    as [displayBlob|e]; cbn [JS.bind JS.tryCatch];
    [|eexists; split; reflexivity].
  destruct (App.finalBlobOf displayBlob) as [blob|]; cbn [JS.tryCatch];
    [|eexists; split; reflexivity].
  destruct (ExifService.fileToBase64 blob) as [base64|e];
    cbn [JS.bind JS.tryCatch]; eexists; split; reflexivity.
Qed.

Lemma processFrom_photos (batch : list File.t) (draw : nat) :
  forall (files : list File.t) (i : nat),
  exists results,
    App.processFrom batch draw i files = map JS.Ok results
    /\ map Spec.apartFromId (App.nonNull results)
       = map Spec.apartFromId (App.nonNull (map Spec.photoOf files)).
Proof.
  induction files as [|file files IH]; intros i.
  - exists []. split; reflexivity.
  - destruct (IH (S i)) as (results & H1 & H2).
    destruct (processFile_apartFromId file (draw + App.drawsAhead batch i))
      as (r & Hr & Hbody).
    exists (r :: results). cbn [App.processFrom map]. rewrite Hr, H1.
    split; [reflexivity|].
    destruct r as [p|], (Spec.photoOf file) as [q|];
      cbn [option_map] in Hbody; try discriminate;
      cbn [App.nonNull map]; [|exact H2].
    f_equal; [congruence | exact H2].
Qed.

(** What the ingestion of a batch appends is, apart from the ids, what
    the callbacks of its files make, in the order of the files. *)
Lemma ingest_photos_apartFromId (files : list File.t) (s : App.State) :
  exists valid,
    App.photos (App.ingest files s) = App.photos s ++ valid
    /\ map Spec.apartFromId valid
       = map Spec.apartFromId (App.nonNull (map Spec.photoOf files)).
Proof.
  destruct (processFrom_photos files (App.draws s) files 0)
    as (results & H1 & H2).
  exists (App.nonNull results).
  rewrite (ingest_value files s results H1). split; [reflexivity | exact H2].
Qed.

End IngestionParts.


(** On a host on which the callbacks of a batch get past their last
    [await] in the reverse order of the files, the photos are appended
    in the order of the files and the ids handed out in the reverse
    order. *)
Example ids_follow_the_callbacks :
  map (fun p => (Types.name p, Types.id p))
      (App.photos
         (@App.ingest Demo.lastFirstHost [Samples.newYear; Samples.beach]
                      App.initial))
  = [("newyear.jpg", "000000001"); ("beach.jpg", "000000000")]%string.
Proof. vm_compute. reflexivity. Qed.

(** ** What a photo keeps of its file *)

Lemma photos_of_files {host : Host} (files : list File.t) :
  map Types.name (App.nonNull (map Spec.photoOf files))
  = map File.name (filter (fun f => negb (Spec.assetFails f)) files)
  /\ map Types.mimeType (App.nonNull (map Spec.photoOf files))
     = map (fun f => if App.isHeic f then "image/jpeg"%string
                     else File.type f)
           (filter (fun f => negb (Spec.assetFails f)) files)
  /\ map (fun p => JS.Ok (Types.location p))
         (App.nonNull (map Spec.photoOf files))
     = map ExifService.extractGpsData
           (filter (fun f => negb (Spec.assetFails f)) files).
Proof.
  induction files as [|file files (H2 & H3 & H4)]; [repeat split|].
  cbn [map filter]. unfold Spec.photoOf at 1 3 5.
  unfold App.processFile, Spec.assetFails in *.
  destruct (extractGpsData_total file) as [loc Hloc].
  destruct (extractCameraMetadata_total file) as [cam Hcam].
  rewrite Hloc, Hcam. cbn [JS.bind].
  destruct (if App.isHeic file then heic2any file else JS.Ok (OneBlob file))
    as [displayBlob|e]; cbn [JS.bind JS.tryCatch negb App.nonNull];
    [|repeat split; assumption].
  destruct (App.finalBlobOf displayBlob) as [blob|];
    cbn [JS.tryCatch negb App.nonNull]; [|repeat split; assumption].
  unfold ExifService.fileToBase64.
  destruct (FileReader_readAsDataURL blob) as [r|e];
    cbn [JS.bind JS.tryCatch negb App.nonNull map];
    [|repeat split; assumption].
  cbn [Types.name Types.mimeType Types.location].
  rewrite H2, H3, H4, Hloc. repeat split.
Qed.

Lemma map_apartFromId (l l' : list Types.TrekPhoto) :
  map Spec.apartFromId l = map Spec.apartFromId l' ->
  map Types.name l = map Types.name l'
  /\ map Types.mimeType l = map Types.mimeType l'
  /\ map Types.location l = map Types.location l'.
Proof.
  intros H.
  assert (Hn : map (fun t : _ * _ * _ * _ * _ * _ =>
                      let '(n, _, _, _, _, _) := t in n)
                   (map Spec.apartFromId l)
               = map (fun t : _ * _ * _ * _ * _ * _ =>
                        let '(n, _, _, _, _, _) := t in n)
                     (map Spec.apartFromId l')) by (rewrite H; reflexivity).
  assert (Hm : map (fun t : _ * _ * _ * _ * _ * _ =>
                      let '(_, _, _, _, _, m) := t in m)
                   (map Spec.apartFromId l)
               = map (fun t : _ * _ * _ * _ * _ * _ =>
                        let '(_, _, _, _, _, m) := t in m)
                     (map Spec.apartFromId l')) by (rewrite H; reflexivity).
  assert (Hl : map (fun t : _ * _ * _ * _ * _ * _ =>
                      let '(_, _, _, x, _, _) := t in x)
                   (map Spec.apartFromId l)
               = map (fun t : _ * _ * _ * _ * _ * _ =>
                        let '(_, _, _, x, _, _) := t in x)
                     (map Spec.apartFromId l')) by (rewrite H; reflexivity).
  rewrite !map_map in Hn, Hm, Hl. repeat split; assumption.
Qed.

(** The photos a batch appends are, in the order of the files, those of
    the files whose transcoding and encoding succeed; each keeps its
    file's name and the location extracted from the file, and its type
    is the file's, or [image/jpeg] for a HEIC or HEIF file. *)
Theorem ingest_keeps_file_order {host : Host}
        (files : list File.t) (s : App.State) :
  exists valid,
    App.photos (App.ingest files s) = App.photos s ++ valid
    /\ map Types.name valid
       = map File.name (filter (fun f => negb (Spec.assetFails f)) files)
    /\ map Types.mimeType valid
       = map (fun f => if App.isHeic f then "image/jpeg"%string
                       else File.type f)
             (filter (fun f => negb (Spec.assetFails f)) files)
    /\ map (fun p => JS.Ok (Types.location p)) valid
       = map ExifService.extractGpsData
             (filter (fun f => negb (Spec.assetFails f)) files).
Proof.
  destruct (ingest_photos_apartFromId files s) as (valid & Hph & Hb).
  destruct (map_apartFromId _ _ Hb) as (Hn & Hm & Hl).
  destruct (photos_of_files files) as (H2 & H3 & H4).
  exists valid. split; [exact Hph|].
  split; [rewrite Hn; exact H2|]. split; [rewrite Hm; exact H3|].
  rewrite <- H4, <- !(map_map Types.location JS.Ok), Hl. reflexivity.
Qed.

(** ** Removing one photo *)

Lemma find_app_none {A : Type} (f : A -> bool) (l1 l2 : list A) :
  Forall (fun x => f x = false) l1 -> find f (l1 ++ l2) = find f l2.
Proof.
  induction 1 as [|x l1 Hx _ IH]; [reflexivity|].
  cbn [app find]. rewrite Hx. exact IH.
Qed.

Lemma find_none_iff {A : Type} (f : A -> bool) (l : list A) :
  Forall (fun x => f x = false) l -> find f l = None.
Proof.
  induction 1 as [|x l Hx _ IH]; [reflexivity|].
  cbn [find]. rewrite Hx. exact IH.
Qed.

Lemma NoDup_ids_around (before after : list Types.TrekPhoto)
      (p : Types.TrekPhoto) :
  NoDup (map Types.id (before ++ p :: after)) ->
  Forall (fun q => String.eqb (Types.id q) (Types.id p) = false)
         (before ++ after).
Proof.
  intros Hnd. rewrite map_app in Hnd. cbn [map] in Hnd.
  pose proof (NoDup_remove_2 _ _ _ Hnd) as Hnotin.
  rewrite <- map_app in Hnotin.
  rewrite Forall_forall. intros q Hq.
  destruct (String.eqb_spec (Types.id q) (Types.id p)) as [He|]; [|reflexivity].
  exfalso. apply Hnotin. rewrite <- He. apply in_map, Hq.
Qed.

(** While ids are distinct, removing a photo removes that photo alone,
    leaving the others in their order, releases its object URL and no
    other, and clears the selection exactly when the photo was the
    selected one; the gallery index stays as it was. *)
Theorem deletePhoto_removes_exactly (s : App.State)
        (before after : list Types.TrekPhoto) (p : Types.TrekPhoto) :
  App.photos s = before ++ p :: after ->
  NoDup (map Types.id (App.photos s)) ->
  App.photos (App.deletePhoto (Types.id p) s) = before ++ after
  /\ App.revoked (App.deletePhoto (Types.id p) s)
     = App.revoked s ++ [Types.url p]
  /\ (App.activePhotoId (App.deletePhoto (Types.id p) s) = None <->
      App.activePhotoId s = None
      \/ App.activePhotoId s = Some (Types.id p))
  /\ (forall a, App.activePhotoId (App.deletePhoto (Types.id p) s) = Some a ->
                App.activePhotoId s = Some a)
  /\ App.galleryIndex (App.deletePhoto (Types.id p) s) = App.galleryIndex s.
Proof.
  intros Hphotos Hnd. rewrite Hphotos in Hnd.
  pose proof (NoDup_ids_around before after p Hnd) as Hothers.
  apply Forall_app in Hothers as [Hb Ha].
  unfold App.deletePhoto.
  cbn [App.photos App.revoked App.activePhotoId App.galleryIndex].
  rewrite Hphotos.
  split; [|split; [|split; [|split]]].
  - rewrite filter_app. cbn [filter]. rewrite String.eqb_refl. cbn [negb].
    rewrite !filter_all; [reflexivity| |].
    + eapply Forall_impl; [|exact Ha]. cbn. intros q ->. reflexivity.
    + eapply Forall_impl; [|exact Hb]. cbn. intros q ->. reflexivity.
  - rewrite (find_app_none _ before (p :: after) Hb). cbn [find].
    rewrite String.eqb_refl. reflexivity.
  - destruct (App.activePhotoId s) as [a|].
    + destruct (String.eqb_spec a (Types.id p)) as [->|Hne].
      * split; [intros _; right; reflexivity | reflexivity].
      * split; [discriminate|]. intros [H|H]; [discriminate|].
        injection H as H. contradiction.
    + split; [intros _; left; reflexivity | reflexivity].
  - intros a. destruct (App.activePhotoId s) as [b|]; [|discriminate].
    destruct (String.eqb b (Types.id p)); [discriminate|]. intros H; exact H.
  - reflexivity.
Qed.

Lemma deletePhoto_removes_exactly_witness :
  App.photos (MapView.app (Samples.sessionWith Samples.threeStops))
  = [Samples.summit] ++ Samples.origin :: [Samples.oneDegreeEast]
  /\ NoDup (map Types.id
                (App.photos
                   (MapView.app (Samples.sessionWith Samples.threeStops))))
  /\ App.photos (App.deletePhoto (Types.id Samples.origin)
                   (MapView.app (Samples.sessionWith Samples.threeStops)))
     = [Samples.summit] ++ [Samples.oneDegreeEast].
Proof.
  assert (H1 : App.photos (MapView.app (Samples.sessionWith Samples.threeStops))
               = [Samples.summit] ++ Samples.origin :: [Samples.oneDegreeEast])
    by reflexivity.
  assert (H2 : NoDup (map Types.id
                          (App.photos
                             (MapView.app
                                (Samples.sessionWith Samples.threeStops))))).
  { cbn. repeat constructor; cbn; intuition discriminate. }
  split; [exact H1|]. split; [exact H2|].
  exact (proj1 (deletePhoto_removes_exactly _ _ _ _ H1 H2)).
Defined.

Lemma deletePhoto_filter_negb (photoId : string) (l : list Types.TrekPhoto) :
  Forall (fun q => String.eqb (Types.id q) photoId = false)
         (filter (fun q => negb (String.eqb (Types.id q) photoId)) l).
Proof.
  rewrite Forall_forall. intros q Hq. apply filter_In in Hq as [_ Hq].
  destruct (String.eqb (Types.id q) photoId); [discriminate | reflexivity].
Qed.

(** Removing the same id a second time changes nothing: no photo goes,
    and no object URL is released twice. *)
Theorem deletePhoto_twice (photoId : string) (s : App.State) :
  App.deletePhoto photoId (App.deletePhoto photoId s)
  = App.deletePhoto photoId s.
Proof.
  unfold App.deletePhoto at 1.
  cbn [App.photos App.revoked App.activePhotoId App.galleryIndex
       App.isGalleryOpen App.isConverting App.draws App.deletePhoto].
  rewrite (find_none_iff _ _ (deletePhoto_filter_negb photoId (App.photos s))).
  rewrite filter_twice, app_nil_r.
  unfold App.deletePhoto. f_equal.
  destruct (App.activePhotoId s) as [a|]; [|reflexivity].
  destruct (String.eqb a photoId) eqn:Ha; [reflexivity|].
  rewrite Ha. reflexivity.
Qed.

(** Removing a photo takes the photos of that id out of the sorted list
    and out of the trek, and leaves the others in the order they had. *)
Theorem deletePhoto_keeps_the_order (photoId : string) (s : App.State) :
  App.sortedPhotos (App.photos (App.deletePhoto photoId s))
  = filter (fun p => negb (String.eqb (Types.id p) photoId))
           (App.sortedPhotos (App.photos s))
  /\ App.gpsPhotos (App.photos (App.deletePhoto photoId s))
     = filter (fun p => negb (String.eqb (Types.id p) photoId))
              (App.gpsPhotos (App.photos s)).
Proof.
  cbn [App.deletePhoto App.photos]. unfold App.gpsPhotos, App.sortedPhotos.
  split.
  - symmetry. exact (filter_sort _ App.timeKey _ (App.photos s)).
  - rewrite (filter_filter_comm _ App.hasLocation).
    symmetry.
    exact (filter_sort _ App.timeKey _ (filter App.hasLocation (App.photos s))).
Qed.

(** When two photos share an id, removing by that id takes both out of
    the collection but releases the object URL of the first alone. *)
Theorem deletePhoto_releases_one_url (s : App.State)
        (l1 l2 l3 : list Types.TrekPhoto) (p q : Types.TrekPhoto) :
  App.photos s = l1 ++ p :: l2 ++ q :: l3 ->
  Types.id q = Types.id p ->
  Forall (fun r => String.eqb (Types.id r) (Types.id p) = false) l1 ->
  (forall r, In r (App.photos (App.deletePhoto (Types.id p) s)) ->
             Types.id r <> Types.id p)
  /\ (List.length (App.photos (App.deletePhoto (Types.id p) s)) + 2
      <= List.length (App.photos s))%nat
  /\ App.revoked (App.deletePhoto (Types.id p) s)
     = App.revoked s ++ [Types.url p].
Proof.
  intros Hphotos Hid Hl1. unfold App.deletePhoto.
  cbn [App.photos App.revoked]. rewrite Hphotos.
  split; [|split].
  - intros r Hr. apply filter_In in Hr as [_ Hr].
    destruct (String.eqb_spec (Types.id r) (Types.id p)); [discriminate|].
    assumption.
  - rewrite filter_app. cbn [filter]. rewrite String.eqb_refl. cbn [negb].
    rewrite filter_app. cbn [filter]. rewrite Hid, String.eqb_refl.
    cbn [negb]. rewrite !length_app. cbn [List.length].
    rewrite !length_app. cbn [List.length].
    pose proof (filter_length_le
                  (fun r => negb (String.eqb (Types.id r) (Types.id p))) l1).
    pose proof (filter_length_le
                  (fun r => negb (String.eqb (Types.id r) (Types.id p))) l2).
    pose proof (filter_length_le
                  (fun r => negb (String.eqb (Types.id r) (Types.id p))) l3).
    lia.
  - rewrite (find_app_none _ l1 _ Hl1). cbn [find].
    rewrite String.eqb_refl. reflexivity.
Qed.

Lemma deletePhoto_releases_one_url_witness :
  Types.id (Samples.photoAt "origin" None) = Types.id Samples.origin
  /\ App.revoked
       (App.deletePhoto (Types.id Samples.origin)
          {| App.photos := [Samples.origin; Samples.summit;
                            Samples.photoAt "origin" None];
             App.activePhotoId := None; App.isGalleryOpen := false;
             App.galleryIndex := 0; App.isConverting := false;
             App.revoked := []; App.draws := 3 |})
     = [Types.url Samples.origin]
  /\ App.photos
       (App.deletePhoto (Types.id Samples.origin)
          {| App.photos := [Samples.origin; Samples.summit;
                            Samples.photoAt "origin" None];
             App.activePhotoId := None; App.isGalleryOpen := false;
             App.galleryIndex := 0; App.isConverting := false;
             App.revoked := []; App.draws := 3 |})
     = [Samples.summit].
Proof.
  split; [reflexivity|].
  split; [|reflexivity].
  exact (proj2 (proj2 (deletePhoto_releases_one_url
                         {| App.photos := [Samples.origin; Samples.summit;
                                           Samples.photoAt "origin" None];
                            App.activePhotoId := None;
                            App.isGalleryOpen := false;
                            App.galleryIndex := 0; App.isConverting := false;
                            App.revoked := []; App.draws := 3 |}
                         [] [Samples.summit] []
                         Samples.origin (Samples.photoAt "origin" None)
                         eq_refl eq_refl (Forall_nil _)))).
Defined.

(** ** Opening the gallery *)

Lemma findIndex_some {A : Type} (f : A -> bool) (l : list A) (i : nat) :
  App.findIndex f l = Some i ->
  exists x, nth_error l i = Some x /\ f x = true.
Proof.
  revert i. induction l as [|y l IH]; intros i; cbn [App.findIndex];
    [discriminate|].
  destruct (f y) eqn:Hy.
  - intros H. injection H as <-. exists y. split; [reflexivity | exact Hy].
  - destruct (App.findIndex f l) as [j|]; [|discriminate].
    cbn [option_map]. intros H. injection H as <-.
    destruct (IH j eq_refl) as (x & Hx & Hfx). exists x. split; assumption.
Qed.

Lemma findIndex_none {A : Type} (f : A -> bool) (l : list A) :
  App.findIndex f l = None -> Forall (fun x => f x = false) l.
Proof.
  induction l as [|y l IH]; cbn [App.findIndex]; [constructor|].
  destruct (f y) eqn:Hy; [discriminate|].
  destruct (App.findIndex f l) as [j|]; [discriminate|].
  intros _. constructor; [exact Hy | apply IH; reflexivity].
Qed.

Lemma elementAt_of_nat (l : list Types.TrekPhoto) (i : nat) :
  Gallery.elementAt l (Z.of_nat i) = nth_error l i.
Proof.
  unfold Gallery.elementAt.
  destruct (Z.ltb_spec (Z.of_nat i) 0) as [H|_]; [lia|].
  rewrite Nat2Z.id. reflexivity.
Qed.

Lemma sortedPhotos_In (photos : list Types.TrekPhoto) (p : Types.TrekPhoto) :
  In p (App.sortedPhotos photos) <-> In p photos.
Proof.
  split; apply Permutation_in;
    [|apply Permutation_sym]; exact (sort_perm _ App.timeKey photos).
Qed.

(** The request of a map popup to open the gallery on a photo: if no
    photo has the id, nothing changes; otherwise the gallery is opened
    and shows a photo of that id, and neither the collection nor the
    selection changes. *)
Theorem handleOpenGallery_shows_the_photo (photoId : string) (s : App.State) :
  (App.handleOpenGallery photoId s = s
   /\ Forall (fun p => Types.id p <> photoId) (App.photos s))
  \/ (exists p,
         In p (App.photos s) /\ Types.id p = photoId
         /\ App.isGalleryOpen (App.handleOpenGallery photoId s) = true
         /\ Gallery.mount (App.handleOpenGallery photoId s) = JS.Ok p
         /\ App.photos (App.handleOpenGallery photoId s) = App.photos s
         /\ App.activePhotoId (App.handleOpenGallery photoId s)
            = App.activePhotoId s).
Proof.
  unfold App.handleOpenGallery.
  destruct (App.findIndex (fun p => String.eqb (Types.id p) photoId)
                          (App.sortedPhotos (App.photos s)))
    as [idx|] eqn:Hfind.
  - right. destruct (findIndex_some _ _ _ Hfind) as (p & Hp & Hid).
    exists p. split; [|split; [|split; [|split; [|split]]]].
    + apply sortedPhotos_In. eapply nth_error_In, Hp.
    + apply String.eqb_eq, Hid.
    + reflexivity.
    + unfold Gallery.mount, Gallery.currentPhoto.
      cbn [App.openGalleryAt App.photos App.galleryIndex].
      rewrite elementAt_of_nat, Hp. reflexivity.
    + reflexivity.
    + reflexivity.
  - left. split; [reflexivity|].
    pose proof (findIndex_none _ _ Hfind) as Hall.
    rewrite Forall_forall in *. intros p Hp.
    apply sortedPhotos_In in Hp. specialize (Hall p Hp). cbn in Hall.
    intros He. apply String.eqb_eq in He. congruence.
Qed.

(** A click on a row of the list selects its photo; a second click on
    the same row opens the gallery on that photo. *)
Theorem clickRow_twice_opens_the_gallery (idx : nat) (s : App.State)
        (photo : Types.TrekPhoto) :
  nth_error (App.sortedPhotos (App.photos s)) idx = Some photo ->
  App.activePhotoId (App.clickRow idx s) = Some (Types.id photo)
  /\ (App.activePhotoId s <> Some (Types.id photo) ->
      App.isGalleryOpen (App.clickRow idx s) = App.isGalleryOpen s
      /\ App.galleryIndex (App.clickRow idx s) = App.galleryIndex s)
  /\ App.activePhotoId (App.clickRow idx (App.clickRow idx s))
     = Some (Types.id photo)
  /\ App.isGalleryOpen (App.clickRow idx (App.clickRow idx s)) = true
  /\ Gallery.mount (App.clickRow idx (App.clickRow idx s)) = JS.Ok photo.
Proof.
  intros Hrow.
  assert (H1 : App.activePhotoId (App.clickRow idx s) = Some (Types.id photo)
               /\ App.photos (App.clickRow idx s) = App.photos s).
  { unfold App.clickRow. rewrite Hrow.
    destruct (App.activePhotoId s) as [a|];
      [destruct (String.eqb a (Types.id photo))|]; split; reflexivity. }
  destruct H1 as [Hact Hph].
  assert (H2 : App.clickRow idx (App.clickRow idx s)
               = App.openGalleryAt idx (App.clickRow idx s)).
  { unfold App.clickRow at 1. rewrite Hph, Hrow, Hact, String.eqb_refl.
    destruct (App.clickRow idx s) as [ph act open gi conv rev dr].
    cbn [App.activePhotoId] in Hact. rewrite Hact. reflexivity. }
  split; [exact Hact|]. split; [|split; [|split]].
  - intros Hne. unfold App.clickRow. rewrite Hrow.
    destruct (App.activePhotoId s) as [a|]; [|split; reflexivity].
    destruct (String.eqb_spec a (Types.id photo)) as [->|_];
      [contradiction Hne; reflexivity | split; reflexivity].
  - rewrite H2. exact Hact.
  - rewrite H2. reflexivity.
  - rewrite H2. unfold Gallery.mount, Gallery.currentPhoto.
    cbn [App.openGalleryAt App.photos App.galleryIndex].
    rewrite elementAt_of_nat, Hph, Hrow. reflexivity.
Qed.

Lemma clickRow_twice_opens_the_gallery_witness :
  nth_error (App.sortedPhotos
               (App.photos
                  (MapView.app (Samples.sessionWith Samples.threeStops))))
            2
  = Some Samples.summit
  /\ App.isGalleryOpen
       (App.clickRow 2
          (App.clickRow 2
             (MapView.app (Samples.sessionWith Samples.threeStops))))
     = true
  /\ Gallery.mount
       (App.clickRow 2
          (App.clickRow 2
             (MapView.app (Samples.sessionWith Samples.threeStops))))
     = JS.Ok Samples.summit.
Proof.
  assert (H : nth_error
                (App.sortedPhotos
                   (App.photos
                      (MapView.app (Samples.sessionWith Samples.threeStops))))
                2
              = Some Samples.summit) by reflexivity.
  split; [exact H|].
  destruct (clickRow_twice_opens_the_gallery 2 _ _ H)
    as (_ & _ & _ & Hopen & Hmount).
  split; [exact Hopen | exact Hmount].
Defined.

Lemma nth_error_beyond {A : Type} (l : list A) (n : nat) :
  (List.length l <= n)%nat -> nth_error l n = None.
Proof. intros H. apply nth_error_None, H. Qed.

(** The gallery index is not adjusted when a photo is removed: once it
    points at the last photo or beyond, removing any photo and opening
    the gallery with the Archive button mounts it on no photo, which is
    a [TypeError]. Clearing the collection resets the index instead. *)
Theorem archive_after_delete_has_no_photo (s : App.State)
        (p q : Types.TrekPhoto) :
  In p (App.photos s) ->
  In q (App.photos s) ->
  Types.id q <> Types.id p ->
  (List.length (App.photos s) <= S (App.galleryIndex s))%nat ->
  App.isGalleryOpen (App.openArchive (App.deletePhoto (Types.id p) s)) = true
  /\ Gallery.mount (App.openArchive (App.deletePhoto (Types.id p) s))
     = JS.Throw JS.TypeError
  /\ App.galleryIndex (App.handleClearAll true s) = 0%nat.
Proof.
  intros Hp Hq Hne Hidx.
  set (rest := filter (fun r => negb (String.eqb (Types.id r) (Types.id p)))
                      (App.photos s)).
  assert (Hq' : In q rest).
  { apply filter_In. split; [exact Hq|].
    destruct (String.eqb_spec (Types.id q) (Types.id p));
      [contradiction | reflexivity]. }
  assert (Hlen : (List.length rest < List.length (App.photos s))%nat).
  { unfold rest. rewrite filter_complement_length.
    assert (0 < List.length
                  (filter (fun r => String.eqb (Types.id r) (Types.id p))
                          (App.photos s)))%nat.
    { assert (Hin : In p (filter (fun r => String.eqb (Types.id r) (Types.id p))
                                 (App.photos s))).
      { apply filter_In. split; [exact Hp | apply String.eqb_refl]. }
      destruct (filter (fun r => String.eqb (Types.id r) (Types.id p))
                       (App.photos s)); [contradiction | cbn; lia]. }
    assert (0 < List.length (App.photos s))%nat
      by (destruct (App.photos s); [contradiction | cbn; lia]).
    lia. }
  assert (Hpos : (0 <? List.length rest)%nat = true).
  { apply Nat.ltb_lt. destruct rest; [contradiction | cbn; lia]. }
  unfold App.openArchive.
  cbn [App.deletePhoto App.photos]. fold rest. rewrite Hpos.
  split; [reflexivity|]. split; [|reflexivity].
  unfold Gallery.mount, Gallery.currentPhoto.
  cbn [App.photos App.galleryIndex].
  rewrite elementAt_of_nat, nth_error_beyond; [reflexivity|].
  pose proof (sort_length _ App.timeKey rest) as Hsl.
  change (List.length (App.sortedPhotos rest) = List.length rest) in Hsl.
  rewrite Hsl. cbn [App.deletePhoto App.galleryIndex]. lia.
Qed.

Lemma archive_after_delete_has_no_photo_witness :
  In Samples.origin
     (App.photos
        (App.clickRow 2
           (App.clickRow 2
              (MapView.app (Samples.sessionWith Samples.threeStops)))))
  /\ Gallery.mount
       (App.openArchive
          (App.deletePhoto (Types.id Samples.origin)
             (App.clickRow 2
                (App.clickRow 2
                   (MapView.app (Samples.sessionWith Samples.threeStops))))))
     = JS.Throw JS.TypeError.
Proof.
  assert (Hp : In Samples.origin
                  (App.photos
                     (App.clickRow 2
                        (App.clickRow 2
                           (MapView.app
                              (Samples.sessionWith Samples.threeStops))))))
    by (right; left; reflexivity).
  assert (Hq : In Samples.summit
                  (App.photos
                     (App.clickRow 2
                        (App.clickRow 2
                           (MapView.app
                              (Samples.sessionWith Samples.threeStops))))))
    by (left; reflexivity).
  assert (Hne : Types.id Samples.summit <> Types.id Samples.origin)
    by discriminate.
  assert (Hidx : (List.length
                    (App.photos
                       (App.clickRow 2
                          (App.clickRow 2
                             (MapView.app
                                (Samples.sessionWith Samples.threeStops)))))
                  <= S (App.galleryIndex
                          (App.clickRow 2
                             (App.clickRow 2
                                (MapView.app
                                   (Samples.sessionWith
                                      Samples.threeStops))))))%nat)
    by (cbn; lia).
  split; [exact Hp|].
  exact (proj1 (proj2 (archive_after_delete_has_no_photo _ _ _ Hp Hq Hne Hidx))).
Defined.

(** ** Moving through the gallery *)

Lemma elementAt_in_range (photos : list Types.TrekPhoto) (i : Z) :
  (0 <= i < Z.of_nat (List.length photos))%Z ->
  exists p, Gallery.elementAt photos i = Some p.
Proof.
  intros Hi. unfold Gallery.elementAt.
  destruct (Z.ltb_spec i 0) as [H|_]; [lia|].
  destruct (nth_error photos (Z.to_nat i)) as [p|] eqn:Hn;
    [exists p; reflexivity|].
  apply nth_error_None in Hn. lia.
Qed.

Lemma navigate_value (dir : Gallery.Direction)
      (photos : list Types.TrekPhoto) (index j : Z) :
  (0 <= j < Z.of_nat (List.length photos))%Z ->
  match dir with
  | Gallery.next => Z.rem (index + 1) (Z.of_nat (List.length photos))
  | Gallery.prev => Z.rem (index - 1 + Z.of_nat (List.length photos))
                          (Z.of_nat (List.length photos))
  end = j ->
  exists p, Gallery.elementAt photos j = Some p
            /\ Gallery.navigate dir photos index = JS.Ok (j, Types.id p).
Proof.
  intros Hj Hrem. destruct (elementAt_in_range photos j Hj) as [p Hp].
  exists p. split; [exact Hp|].
  unfold Gallery.navigate.
  destruct (Z.eqb_spec (Z.of_nat (List.length photos)) 0) as [H0|_]; [lia|].
  destruct dir; rewrite Hrem, Hp; reflexivity.
Qed.

(** From an index inside the gallery, stepping forward shows the next
    photo, the first one after the last; stepping back shows the
    previous photo, the last one before the first; and either step is
    undone by the other. Each step reports the id of the photo it
    lands on. *)
Theorem navigate_wraps_around (photos : list Types.TrekPhoto) (index : Z) :
  (0 <= index < Z.of_nat (List.length photos))%Z ->
  exists j k pj pk pi,
    j = (if (index + 1 =? Z.of_nat (List.length photos))%Z
         then 0 else index + 1)%Z
    /\ k = (if (index =? 0)%Z
            then Z.of_nat (List.length photos) - 1 else index - 1)%Z
    /\ Gallery.elementAt photos j = Some pj
    /\ Gallery.elementAt photos k = Some pk
    /\ Gallery.elementAt photos index = Some pi
    /\ Gallery.navigate Gallery.next photos index = JS.Ok (j, Types.id pj)
    /\ Gallery.navigate Gallery.prev photos index = JS.Ok (k, Types.id pk)
    /\ Gallery.navigate Gallery.prev photos j = JS.Ok (index, Types.id pi)
    /\ Gallery.navigate Gallery.next photos k = JS.Ok (index, Types.id pi).
Proof.
  intros Hi. set (len := Z.of_nat (List.length photos)) in *.
  set (j := (if (index + 1 =? len)%Z then 0 else index + 1)%Z).
  set (k := (if (index =? 0)%Z then len - 1 else index - 1)%Z).
  assert (Hj : (0 <= j < len)%Z)
    by (unfold j; destruct (Z.eqb_spec (index + 1) len); lia).
  assert (Hk : (0 <= k < len)%Z)
    by (unfold k; destruct (Z.eqb_spec index 0); lia).
  assert (Rnext : Z.rem (index + 1) len = j).
  { rewrite Z.rem_mod_nonneg by lia. unfold j.
    destruct (Z.eqb_spec (index + 1) len) as [He|Hne].
    - rewrite He. apply Z_mod_same_full.
    - apply Z.mod_small. lia. }
  assert (Rprev : Z.rem (index - 1 + len) len = k).
  { rewrite Z.rem_mod_nonneg by lia. unfold k.
    destruct (Z.eqb_spec index 0) as [He|Hne].
    - replace (index - 1 + len)%Z with (len - 1)%Z by lia.
      apply Z.mod_small. lia.
    - replace (index - 1 + len)%Z with (index - 1 + 1 * len)%Z by lia.
      rewrite Z_mod_plus_full. apply Z.mod_small. lia. }
  assert (Rback : Z.rem (j - 1 + len) len = index).
  { rewrite Z.rem_mod_nonneg by lia. unfold j.
    destruct (Z.eqb_spec (index + 1) len) as [He|Hne].
    - replace (0 - 1 + len)%Z with index by lia.
      apply Z.mod_small. lia.
    - replace (index + 1 - 1 + len)%Z with (index + 1 * len)%Z by lia.
      rewrite Z_mod_plus_full. apply Z.mod_small. lia. }
  assert (Rforth : Z.rem (k + 1) len = index).
  { rewrite Z.rem_mod_nonneg by lia. unfold k.
    destruct (Z.eqb_spec index 0) as [He|Hne].
    - replace (len - 1 + 1)%Z with len by lia.
      rewrite Z_mod_same_full. lia.
    - replace (index - 1 + 1)%Z with index by lia.
      apply Z.mod_small. lia. }
  destruct (navigate_value Gallery.next photos index j Hj Rnext)
    as (pj & Hpj & Hnj).
  destruct (navigate_value Gallery.prev photos index k Hk Rprev)
    as (pk & Hpk & Hnk).
  destruct (navigate_value Gallery.prev photos j index Hi Rback)
    as (pi & Hpi & Hni).
  destruct (navigate_value Gallery.next photos k index Hi Rforth)
    as (pi' & Hpi' & Hni').
  assert (pi' = pi) by congruence. subst pi'.
  exists j, k, pj, pk, pi. repeat split; assumption.
Qed.

Lemma navigate_wraps_around_witness :
  (0 <= 2 < Z.of_nat (List.length Samples.threeStops))%Z
  /\ Gallery.navigate Gallery.next Samples.threeStops 2
     = JS.Ok (0%Z, Types.id Samples.summit).
Proof.
  assert (H : (0 <= 2 < Z.of_nat (List.length Samples.threeStops))%Z)
    by (cbn; lia).
  split; [exact H|].
  destruct (navigate_wraps_around Samples.threeStops 2 H)
    as (j & k & pj & pk & pi & Hj & _ & Hpj & _ & _ & Hn & _).
  rewrite Hn. subst j. cbn in Hpj. injection Hpj as <-. reflexivity.
Defined.

(** ** The elevation profile *)

Lemma data_length (photos : list Types.TrekPhoto) :
  List.length (ElevationProfile.data photos)
  = List.length (filter ElevationProfile.hasAltitude photos).
Proof. exact (sort_length _ App.timeKey _). Qed.

Lemma data_In (photos : list Types.TrekPhoto) (p : Types.TrekPhoto) :
  In p (ElevationProfile.data photos)
  <-> In p photos /\ ElevationProfile.hasAltitude p = true.
Proof.
  rewrite <- filter_In.
  split; apply Permutation_in; [|apply Permutation_sym];
    exact (sort_perm _ App.timeKey _).
Qed.

Lemma Math_min_nan (a b : JS.number) :
  JS.Math_min a b = JS.NotANumber <-> a = JS.NotANumber \/ b = JS.NotANumber.
Proof.
  destruct a as [x|[|]|], b as [y|[|]|]; cbn [JS.Math_min];
    (split;
     [intros H; first [discriminate H | left; reflexivity | right; reflexivity]
     |intros [H|H]; first [discriminate H | reflexivity]]).
Qed.

(** [Math.min] and [Math.max] of a list with a [NaN] in it are [NaN]. *)
Lemma minAll_nan (l : list JS.number) :
  In JS.NotANumber l -> JS.Math_minAll l = JS.NotANumber.
Proof.
  unfold JS.Math_minAll. generalize (JS.Infinity false).
  induction l as [|a l IH]; intros acc; [intros []|].
  cbn [fold_left]. intros [->|Hin]; [|apply IH, Hin].
  assert (E : JS.Math_min acc JS.NotANumber = JS.NotANumber)
    by (apply Math_min_nan; right; reflexivity).
  rewrite E. clear. induction l as [|b l IH]; [reflexivity|].
  cbn [fold_left JS.Math_min]. exact IH.
Qed.

Lemma maxAll_nan (l : list JS.number) :
  In JS.NotANumber l -> JS.Math_maxAll l = JS.NotANumber.
Proof.
  unfold JS.Math_maxAll. generalize (JS.Infinity true).
  induction l as [|a l IH]; intros acc; [intros []|].
  cbn [fold_left]. intros [->|Hin]; [|apply IH, Hin].
  assert (E : JS.Math_max acc JS.NotANumber = JS.NotANumber)
    by (apply Math_max_nan; right; reflexivity).
  rewrite E. clear. induction l as [|b l IH]; [reflexivity|].
  cbn [fold_left JS.Math_max]. exact IH.
Qed.

(** [Math.min] and [Math.max] of finite numbers are the least and the
    greatest of them. *)
Lemma fold_min_finite (qs : list Q) (a : Q) :
  exists lo,
    fold_left JS.Math_min (map JS.Finite qs) (JS.Finite a) = JS.Finite lo
    /\ (lo = a \/ In lo qs) /\ (lo <= a)%Q /\ Forall (fun q => (lo <= q)%Q) qs.
Proof.
  revert a. induction qs as [|q qs IH]; intros a; cbn [map fold_left].
  - exists a. split; [reflexivity|]. split; [left; reflexivity|].
    split; [apply Qle_refl | constructor].
  - cbn [JS.Math_min]. destruct (Qle_bool a q) eqn:Hle.
    + apply Qle_bool_iff in Hle.
      destruct (IH a) as (lo & H1 & H2 & H3 & H4). exists lo.
      split; [exact H1|].
      split; [destruct H2 as [H2|H2]; [left | right; right]; exact H2|].
      split; [exact H3|].
      constructor; [eapply Qle_trans; eassumption | exact H4].
    + assert (Hqa : (q <= a)%Q).
      { destruct (Qlt_le_dec a q) as [Hlt|H]; [|exact H].
        apply Qlt_le_weak, Qle_bool_iff in Hlt. congruence. }
      destruct (IH q) as (lo & H1 & H2 & H3 & H4). exists lo.
      split; [exact H1|].
      split; [right; destruct H2 as [H2|H2]; [left; symmetry | right];
              exact H2|].
      split; [eapply Qle_trans; eassumption|].
      constructor; assumption.
Qed.

Lemma fold_max_finite (qs : list Q) (a : Q) :
  exists hi,
    fold_left JS.Math_max (map JS.Finite qs) (JS.Finite a) = JS.Finite hi
    /\ (hi = a \/ In hi qs) /\ (a <= hi)%Q /\ Forall (fun q => (q <= hi)%Q) qs.
Proof.
  revert a. induction qs as [|q qs IH]; intros a; cbn [map fold_left].
  - exists a. split; [reflexivity|]. split; [left; reflexivity|].
    split; [apply Qle_refl | constructor].
  - cbn [JS.Math_max]. destruct (Qle_bool a q) eqn:Hle.
    + apply Qle_bool_iff in Hle.
      destruct (IH q) as (hi & H1 & H2 & H3 & H4). exists hi.
      split; [exact H1|].
      split; [right; destruct H2 as [H2|H2]; [left; symmetry | right];
              exact H2|].
      split; [eapply Qle_trans; eassumption|].
      constructor; assumption.
    + assert (Hqa : (q <= a)%Q).
      { destruct (Qlt_le_dec a q) as [Hlt|H]; [|exact H].
        apply Qlt_le_weak, Qle_bool_iff in Hlt. congruence. }
      destruct (IH a) as (hi & H1 & H2 & H3 & H4). exists hi.
      split; [exact H1|].
      split; [destruct H2 as [H2|H2]; [left | right; right]; exact H2|].
      split; [exact H3|].
      constructor; [eapply Qle_trans; eassumption | exact H4].
Qed.

Lemma minAll_finite (q : Q) (qs : list Q) :
  exists lo, JS.Math_minAll (map JS.Finite (q :: qs)) = JS.Finite lo
             /\ In lo (q :: qs) /\ Forall (fun x => (lo <= x)%Q) (q :: qs).
Proof.
  destruct (fold_min_finite qs q) as (lo & H1 & H2 & H3 & H4).
  exists lo. split; [exact H1|].
  split; [destruct H2 as [->|H2]; [left; reflexivity | right; exact H2]|].
  constructor; assumption.
Qed.

Lemma maxAll_finite (q : Q) (qs : list Q) :
  exists hi, JS.Math_maxAll (map JS.Finite (q :: qs)) = JS.Finite hi
             /\ In hi (q :: qs) /\ Forall (fun x => (x <= hi)%Q) (q :: qs).
Proof.
  destruct (fold_max_finite qs q) as (hi & H1 & H2 & H3 & H4).
  exists hi. split; [exact H1|].
  split; [destruct H2 as [->|H2]; [left; reflexivity | right; exact H2]|].
  constructor; assumption.
Qed.

Lemma all_finite (l : list JS.number) :
  Forall (fun a => exists q, a = JS.Finite q) l ->
  exists qs, l = map JS.Finite qs.
Proof.
  induction 1 as [|a l (q & ->) _ (qs & ->)].
  - exists []. reflexivity.
  - exists (q :: qs). reflexivity.
Qed.

Lemma mapFrom_In {A B : Type} (f : nat -> A -> B) (i : nat) (l : list A)
      (b : B) :
  In b (ElevationProfile.mapFrom f i l) ->
  exists k a, nth_error l k = Some a /\ b = f (i + k)%nat a.
Proof.
  revert i. induction l as [|a l IH]; intros i; cbn [ElevationProfile.mapFrom];
    [contradiction|].
  intros [<-|Hin].
  - exists 0%nat, a. split; [reflexivity|]. rewrite Nat.add_0_r. reflexivity.
  - destruct (IH (S i) Hin) as (k & a' & Hk & ->).
    exists (S k), a'. split; [exact Hk|]. f_equal. lia.
Qed.

Lemma mapFrom_map {A B C : Type} (f : nat -> A -> B) (g : B -> C)
      (h : A -> C) (i : nat) (l : list A) :
  (forall k a, g (f k a) = h a) ->
  map g (ElevationProfile.mapFrom f i l) = map h l.
Proof.
  intros Hgf. revert i.
  induction l as [|a l IH]; intros i; cbn [ElevationProfile.mapFrom map];
    [reflexivity|].
  rewrite Hgf, IH. reflexivity.
Qed.

Lemma mapFrom_nth {A B : Type} (f : nat -> A -> B) (i : nat) (l : list A)
      (k : nat) :
  nth_error (ElevationProfile.mapFrom f i l) k
  = option_map (f (i + k)%nat) (nth_error l k).
Proof.
  revert i k. induction l as [|a l IH]; intros i k;
    cbn [ElevationProfile.mapFrom].
  - destruct k; reflexivity.
  - destruct k as [|k]; cbn [nth_error option_map].
    + rewrite Nat.add_0_r. reflexivity.
    + rewrite IH. replace (S i + k)%nat with (i + S k)%nat by lia.
      reflexivity.
Qed.

Lemma ratio_in_unit (a r : Q) :
  (0 < r)%Q -> (0 <= a)%Q -> (a <= r)%Q -> (0 <= a / r /\ a / r <= 1)%Q.
Proof.
  intros Hr Ha Har. split.
  - apply Qle_shift_div_l; [exact Hr|]. Lqa.lra.
  - apply Qle_shift_div_r; [exact Hr|]. Lqa.lra.
Qed.

Lemma chart_value (photos : list Types.TrekPhoto) :
  (2 <= List.length (filter ElevationProfile.hasAltitude photos))%nat ->
  ElevationProfile.chart photos
  = Some {| ElevationProfile.minAlt :=
              JS.Math_minAll
                (map ElevationProfile.altitude (ElevationProfile.data photos));
            ElevationProfile.maxAlt :=
              JS.Math_maxAll
                (map ElevationProfile.altitude (ElevationProfile.data photos));
            ElevationProfile.points :=
              ElevationProfile.mapFrom
                (ElevationProfile.pointOf
                   (List.length (ElevationProfile.data photos))
                   (JS.Math_minAll
                      (map ElevationProfile.altitude
                           (ElevationProfile.data photos)))
                   (ElevationProfile.orOne
                      (JS.subtract
                         (JS.Math_maxAll
                            (map ElevationProfile.altitude
                                 (ElevationProfile.data photos)))
                         (JS.Math_minAll
                            (map ElevationProfile.altitude
                                 (ElevationProfile.data photos))))))
                0 (ElevationProfile.data photos) |}.
Proof.
  intros Hn. rewrite <- data_length in Hn. unfold ElevationProfile.chart.
  destruct (Nat.ltb_spec (List.length (ElevationProfile.data photos)) 2)
    as [Hlt|_]; [lia | reflexivity].
Qed.

Lemma chart_of_few (photos : list Types.TrekPhoto) :
  (List.length (filter ElevationProfile.hasAltitude photos) < 2)%nat ->
  ElevationProfile.chart photos = None.
Proof.
  intros Hfew. unfold ElevationProfile.chart. rewrite data_length.
  destruct (Nat.ltb_spec
              (List.length (filter ElevationProfile.hasAltitude photos)) 2);
    [reflexivity | lia].
Qed.

(** With a lowest altitude that is [NaN], every point is at [NaN] down. *)
Lemma y_of_nan (n i : nat) (range : JS.number) (p : Types.TrekPhoto) :
  ElevationProfile.y (ElevationProfile.pointOf n JS.NotANumber range i p)
  = JS.NotANumber.
Proof.
  cbn [ElevationProfile.y ElevationProfile.pointOf].
  destruct (ElevationProfile.altitude p) as [a|[|]|]; reflexivity.
Qed.

(** With finite altitudes, a point is between 5 and 75 down: at 75 for
    the lowest altitude and, when the altitudes differ, at 5 for the
    highest. *)
Lemma y_of_finite (n i : nat) (lo hi a : Q) (p : Types.TrekPhoto) :
  ElevationProfile.altitude p = JS.Finite a ->
  (lo <= a)%Q -> (a <= hi)%Q ->
  exists v,
    ElevationProfile.y
      (ElevationProfile.pointOf
         n (JS.Finite lo)
         (ElevationProfile.orOne (JS.subtract (JS.Finite hi) (JS.Finite lo)))
         i p)
    = JS.Finite v
    /\ (5 <= v)%Q /\ (v <= 75)%Q
    /\ ((a == lo)%Q -> (v == 75)%Q)
    /\ ((a == hi)%Q -> ~ (hi == lo)%Q -> (v == 5)%Q).
Proof.
  intros Ha Hlo Hhi.
  cbn [ElevationProfile.y ElevationProfile.pointOf]. rewrite Ha.
  cbn [JS.subtract]. unfold ElevationProfile.orOne.
  cbn [JS.truthyNumber]. unfold JS.truthy.
  unfold ElevationProfile.height, ElevationProfile.padding.
  destruct (Qeq_bool (hi - lo) 0) eqn:Hflat; cbn [negb JS.divide].
  - apply Qeq_bool_eq in Hflat.
    change (Qeq_bool 1 0) with false. cbv iota.
    cbn [JS.multiply JS.subtract].
    eexists. split; [reflexivity|].
    assert (Hz : ((a - lo) / 1 == 0)%Q).
    { unfold Qdiv. setoid_replace (a - lo)%Q with 0%Q by Lqa.lra. ring. }
    repeat split; intros; rewrite Hz; Lqa.lra.
  - rewrite Hflat. cbn [JS.multiply JS.subtract].
    apply Qeq_bool_neq in Hflat.
    eexists. split; [reflexivity|].
    destruct (ratio_in_unit (a - lo) (hi - lo)) as [H0 H1]; try Lqa.lra.
    set (t := ((a - lo) / (hi - lo))%Q) in *.
    split; [Lqa.lra|]. split; [Lqa.lra|]. split.
    + intros Hal.
      assert (Hz : (t == 0)%Q).
      { unfold t, Qdiv. setoid_replace (a - lo)%Q with 0%Q by Lqa.lra.
        ring. }
      rewrite Hz. Lqa.lra.
    + intros Hah Hdiff.
      assert (Hone : (t == 1)%Q).
      { unfold t. setoid_replace (a - lo)%Q with (hi - lo)%Q by Lqa.lra.
        field. intros H. apply Hdiff. Lqa.lra. }
      rewrite Hone. Lqa.lra.
Qed.

Lemma x_in_view (n i : nat) (lowest range : JS.number)
      (p : Types.TrekPhoto) :
  (i < n)%nat -> (2 <= n)%nat ->
  (5 <= ElevationProfile.x (ElevationProfile.pointOf n lowest range i p)
   /\ ElevationProfile.x (ElevationProfile.pointOf n lowest range i p) <= 335
   /\ (i = 0%nat ->
       ElevationProfile.x (ElevationProfile.pointOf n lowest range i p) == 5)
   /\ (S i = n ->
       ElevationProfile.x (ElevationProfile.pointOf n lowest range i p)
       == 335))%Q.
Proof.
  intros Hi Hn. cbn [ElevationProfile.x ElevationProfile.pointOf].
  unfold ElevationProfile.width, ElevationProfile.padding.
  assert (Hden : ~ (inject_Z (Z.of_nat (n - 1)) == 0)%Q).
  { change 0%Q with (inject_Z 0). rewrite inject_Z_injective. lia. }
  destruct (ratio_in_unit (inject_Z (Z.of_nat i))
                          (inject_Z (Z.of_nat (n - 1)))) as [H0 H1].
  { change 0%Q with (inject_Z 0). rewrite <- Zlt_Qlt. lia. }
  { change 0%Q with (inject_Z 0). rewrite <- Zle_Qle. lia. }
  { rewrite <- Zle_Qle. lia. }
  split; [|split; [|split]].
  - set (t := (inject_Z (Z.of_nat i) / inject_Z (Z.of_nat (n - 1)))%Q) in *.
    Lqa.lra.
  - set (t := (inject_Z (Z.of_nat i) / inject_Z (Z.of_nat (n - 1)))%Q) in *.
    Lqa.lra.
  - intros ->. cbn [Z.of_nat]. field. exact Hden.
  - intros Hlast. replace (n - 1)%nat with i in * by lia.
    field. exact Hden.
Qed.

(** The profile is drawn exactly when at least two photos carry an
    altitude. It then has one point per such photo, in the order of the
    time-sorted photos and with the photo's id, each between 5 and 335
    across. When the altitude of one of the photos is [NaN], as it is
    for every picture whose altitude the reader describes by a text with
    a unit, the lowest and the highest altitude are [NaN] and so is the
    distance down of every point. When all the altitudes are finite, the
    lowest and the highest bound them and are altitudes of such photos,
    and every point lies between 5 and 75 down. *)
Theorem chart_stays_in_view (photos : list Types.TrekPhoto) :
  (ElevationProfile.chart photos = None <->
   (List.length (filter ElevationProfile.hasAltitude photos) < 2)%nat)
  /\ (forall c, ElevationProfile.chart photos = Some c ->
        map ElevationProfile.pointId (ElevationProfile.points c)
        = map Types.id (ElevationProfile.data photos)
        /\ (forall pt, In pt (ElevationProfile.points c) ->
              (5 <= ElevationProfile.x pt /\ ElevationProfile.x pt <= 335)%Q)
        /\ ((exists p, In p photos
                       /\ ElevationProfile.hasAltitude p = true
                       /\ ElevationProfile.altitude p = JS.NotANumber) ->
            ElevationProfile.minAlt c = JS.NotANumber
            /\ ElevationProfile.maxAlt c = JS.NotANumber
            /\ forall pt, In pt (ElevationProfile.points c) ->
                          ElevationProfile.y pt = JS.NotANumber)
        /\ ((forall p, In p photos ->
                       ElevationProfile.hasAltitude p = true ->
                       exists a, ElevationProfile.altitude p = JS.Finite a) ->
            exists lo hi,
              ElevationProfile.minAlt c = JS.Finite lo
              /\ ElevationProfile.maxAlt c = JS.Finite hi
              /\ (forall p a, In p photos ->
                              ElevationProfile.hasAltitude p = true ->
                              ElevationProfile.altitude p = JS.Finite a ->
                              (lo <= a /\ a <= hi)%Q)
              /\ (exists p q,
                     In p photos /\ ElevationProfile.hasAltitude p = true
                     /\ In q photos /\ ElevationProfile.hasAltitude q = true
                     /\ ElevationProfile.altitude p = JS.Finite lo
                     /\ ElevationProfile.altitude q = JS.Finite hi)
              /\ forall pt, In pt (ElevationProfile.points c) ->
                   exists v, ElevationProfile.y pt = JS.Finite v
                             /\ (5 <= v /\ v <= 75)%Q)).
Proof.
  destruct (Nat.ltb_spec
              (List.length (filter ElevationProfile.hasAltitude photos)) 2)
    as [Hfew|Hmany].
  - pose proof (chart_of_few photos Hfew) as Hnone.
    split; [split; [intros _; exact Hfew | intros _; exact Hnone]|].
    intros c Hc. congruence.
  - pose proof (chart_value photos Hmany) as Hchart.
    split; [split; [congruence | lia]|].
    intros c Hc. rewrite Hchart in Hc. injection Hc as <-.
    cbn [ElevationProfile.points ElevationProfile.minAlt
         ElevationProfile.maxAlt].
    pose proof (data_length photos) as Hlen.
    set (d := ElevationProfile.data photos) in *.
    set (alts := map ElevationProfile.altitude d).
    split; [apply mapFrom_map; reflexivity|]. split; [|split].
    + intros pt Hpt. apply mapFrom_In in Hpt as (k & p & Hk & ->).
      assert (Hklt : (k < List.length d)%nat)
        by (apply nth_error_Some; congruence).
      destruct (x_in_view (List.length d) (0 + k) (JS.Math_minAll alts)
                  (ElevationProfile.orOne
                     (JS.subtract (JS.Math_maxAll alts)
                                  (JS.Math_minAll alts))) p)
        as (H1 & H2 & _); [cbn; lia | lia |].
      split; assumption.
    + intros (p & Hp & Halt & Hnan).
      assert (Hin : In JS.NotANumber alts).
      { rewrite <- Hnan. apply in_map, data_In. split; assumption. }
      rewrite (minAll_nan alts Hin), (maxAll_nan alts Hin).
      split; [reflexivity|]. split; [reflexivity|].
      intros pt Hpt. apply mapFrom_In in Hpt as (k & q & Hk & ->).
      apply y_of_nan.
    + intros Hfinite.
      assert (Hall : Forall (fun a => exists q, a = JS.Finite q) alts).
      { unfold alts. rewrite Forall_map, Forall_forall. intros p Hp.
        apply data_In in Hp as [Hp Halt]. exact (Hfinite p Hp Halt). }
      destruct (all_finite alts Hall) as (qs & Hqs).
      destruct qs as [|q qs].
      { exfalso. unfold alts in Hqs. apply (f_equal (@List.length _)) in Hqs.
        rewrite length_map in Hqs. cbn [List.length map] in Hqs. lia. }
      destruct (minAll_finite q qs) as (lo & Hlo & Hlo_in & Hlo_le).
      destruct (maxAll_finite q qs) as (hi & Hhi & Hhi_in & Hhi_ge).
      rewrite Hqs, Hlo, Hhi.
      assert (Hbound : forall p a, In p d ->
                         ElevationProfile.altitude p = JS.Finite a ->
                         (lo <= a /\ a <= hi)%Q).
      { intros p a Hp Ha.
        assert (Hin : In (JS.Finite a) (map JS.Finite (q :: qs))).
        { rewrite <- Hqs, <- Ha. apply in_map, Hp. }
        apply in_map_iff in Hin as (a' & Ea & Hin). injection Ea as ->.
        rewrite Forall_forall in Hlo_le, Hhi_ge.
        split; [apply Hlo_le | apply Hhi_ge]; exact Hin. }
      assert (Hattained : forall v, In v (q :: qs) ->
                 exists p, In p photos
                           /\ ElevationProfile.hasAltitude p = true
                           /\ ElevationProfile.altitude p = JS.Finite v).
      { intros v Hv.
        assert (Hin : In (JS.Finite v) alts)
          by (rewrite Hqs; apply in_map, Hv).
        apply in_map_iff in Hin as (p & Hp & Hpin).
        apply data_In in Hpin as [Hpin Halt].
        exists p. repeat split; assumption. }
      exists lo, hi. split; [reflexivity|]. split; [reflexivity|].
      split; [|split].
      * intros p a Hp Halt Ha. apply (Hbound p a); [|exact Ha].
        apply data_In. split; assumption.
      * destruct (Hattained lo Hlo_in) as (p & Hp & Hpa & Hpv).
        destruct (Hattained hi Hhi_in) as (p' & Hp' & Hpa' & Hpv').
        exists p, p'. repeat split; assumption.
      * intros pt Hpt. apply mapFrom_In in Hpt as (k & p & Hk & ->).
        assert (Hp : In p d) by (eapply nth_error_In, Hk).
        pose proof Hp as Hp'. apply data_In in Hp' as [Hin Halt].
        destruct (Hfinite p Hin Halt) as (a & Ha).
        destruct (Hbound p a Hp Ha) as [Hlo_a Ha_hi].
        destruct (y_of_finite (List.length d) (0 + k) lo hi a p Ha Hlo_a Ha_hi)
          as (v & Hv & H5 & H75 & _).
        exists v. split; [exact Hv | split; assumption].
Qed.

(** The first point of the profile is at the left edge, 5 across, and
    the last at the right edge, 335 across. When the lowest altitude is
    [NaN], as it is when the altitudes come from descriptions with a
    unit, the point is [NaN] down. When the altitudes are finite, a
    photo at the lowest altitude is drawn on the bottom line, 75 down,
    and, when the altitudes differ, a photo at the highest altitude on
    the top line, 5 down; a profile whose altitudes are all the same is
    drawn along the bottom line. *)
Theorem chart_spans_the_drawing (photos : list Types.TrekPhoto)
        (c : ElevationProfile.Chart) (k : nat) (p : Types.TrekPhoto) :
  ElevationProfile.chart photos = Some c ->
  nth_error (ElevationProfile.data photos) k = Some p ->
  exists pt,
    nth_error (ElevationProfile.points c) k = Some pt
    /\ ElevationProfile.pointId pt = Types.id p
    /\ (k = 0%nat -> (ElevationProfile.x pt == 5)%Q)
    /\ (S k = List.length (ElevationProfile.data photos) ->
        (ElevationProfile.x pt == 335)%Q)
    /\ (ElevationProfile.minAlt c = JS.NotANumber ->
        ElevationProfile.y pt = JS.NotANumber)
    /\ (forall lo hi a,
          ElevationProfile.minAlt c = JS.Finite lo ->
          ElevationProfile.maxAlt c = JS.Finite hi ->
          ElevationProfile.altitude p = JS.Finite a ->
          (lo <= a)%Q -> (a <= hi)%Q ->
          exists v,
            ElevationProfile.y pt = JS.Finite v
            /\ ((a == lo)%Q -> (v == 75)%Q)
            /\ ((a == hi)%Q -> ~ (hi == lo)%Q -> (v == 5)%Q)).
Proof.
  intros Hc Hk.
  assert (Hmany : (2 <= List.length
                          (filter ElevationProfile.hasAltitude photos))%nat).
  { destruct (Nat.ltb_spec
                (List.length (filter ElevationProfile.hasAltitude photos)) 2)
      as [Hfew|H]; [|exact H].
    apply chart_of_few in Hfew. congruence. }
  rewrite (chart_value photos Hmany) in Hc. injection Hc as <-.
  cbn [ElevationProfile.points ElevationProfile.minAlt
       ElevationProfile.maxAlt].
  rewrite <- data_length in Hmany.
  assert (Hklt : (k < List.length (ElevationProfile.data photos))%nat)
    by (apply nth_error_Some; congruence).
  eexists. split; [rewrite mapFrom_nth, Hk; reflexivity|].
  split; [reflexivity|].
  destruct (x_in_view (List.length (ElevationProfile.data photos)) (0 + k)
              (JS.Math_minAll
                 (map ElevationProfile.altitude (ElevationProfile.data photos)))
              (ElevationProfile.orOne
                 (JS.subtract
                    (JS.Math_maxAll
                       (map ElevationProfile.altitude
                            (ElevationProfile.data photos)))
                    (JS.Math_minAll
                       (map ElevationProfile.altitude
                            (ElevationProfile.data photos))))) p)
    as (_ & _ & Hfirst & Hlast); [cbn; lia | lia |].
  split; [exact Hfirst|]. split; [exact Hlast|].
  split; [intros ->; apply y_of_nan|].
  intros lo hi a Hlo Hhi Ha Hlo_a Ha_hi. rewrite Hlo, Hhi.
  destruct (y_of_finite (List.length (ElevationProfile.data photos)) (0 + k)
              lo hi a p Ha Hlo_a Ha_hi) as (v & Hv & _ & _ & H75 & H5).
  exists v. split; [exact Hv | split; assumption].
Qed.

(** At what the ingestion of two pictures leaves, one taken at 150 m
    and one at altitude 0: the point of the first is at the left edge
    and [NaN] down. *)
Lemma chart_spans_the_drawing_witness :
  exists c p pt,
    ElevationProfile.chart
      (App.photos
         (@App.ingest Demo.host [Samples.newYear; Samples.beach] App.initial))
    = Some c
    /\ nth_error
         (ElevationProfile.data
            (App.photos
               (@App.ingest Demo.host [Samples.newYear; Samples.beach]
                            App.initial)))
         0
       = Some p
    /\ Types.name p = "newyear.jpg"%string
    /\ nth_error (ElevationProfile.points c) 0 = Some pt
    /\ ElevationProfile.pointId pt = Types.id p
    /\ (ElevationProfile.x pt == 5)%Q
    /\ ElevationProfile.y pt = JS.NotANumber.
Proof.
  assert (Hc : exists c,
             ElevationProfile.chart
               (App.photos
                  (@App.ingest Demo.host [Samples.newYear; Samples.beach]
                               App.initial))
             = Some c) by (eexists; vm_compute; reflexivity).
  destruct Hc as [c Hc].
  assert (Hp : exists p,
             nth_error
               (ElevationProfile.data
                  (App.photos
                     (@App.ingest Demo.host [Samples.newYear; Samples.beach]
                                  App.initial)))
               0
             = Some p
             /\ Types.name p = "newyear.jpg"%string)
    by (eexists; split; [vm_compute; reflexivity | reflexivity]).
  destruct Hp as (p & Hp & Hname).
  destruct (chart_spans_the_drawing _ c 0 p Hc Hp)
    as (pt & Hpt & Hid & Hx & _ & Hy & _).
  assert (Hmin : ElevationProfile.minAlt c = JS.NotANumber).
  { vm_compute in Hc. injection Hc as <-. reflexivity. }
  exists c, p, pt.
  split; [exact Hc|]. split; [exact Hp|]. split; [exact Hname|].
  split; [exact Hpt|]. split; [exact Hid|]. split; [exact (Hx eq_refl)|].
  exact (Hy Hmin).
Defined.

(** ** The export and its failure *)

Section ExportOutcome.
Context {host : Host}.

Lemma trkptText_invalid (p : Types.TrekPhoto) :
  App.hasLocation p = true ->
  App.timeOf p = Some JS.NaN ->
  App.trkptText p = JS.Throw JS.RangeError.
Proof.
  unfold App.hasLocation, App.timeOf, App.trkptText, App.timeText.
  destruct (Types.location p) as [l|]; [|discriminate].
  intros _. destruct (Types.timestamp l) as [[ms|]|]; cbn; try discriminate.
  reflexivity.
Qed.

Lemma wellDated_dec (p : Types.TrekPhoto) :
  {App.timeOf p = Some JS.NaN} + {Spec.wellDated p}.
Proof.
  unfold Spec.wellDated.
  destruct (App.timeOf p) as [[|z]|];
    [left; reflexivity | right; discriminate | right; discriminate].
Qed.

Lemma appendTrkpts_outcome (trek : list Types.TrekPhoto) (gpx : string) :
  Forall (fun p => App.hasLocation p = true) trek ->
  (Exists (fun p => App.timeOf p = Some JS.NaN) trek
   /\ App.appendTrkpts trek gpx = JS.Throw JS.RangeError)
  \/ (Forall Spec.wellDated trek
      /\ exists text, App.appendTrkpts trek gpx = JS.Ok text).
Proof.
  intros Hloc. revert gpx.
  induction Hloc as [|p trek Hp Hloc IH]; intros gpx.
  - right. split; [constructor | eexists; reflexivity].
  - cbn [App.appendTrkpts].
    destruct (wellDated_dec p) as [Hbad|Hgood].
    + left. split; [left; exact Hbad|].
      rewrite (trkptText_invalid p Hp Hbad). reflexivity.
    + unfold App.hasLocation in Hp.
      destruct (Types.location p) as [l|] eqn:Hl; [|discriminate].
      rewrite (trkptText_render p l Hl Hgood). cbn [JS.bind].
      destruct (IH (gpx ++ Spec.renderTrackPoint
                             (Spec.trackPoint (Types.name p) l))%string)
        as [[Hex Hthrow]|[Hall Hok]].
      * left. split; [right; exact Hex | exact Hthrow].
      * right. split; [constructor; assumption | exact Hok].
Qed.

End ExportOutcome.

(** The export fails exactly when a geotagged photo carries an Invalid
    Date, and then with a [RangeError] and without any download; it ends
    without a download and without an error exactly when no photo is
    geotagged; in every other case it downloads one document. *)
Theorem exportGPX_outcomes {host : Host}
        (photos : list Types.TrekPhoto) (now : Z) :
  (App.exportGPX photos now = JS.Throw JS.RangeError <->
   Exists (fun p => App.timeOf p = Some JS.NaN) photos)
  /\ (forall e, App.exportGPX photos now = JS.Throw e -> e = JS.RangeError)
  /\ (App.exportGPX photos now = JS.Ok None <->
      Forall (fun p => Types.location p = None) photos)
  /\ ((exists doc, App.exportGPX photos now = JS.Ok (Some doc)) <->
      Exists (fun p => App.hasLocation p = true) photos
      /\ Forall Spec.wellDated photos).
Proof.
  assert (Hnone : List.length (filter App.hasLocation photos) = 0%nat <->
                  Forall (fun p => Types.location p = None) photos).
  { induction photos as [|p photos IH]; [split; [constructor | reflexivity]|].
    cbn [filter]. unfold App.hasLocation at 1.
    destruct (Types.location p) eqn:Hl; cbn [List.length].
    - split; [discriminate|]. intros H. inversion H; subst. congruence.
    - rewrite IH. split; [constructor; [exact Hl | assumption]|].
      intros H. inversion H; assumption. }
  assert (Hsome : (0 < List.length (filter App.hasLocation photos))%nat <->
                  Exists (fun p => App.hasLocation p = true) photos).
  { rewrite Exists_exists. split.
    - destruct (filter App.hasLocation photos) as [|p l] eqn:Hf;
        [cbn; lia|].
      intros _. exists p. apply filter_In. rewrite Hf. left. reflexivity.
    - intros (p & Hp & Hl).
      assert (Hin : In p (filter App.hasLocation photos))
        by (apply filter_In; split; assumption).
      destruct (filter App.hasLocation photos); [contradiction | cbn; lia]. }
  assert (Hbad : Exists (fun p => App.timeOf p = Some JS.NaN)
                        (App.gpsPhotos photos)
                 <-> Exists (fun p => App.timeOf p = Some JS.NaN) photos).
  { rewrite !Exists_exists. split.
    - intros (p & Hp & Ht). exists p. split; [|exact Ht].
      apply (Permutation_in _ (gpsPhotos_perm photos)) in Hp.
      apply filter_In in Hp. apply Hp.
    - intros (p & Hp & Ht). exists p. split; [|exact Ht].
      apply (Permutation_in _ (Permutation_sym (gpsPhotos_perm photos))).
      apply filter_In. split; [exact Hp|].
      unfold App.timeOf in Ht. unfold App.hasLocation.
      destruct (Types.location p); [reflexivity | discriminate]. }
  assert (Hgood : Forall Spec.wellDated photos ->
                  ~ Exists (fun p => App.timeOf p = Some JS.NaN) photos).
  { intros Hall Hex. apply Exists_exists in Hex as (p & Hp & Ht).
    rewrite Forall_forall in Hall. exact (Hall p Hp Ht). }
  assert (Hgood' : Forall Spec.wellDated (App.gpsPhotos photos) ->
                   ~ Exists (fun p => App.timeOf p = Some JS.NaN) photos ).
  { intros Hall Hex. apply Hbad in Hex.
    apply Exists_exists in Hex as (p & Hp & Ht).
    rewrite Forall_forall in Hall. exact (Hall p Hp Ht). }
  assert (Hall_of : ~ Exists (fun p => App.timeOf p = Some JS.NaN) photos ->
                    Forall Spec.wellDated photos).
  { intros Hno. rewrite Forall_forall. intros p Hp Ht. apply Hno.
    apply Exists_exists. exists p. split; assumption. }
  unfold App.exportGPX.
  rewrite sortedPhotos_located, gpsPhotos_length.
  destruct (List.length (filter App.hasLocation photos)) as [|n] eqn:Hlen.
  - cbn [Nat.eqb].
    assert (Hnoloc : Forall (fun p => Types.location p = None) photos)
      by (apply Hnone; reflexivity).
    assert (Hnobad : ~ Exists (fun p => App.timeOf p = Some JS.NaN) photos).
    { intros Hex. apply Exists_exists in Hex as (p & Hp & Ht).
      rewrite Forall_forall in Hnoloc. unfold App.timeOf in Ht.
      rewrite (Hnoloc p Hp) in Ht. discriminate. }
    split; [split; [discriminate | intros H; contradiction]|].
    split; [discriminate|].
    split; [split; [intros _; exact Hnoloc | reflexivity]|].
    split; [intros [doc Hdoc]; discriminate|].
    intros [Hex _]. apply Hsome in Hex. lia.
  - cbn [Nat.eqb].
    assert (Hex : Exists (fun p => App.hasLocation p = true) photos)
      by (apply Hsome; lia).
    assert (Hnotnone : ~ Forall (fun p => Types.location p = None) photos).
    { intros H. apply Hnone in H. lia. }
    destruct (appendTrkpts_outcome (App.gpsPhotos photos) (App.gpxHeader now)
                                   (gpsPhotos_located photos))
      as [[Hexbad ->]|[Hall [text ->]]]; cbn [JS.bind].
    + apply Hbad in Hexbad.
      split; [split; [intros _; exact Hexbad | reflexivity]|].
      split; [intros e He; injection He as <-; reflexivity|].
      split; [split; [discriminate | intros H; contradiction]|].
      split; [intros [doc Hdoc]; discriminate|].
      intros [_ Hd]. exfalso. exact (Hgood Hd Hexbad).
    + split; [split; [discriminate|]|].
      { intros Hexbad. exfalso. exact (Hgood' Hall Hexbad). }
      split; [discriminate|].
      split; [split; [discriminate | intros H; contradiction]|].
      split; [intros _|intros _; eexists; reflexivity].
      split; [exact Hex | apply Hall_of, (Hgood' Hall)].
Qed.

(** ** Escaping names *)

(** Escaping a name changes nothing but its ampersands: a name without
    one is kept as it is, the character [<] occurs after exactly when
    it occurs before, and two different names stay different. *)
Theorem escapeAmp_keeps_names_apart (s t : string) :
  (Spec.occurs "&"%char s = false -> JS.escapeAmp s = s)
  /\ Spec.occurs "<"%char (JS.escapeAmp s) = Spec.occurs "<"%char s
  /\ (JS.escapeAmp s = JS.escapeAmp t -> s = t).
Proof.
  split; [|split].
  - induction s as [|c s IH]; [reflexivity|].
    cbn [Spec.occurs JS.escapeAmp]. intros H.
    apply orb_false_iff in H as [Hc Hs]. rewrite Hc, (IH Hs). reflexivity.
  - induction s as [|c s IH]; [reflexivity|].
    cbn [JS.escapeAmp].
    destruct (Ascii.eqb_spec c "&"%char) as [->|Hne].
    + cbn. exact IH.
    + cbn [Spec.occurs]. rewrite IH. reflexivity.
  - revert t. induction s as [|c s IH]; intros t.
    + destruct t as [|d t]; [reflexivity|]. cbn [JS.escapeAmp].
      destruct (Ascii.eqb d "&"%char); discriminate.
    + destruct t as [|d t].
      * cbn [JS.escapeAmp]. destruct (Ascii.eqb c "&"%char); discriminate.
      * cbn [JS.escapeAmp].
        destruct (Ascii.eqb_spec c "&"%char) as [->|Hc],
                 (Ascii.eqb_spec d "&"%char) as [->|Hd].
        -- cbn. intros H. injection H as H. f_equal. apply IH, H.
        -- cbn. intros H. injection H as Hd' _. congruence.
        -- cbn. intros H. injection H as Hc' _. congruence.
        -- intros H. injection H as -> H. f_equal. apply IH, H.
Qed.

(** ** The playback's timers *)

Lemma sorted_snoc (l : list Z) (z : Z) :
  StronglySorted Z.le l -> Forall (fun x => (x <= z)%Z) l ->
  StronglySorted Z.le (l ++ [z]).
Proof.
  induction 1 as [|x l Hs IH Hx]; intros Hall; cbn [app].
  - repeat constructor.
  - inversion Hall as [|? ? Hxz Hall']; subst.
    constructor; [apply IH, Hall'|].
    apply Forall_app. split; [exact Hx | repeat constructor; exact Hxz].
Qed.

Lemma timersInOrder_setIsPlayingFalse (s : MapView.Session) :
  Spec.timersInOrder s -> Spec.timersInOrder (MapView.setIsPlayingFalse s).
Proof.
  unfold MapView.setIsPlayingFalse. destruct (MapView.isPlaying s);
    intros H; exact H.
Qed.

Lemma timersInOrder_selectAndWait (p : Types.TrekPhoto)
      (rest : list Types.TrekPhoto) (s : MapView.Session) :
  Spec.timersInOrder s -> Spec.timersInOrder (MapView.selectAndWait p rest s).
Proof.
  unfold Spec.timersInOrder, MapView.selectAndWait.
  cbn [MapView.walks MapView.clock]. intros [Hs Hall].
  unfold MapView.dwellMs in *. split.
  - rewrite map_app. cbn [map MapView.wakeAt]. apply sorted_snoc; [exact Hs|].
    rewrite Forall_map. eapply Forall_impl; [|exact Hall].
    cbn. intros w Hw. lia.
  - apply Forall_app. split; [exact Hall|].
    repeat constructor; cbn [MapView.wakeAt]; lia.
Qed.

Lemma timersInOrder_continueWalk (rest : list Types.TrekPhoto)
      (s : MapView.Session) :
  Spec.timersInOrder s -> Spec.timersInOrder (MapView.continueWalk rest s).
Proof.
  intros H. unfold MapView.continueWalk.
  destruct rest as [|p rest]; [apply timersInOrder_setIsPlayingFalse, H|].
  destruct (MapView.playbackRef s);
    [apply timersInOrder_selectAndWait, H
    | apply timersInOrder_setIsPlayingFalse, H].
Qed.

Lemma timersInOrder_withClock (t : Z) (s : MapView.Session) :
  Spec.timersInOrder s -> MapView.mayHappenAt t s = true ->
  Spec.timersInOrder (MapView.withClock t s).
Proof.
  unfold Spec.timersInOrder, MapView.mayHappenAt, MapView.withClock.
  cbn [MapView.walks MapView.clock]. intros [Hs Hall] Hmay.
  apply andb_true_iff in Hmay as [Hclock Hfirst]. apply Z.leb_le in Hclock.
  split; [exact Hs|].
  destruct (MapView.walks s) as [|w ws]; [constructor|].
  apply Z.leb_le in Hfirst. cbn [map] in Hs.
  inversion Hs as [|? ? _ Hle]; subst.
  inversion Hall as [|? ? Hw Hws]; subst.
  constructor; [lia|].
  rewrite Forall_map in Hle. rewrite Forall_forall in *.
  intros w' Hw'. specialize (Hle w' Hw'). specialize (Hws w' Hw'). cbn in Hle.
  lia.
Qed.

Lemma clock_continueWalk (rest : list Types.TrekPhoto) (s : MapView.Session) :
  MapView.clock (MapView.continueWalk rest s) = MapView.clock s.
Proof.
  unfold MapView.continueWalk, MapView.setIsPlayingFalse.
  destruct rest; [destruct (MapView.isPlaying s); reflexivity|].
  destruct (MapView.playbackRef s); [reflexivity|].
  destruct (MapView.isPlaying s); reflexivity.
Qed.

Lemma step_keeps_timers (s s' : MapView.Session) (e : MapView.Event) :
  Spec.timersInOrder s -> MapView.step s e = Some s' ->
  Spec.timersInOrder s' /\ (MapView.clock s <= MapView.clock s')%Z.
Proof.
  intros Hwf Hstep. destruct e as [t|t confirmed|t photoId|];
    cbn [MapView.step] in Hstep.
  - destruct (MapView.mayHappenAt t s) eqn:Hmay; [|discriminate].
    injection Hstep as <-.
    pose proof (timersInOrder_withClock t s Hwf Hmay) as Hwf'.
    assert (Hclock : (MapView.clock s <= t)%Z).
    { unfold MapView.mayHappenAt in Hmay.
      apply andb_true_iff in Hmay as [H _]. apply Z.leb_le, H. }
    unfold MapView.toggle.
    destruct (MapView.isPlaying (MapView.withClock t s)).
    + split; [apply timersInOrder_setIsPlayingFalse, Hwf'|].
      unfold MapView.setIsPlayingFalse.
      destruct (MapView.isPlaying (MapView.withClock t s)); exact Hclock.
    + unfold MapView.runPlayback.
      cbn [MapView.app MapView.withClock].
      destruct (List.length
                  (App.gpsPhotos (App.photos (MapView.app s))) =? 0)%nat.
      * split; [exact Hwf' | exact Hclock].
      * split; [apply timersInOrder_continueWalk; exact Hwf'|].
        rewrite clock_continueWalk. exact Hclock.
  - destruct (MapView.mayHappenAt t s) eqn:Hmay; [|discriminate].
    injection Hstep as <-.
    split; [exact (timersInOrder_withClock t s Hwf Hmay)|].
    unfold MapView.mayHappenAt in Hmay.
    apply andb_true_iff in Hmay as [H _]. apply Z.leb_le, H.
  - destruct (MapView.mayHappenAt t s) eqn:Hmay; [|discriminate].
    injection Hstep as <-.
    split; [exact (timersInOrder_withClock t s Hwf Hmay)|].
    unfold MapView.mayHappenAt in Hmay.
    apply andb_true_iff in Hmay as [H _]. apply Z.leb_le, H.
  - destruct Hwf as [Hs Hall].
    destruct (MapView.walks s) as [|w ws] eqn:Hw; [discriminate|].
    injection Hstep as <-.
    cbn [map] in Hs. inversion Hs as [|? ? Hs' Hle]; subst.
    inversion Hall as [|? ? Hw0 Hws]; subst.
    rewrite clock_continueWalk. cbn [MapView.clock].
    split; [|lia].
    apply timersInOrder_continueWalk. split; cbn [MapView.walks MapView.clock].
    + exact Hs'.
    + rewrite Forall_map in Hle. rewrite Forall_forall in *.
      intros w' Hw'. specialize (Hle w' Hw'). specialize (Hws w' Hw').
      cbn in Hle. lia.
Qed.

(** Whatever the user does and whenever the timers fire, the clock never
    runs backwards, and the timers of the suspended walks stay in the
    order they resolve in, none overdue and none due later than one
    dwell time ahead: a walk always resumes within 3 s. *)
Theorem timers_stay_in_order (events : list MapView.Event)
        (s s' : MapView.Session) :
  Spec.timersInOrder s ->
  MapView.run s events = Some s' ->
  Spec.timersInOrder s' /\ (MapView.clock s <= MapView.clock s')%Z.
Proof.
  revert s. induction events as [|e events IH]; intros s Hwf Hrun.
  - injection Hrun as <-. split; [exact Hwf | lia].
  - cbn [MapView.run] in Hrun.
    destruct (MapView.step s e) as [s1|] eqn:Hstep; [|discriminate].
    destruct (step_keeps_timers s s1 e Hwf Hstep) as [Hwf1 Hc1].
    destruct (IH s1 Hwf1 Hrun) as [Hwf' Hc'].
    split; [exact Hwf' | lia].
Qed.

Lemma timers_stay_in_order_witness :
  Spec.timersInOrder (Samples.sessionWith Samples.threeStops)
  /\ (exists s',
         MapView.run (Samples.sessionWith Samples.threeStops)
                     [MapView.ClickJourney 0; MapView.ClickJourney 1000;
                      MapView.ClickJourney 2000; MapView.TimerFires]
         = Some s'
         /\ Spec.timersInOrder s'
         /\ (0 <= MapView.clock s')%Z).
Proof.
  assert (H0 : Spec.timersInOrder (Samples.sessionWith Samples.threeStops))
    by (split; constructor).
  split; [exact H0|].
  assert (Hrun : exists s',
             MapView.run (Samples.sessionWith Samples.threeStops)
                         [MapView.ClickJourney 0; MapView.ClickJourney 1000;
                          MapView.ClickJourney 2000; MapView.TimerFires]
             = Some s') by (eexists; reflexivity).
  destruct Hrun as [s' Hrun]. exists s'. split; [exact Hrun|].
  exact (timers_stay_in_order _ _ _ H0 Hrun).
Defined.

(** ** A journey without waypoints *)

(** Started while no photo is geotagged, the playback makes no selection
    and sets no timer, yet stays switched on: nothing turns it off but a
    second click on the button. *)
Theorem journey_without_waypoints_stays_on (s : MapView.Session) (t : Z) :
  MapView.isPlaying s = false ->
  MapView.walks s = [] ->
  (MapView.clock s <= t)%Z ->
  App.gpsPhotos (App.photos (MapView.app s)) = [] ->
  exists s',
    MapView.step s (MapView.ClickJourney t) = Some s'
    /\ MapView.isPlaying s' = true
    /\ MapView.walks s' = []
    /\ MapView.selections s' = MapView.selections s
    /\ MapView.app s' = MapView.app s
    /\ MapView.step s' MapView.TimerFires = None
    /\ (forall t', (t <= t')%Z ->
          exists s'', MapView.step s' (MapView.ClickJourney t') = Some s''
                      /\ MapView.isPlaying s'' = false
                      /\ MapView.selections s'' = MapView.selections s).
Proof.
  intros Hidle Hwalks Hclock Htrek.
  cbn [MapView.step]. unfold MapView.mayHappenAt. rewrite Hwalks.
  apply Z.leb_le in Hclock. rewrite Hclock. cbn [andb].
  unfold MapView.toggle, MapView.withClock. cbn [MapView.isPlaying].
  rewrite Hidle. unfold MapView.runPlayback. cbn [MapView.app].
  rewrite Htrek. cbn [List.length Nat.eqb].
  eexists. split; [reflexivity|].
  cbn [MapView.isPlaying MapView.walks MapView.selections MapView.app
       MapView.clock].
  rewrite Hwalks. repeat split.
  intros t' Ht'. apply Z.leb_le in Ht'. rewrite Ht'. cbn [andb].
  unfold MapView.setIsPlayingFalse. cbn [MapView.isPlaying].
  eexists. split; [reflexivity|]. split; reflexivity.
Qed.

Lemma journey_without_waypoints_stays_on_witness :
  App.gpsPhotos
    (App.photos (MapView.app (Samples.sessionWith [Samples.indoors]))) = []
  /\ exists s',
       MapView.step (Samples.sessionWith [Samples.indoors])
                    (MapView.ClickJourney 0)
       = Some s'
       /\ MapView.isPlaying s' = true
       /\ MapView.walks s' = [].
Proof.
  split; [reflexivity|].
  destruct (journey_without_waypoints_stays_on
              (Samples.sessionWith [Samples.indoors]) 0
              eq_refl eq_refl ltac:(cbn; lia) eq_refl)
    as (s' & H1 & H2 & H3 & _).
  exists s'. repeat split; assumption.
Defined.

(** ** Worked journeys *)

Lemma playback_walks_the_trek_witness :
  App.gpsPhotos
    (App.photos (MapView.app (Samples.sessionWith Samples.threeStops)))
  <> []
  /\ exists s',
       MapView.run (Samples.sessionWith Samples.threeStops)
                   (MapView.ClickJourney 0 :: repeat MapView.TimerFires 3)
       = Some s'
       /\ MapView.selections s'
          = [(0, "origin"); (3000, "east"); (6000, "summit")]%Z%string
       /\ MapView.isPlaying s' = false
       /\ MapView.clock s' = 9000%Z.
Proof.
  assert (Hne : App.gpsPhotos
                  (App.photos
                     (MapView.app (Samples.sessionWith Samples.threeStops)))
                <> []) by discriminate.
  split; [exact Hne|].
  destruct (playback_walks_the_trek
              (Samples.sessionWith Samples.threeStops) 0
              eq_refl eq_refl ltac:(cbn; lia) Hne)
    as (s' & H1 & H2 & H3 & _ & H5).
  exists s'. split; [exact H1|]. split; [exact H2|].
  split; [exact H3 | exact H5].
Defined.

Lemma stop_halts_at_the_dwell_boundary_witness :
  exists s',
    MapView.run
      (MapView.selectAndWait Samples.origin
         [Samples.oneDegreeEast; Samples.summit]
         {| MapView.app :=
              MapView.app (Samples.sessionWith Samples.threeStops);
            MapView.isPlaying := true; MapView.playbackRef := Some 1%Z;
            MapView.walks := []; MapView.clock := 0;
            MapView.selections := [] |})
      [MapView.ClickJourney 1000; MapView.TimerFires]
    = Some s'
    /\ MapView.selections s' = [(0%Z, "origin"%string)]
    /\ MapView.isPlaying s' = false
    /\ MapView.walks s' = [].
Proof.
  destruct (stop_halts_at_the_dwell_boundary
              {| MapView.app :=
                   MapView.app (Samples.sessionWith Samples.threeStops);
                 MapView.isPlaying := true; MapView.playbackRef := Some 1%Z;
                 MapView.walks := []; MapView.clock := 0;
                 MapView.selections := [] |}
              Samples.origin [Samples.oneDegreeEast; Samples.summit] 1000
              eq_refl eq_refl ltac:(unfold MapView.dwellMs; cbn; lia))
    as (s' & H1 & H2 & _ & H4 & H5 & _).
  exists s'. repeat split; assumption.
Defined.

Lemma restart_within_the_dwell_resumes_the_walk_witness :
  App.gpsPhotos
    (App.photos (MapView.app (Samples.sessionWith Samples.threeStops)))
  = [Samples.origin; Samples.oneDegreeEast; Samples.summit]
  /\ exists s',
       MapView.run (Samples.sessionWith Samples.threeStops)
                   [MapView.ClickJourney 0; MapView.ClickJourney 1000;
                    MapView.ClickJourney 2000; MapView.TimerFires]
       = Some s'
       /\ MapView.selections s'
          = [(0, "origin"); (2000, "origin"); (3000, "east")]%Z%string
       /\ MapView.isPlaying s' = true.
Proof.
  split; [reflexivity|].
  destruct (restart_within_the_dwell_resumes_the_walk
              (Samples.sessionWith Samples.threeStops)
              Samples.origin Samples.oneDegreeEast [Samples.summit]
              0 1000 2000
              eq_refl eq_refl eq_refl ltac:(cbn; lia)
              ltac:(unfold MapView.dwellMs; lia))
    as (s' & H1 & H2 & H3 & _).
  exists s'. repeat split; assumption.
Defined.

(** ** A picture whose EXIF cannot be read *)

(** A failure of the EXIF reader costs a picture its metadata, not its
    place in the collection: when transcoding and encoding succeed the
    picture becomes a photo with its file's name, no location and a
    camera record without any field. *)
Theorem unreadable_exif_gives_a_bare_photo {host : Host}
        (file : File.t) (draw : nat) (e : JS.error) :
  ExifReader_load file = JS.Throw e ->
  Spec.assetFails file = false ->
  ExifService.extractGpsData file = JS.Ok None
  /\ ExifService.extractCameraMetadata file
     = JS.Ok ExifService.noCameraMetadata
  /\ exists p,
       App.processFile file draw = JS.Ok (Some p)
       /\ Types.name p = File.name file
       /\ Types.location p = None
       /\ Types.camera p = Some ExifService.noCameraMetadata
       /\ App.hasLocation p = false.
Proof.
  intros Hload Hasset.
  assert (Hgps : ExifService.extractGpsData file = JS.Ok None)
    by (unfold ExifService.extractGpsData; rewrite Hload; reflexivity).
  assert (Hcam : ExifService.extractCameraMetadata file
                 = JS.Ok ExifService.noCameraMetadata)
    by (unfold ExifService.extractCameraMetadata; rewrite Hload; reflexivity).
  split; [exact Hgps|]. split; [exact Hcam|].
  unfold App.processFile, Spec.assetFails in *. rewrite Hgps, Hcam.
  cbn [JS.bind].
  destruct (if App.isHeic file then heic2any file else JS.Ok (OneBlob file))
    as [displayBlob|e']; [|discriminate].
  cbn [JS.bind].
  destruct (App.finalBlobOf displayBlob) as [blob|]; [|discriminate].
  unfold ExifService.fileToBase64.
  destruct (FileReader_readAsDataURL blob) as [r|e']; [|discriminate].
  cbn [JS.bind JS.tryCatch]. eexists. split; [reflexivity|].
  repeat split.
Qed.

Lemma unreadable_exif_gives_a_bare_photo_witness :
  @ExifReader_load Demo.host Samples.corruptExif
  = JS.Throw (JS.HostError "Invalid image format")
  /\ @Spec.assetFails Demo.host Samples.corruptExif = false
  /\ exists p,
       @App.processFile Demo.host Samples.corruptExif 0 = JS.Ok (Some p)
       /\ Types.name p = "scan.jpg"%string
       /\ Types.location p = None.
Proof.
  split; [reflexivity|]. split; [reflexivity|].
  destruct (@unreadable_exif_gives_a_bare_photo Demo.host
              Samples.corruptExif 0 _ eq_refl eq_refl)
    as (_ & _ & p & H1 & H2 & H3 & _).
  exists p. repeat split; assumption.
Defined.
